(** * avalanchego: the peer-connection layer and the AVM transaction wrapper

    A shallow embedding of [network/peer.go] (handshake handlers, admission
    control of [Send], the reader and writer tasks, close) and of
    [vms/avm/tx.go] ([Tx.SyntacticVerify]), with the properties the
    specification states about them; and, beyond the specification, of the
    framing of [peer.go] ([sendRaw], [readFull], [readMsg]), its dispatcher
    [handle] and the synchronous handshake of [Start], of verification and
    dependencies in [vms/avm/tx.go], of
    [snow/engine/avalanche/tx_manager.go] and of the vertex job of
    [snow/engine/avalanche/bootstrap/vertex_job.go], with properties read
    off the code.

    Conventions.
    - Go's [int64] and [uint32] are [Z] with the wrap-around written out
      ([wrap64], [wrap32]); Go's [float64] is the binary64 format of
      IEEE 754 as the Standard Library specifies it ([SpecFloat], with 53
      bits of precision and rounding to nearest, ties to even).
    - Go maps are [gmap]s, Go sets of strings are [gset]s; reading a missing
      key of a [map[..]uint32] gives 0.
    - Peers are heap objects: a [World] is the shared [network] record and a
      store from locations to [peer] records, so that the registry
      [net_peers] can alias the peer a handler runs on.
    - The tasks of a peer are interleaved at the granularity of one handler
      call, one [Send], one writer iteration. The handlers are given twice:
      as functions on worlds, which say what a handler computes when every
      operation on the state lock of the Network goes through, and, in
      module [locked], with the lock threaded through them, where an
      [Unlock] of a lock that is not held ends the run. *)

From Stdlib Require Import ZArith Lia.
From Stdlib Require SpecFloat.
From Stdlib.Init Require Import Byte.
From stdpp Require Import gmap strings list functions.

Abbreviation byte := Byte.byte.

Local Open Scope Z_scope.

(** ** Machine integers *)

Definition wrap64 (z : Z) : Z := (z + 2 ^ 63) mod 2 ^ 64 - 2 ^ 63.
Definition wrap32 (z : Z) : Z := z mod 2 ^ 32.
Definition int64_range (z : Z) : Prop := - 2 ^ 63 <= z < 2 ^ 63.
Definition uint32_range (z : Z) : Prop := 0 <= z < 2 ^ 32.

(** ** Floating point

    [float64] is IEEE 754 binary64: 53 bits of precision, exponents below
    1024. *)

Abbreviation float64 := SpecFloat.spec_float.

(** The conversions [float64(x)] of an [int64] and of a [uint64]: the
    nearest [float64], ties to even. *)
Definition float64_of_Z (z : Z) : float64 :=
  SpecFloat.binary_normalize 53 1024 z 0 false.

Definition float64_add (x y : float64) : float64 := SpecFloat.SFadd 53 1024 x y.
Definition float64_sub (x y : float64) : float64 := SpecFloat.SFsub 53 1024 x y.
Definition float64_div (x y : float64) : float64 := SpecFloat.SFdiv 53 1024 x y.

(** [time.Duration.Seconds] of the Go library, on a number of nanoseconds:
    [sec := d / Second; nsec := d % Second;
     return float64(sec) + float64(nsec)/1e9]. Go's integer division
    truncates. *)
Definition Duration_Seconds (d : Z) : float64 :=
  float64_add (float64_of_Z (d ÷ 1000000000))
              (float64_div (float64_of_Z (Z.rem d 1000000000))
                           (float64_of_Z 1000000000)).

(** ** Wire values *)

(** [ids.ShortID] is a 20-byte identifier; its [Key()] is the same bytes as
    an array. It is modelled by the number the bytes spell. *)
Abbreviation ShortID := N.

(** A pointer to a [peer]. *)
Abbreviation loc := nat.

(** [utils.IPDesc]. *)
Record IPDesc := { IP : list byte; Port : Z }.

(** The zero value [utils.IPDesc{}]. *)
Definition IPDesc_zero : IPDesc := {| IP := []; Port := 0 |}.

(** [version.Version]: application name and three numbers, as
    [version.NewDefaultVersion(constants.PlatformName, 1, 0, 4)] builds it. *)
Record Ver := { App : string; Major : Z; Minor : Z; Patch : Z }.

Module Op.
Inductive t :=
| GetVersion | Version | VersionNak | GetPeerList | PeerList | Ping | Pong
| GetAcceptedFrontier | AcceptedFrontier | GetAccepted | Accepted
| Get | GetAncestors | Put | MultiPut | PushQuery | PullQuery | Chits.
End Op.

Module Field.
Inductive t :=
| VersionStr | NetworkID | NodeID | MyTime | IP | Peers | SessionID | ErrorNo
| ChainID | RequestID | Deadline | ContainerID | ContainerBytes
| ContainerIDs | MultiContainerBytes.

#[global] Instance eq_dec : EqDecision t.
Proof. solve_decision. Defined.
End Field.

(** What [msg.Get(field)] can hold (a Go [interface{}]). *)
Inductive Value :=
| U32 (z : Z)
| U64 (z : Z)
| Str (s : string)
| IPv (ip : IPDesc)
| IPs (l : list IPDesc)
| Bts (b : list byte).

(** [Msg]: [Op()], [Get(field)], [Bytes()]. *)
Record Msg := {
  msg_Op : Op.t;
  msg_fields : list (Field.t * Value);
  Bytes : list byte
}.

Definition Get (msg : Msg) (f : Field.t) : option Value :=
  snd <$> List.find (fun kv => bool_decide (fst kv = f)) (msg_fields msg).

(** The type assertions [msg.Get(f).(uint32)] and the like: [None] is the
    run-time panic of a failed assertion. *)
Definition as_uint32 (v : option Value) : option Z :=
  match v with Some (U32 z) => Some z | _ => None end.
Definition as_uint64 (v : option Value) : option Z :=
  match v with Some (U64 z) => Some z | _ => None end.
Definition as_string (v : option Value) : option string :=
  match v with Some (Str s) => Some s | _ => None end.
Definition as_IPDesc (v : option Value) : option IPDesc :=
  match v with Some (IPv ip) => Some ip | _ => None end.

(** ** The data model *)

(** What the Network is told through its hooks. *)
Inductive hook_call :=
| HookConnected (p : loc)
| HookDisconnected (p : loc).

(** [network]: the fields [peer.go] reads and writes. *)
Record network := {
  (* configuration *)
  net_networkID : Z;
  net_nodeID : Z;
  net_id : ShortID;
  net_ip : IPDesc;
  net_version : Ver;
  net_maxMessageSize : Z;
  net_networkPendingSendBytesToRateLimit : Z;
  net_maxNetworkPendingSendBytes : Z;
  net_maxClockDifference : Z;          (* a time.Duration: nanoseconds *)
  net_beacons : gset ShortID;
  net_clock : Z;                       (* what clock.Unix() reads now *)
  (* state under stateLock *)
  net_peers : gmap ShortID loc;
  net_nextSessionID : gmap ShortID Z;
  net_disconnectedIPs : gset string;
  net_myIPs : gset string;
  (* atomic counter *)
  net_pendingBytes : Z;
  (* the hook calls made so far, newest first *)
  net_hooks : list hook_call
}.

(** [peer]. The three channels and the connection are kept as what can be
    observed of them: the queued frames of [sender] with its capacity, and
    whether each has been closed. [writer_exited] is the control state of
    the [WriteMessages] goroutine. *)
Record peer := {
  gotVersion : bool;
  gotPeerList : bool;
  connected : bool;
  once : bool;                         (* sync.Once already fired *)
  closed : bool;
  pendingBytes : Z;
  sender : list (list byte);           (* oldest frame first *)
  sender_cap : nat;
  sender_closed : bool;
  ip : IPDesc;
  id : ShortID;
  conn_closed : bool;
  conn_RemoteAddr : option IPDesc;     (* utils.ToIPDesc(conn.RemoteAddr().String()) *)
  versionStruct : option Ver;
  versionStr : option string;
  lastSent : Z;
  lastReceived : Z;
  incomingSessionID : Z;
  tickerCloser_closed : bool;
  writer_exited : bool
}.

Record World := { w_net : network; w_heap : loc -> peer }.

(** *** Field updates *)

Definition set_net (f : network -> network) (w : World) : World :=
  {| w_net := f (w_net w); w_heap := w_heap w |}.

Definition set_peer (h : loc) (f : peer -> peer) (w : World) : World :=
  {| w_net := w_net w; w_heap := <[h := f (w_heap w h)]> (w_heap w) |}.

Definition with_net_pendingBytes (v : Z) (n : network) : network :=
  {| net_networkID := net_networkID n; net_nodeID := net_nodeID n;
     net_id := net_id n; net_ip := net_ip n; net_version := net_version n;
     net_maxMessageSize := net_maxMessageSize n;
     net_networkPendingSendBytesToRateLimit := net_networkPendingSendBytesToRateLimit n;
     net_maxNetworkPendingSendBytes := net_maxNetworkPendingSendBytes n;
     net_maxClockDifference := net_maxClockDifference n;
     net_beacons := net_beacons n; net_clock := net_clock n;
     net_peers := net_peers n; net_nextSessionID := net_nextSessionID n;
     net_disconnectedIPs := net_disconnectedIPs n; net_myIPs := net_myIPs n;
     net_pendingBytes := v; net_hooks := net_hooks n |}.

Definition with_net_peers (v : gmap ShortID loc) (n : network) : network :=
  {| net_networkID := net_networkID n; net_nodeID := net_nodeID n;
     net_id := net_id n; net_ip := net_ip n; net_version := net_version n;
     net_maxMessageSize := net_maxMessageSize n;
     net_networkPendingSendBytesToRateLimit := net_networkPendingSendBytesToRateLimit n;
     net_maxNetworkPendingSendBytes := net_maxNetworkPendingSendBytes n;
     net_maxClockDifference := net_maxClockDifference n;
     net_beacons := net_beacons n; net_clock := net_clock n;
     net_peers := v; net_nextSessionID := net_nextSessionID n;
     net_disconnectedIPs := net_disconnectedIPs n; net_myIPs := net_myIPs n;
     net_pendingBytes := net_pendingBytes n; net_hooks := net_hooks n |}.

Definition with_net_nextSessionID (v : gmap ShortID Z) (n : network) : network :=
  {| net_networkID := net_networkID n; net_nodeID := net_nodeID n;
     net_id := net_id n; net_ip := net_ip n; net_version := net_version n;
     net_maxMessageSize := net_maxMessageSize n;
     net_networkPendingSendBytesToRateLimit := net_networkPendingSendBytesToRateLimit n;
     net_maxNetworkPendingSendBytes := net_maxNetworkPendingSendBytes n;
     net_maxClockDifference := net_maxClockDifference n;
     net_beacons := net_beacons n; net_clock := net_clock n;
     net_peers := net_peers n; net_nextSessionID := v;
     net_disconnectedIPs := net_disconnectedIPs n; net_myIPs := net_myIPs n;
     net_pendingBytes := net_pendingBytes n; net_hooks := net_hooks n |}.

Definition with_net_disconnectedIPs (v : gset string) (n : network) : network :=
  {| net_networkID := net_networkID n; net_nodeID := net_nodeID n;
     net_id := net_id n; net_ip := net_ip n; net_version := net_version n;
     net_maxMessageSize := net_maxMessageSize n;
     net_networkPendingSendBytesToRateLimit := net_networkPendingSendBytesToRateLimit n;
     net_maxNetworkPendingSendBytes := net_maxNetworkPendingSendBytes n;
     net_maxClockDifference := net_maxClockDifference n;
     net_beacons := net_beacons n; net_clock := net_clock n;
     net_peers := net_peers n; net_nextSessionID := net_nextSessionID n;
     net_disconnectedIPs := v; net_myIPs := net_myIPs n;
     net_pendingBytes := net_pendingBytes n; net_hooks := net_hooks n |}.

Definition with_net_myIPs (v : gset string) (n : network) : network :=
  {| net_networkID := net_networkID n; net_nodeID := net_nodeID n;
     net_id := net_id n; net_ip := net_ip n; net_version := net_version n;
     net_maxMessageSize := net_maxMessageSize n;
     net_networkPendingSendBytesToRateLimit := net_networkPendingSendBytesToRateLimit n;
     net_maxNetworkPendingSendBytes := net_maxNetworkPendingSendBytes n;
     net_maxClockDifference := net_maxClockDifference n;
     net_beacons := net_beacons n; net_clock := net_clock n;
     net_peers := net_peers n; net_nextSessionID := net_nextSessionID n;
     net_disconnectedIPs := net_disconnectedIPs n; net_myIPs := v;
     net_pendingBytes := net_pendingBytes n; net_hooks := net_hooks n |}.

Definition with_net_hooks (v : list hook_call) (n : network) : network :=
  {| net_networkID := net_networkID n; net_nodeID := net_nodeID n;
     net_id := net_id n; net_ip := net_ip n; net_version := net_version n;
     net_maxMessageSize := net_maxMessageSize n;
     net_networkPendingSendBytesToRateLimit := net_networkPendingSendBytesToRateLimit n;
     net_maxNetworkPendingSendBytes := net_maxNetworkPendingSendBytes n;
     net_maxClockDifference := net_maxClockDifference n;
     net_beacons := net_beacons n; net_clock := net_clock n;
     net_peers := net_peers n; net_nextSessionID := net_nextSessionID n;
     net_disconnectedIPs := net_disconnectedIPs n; net_myIPs := net_myIPs n;
     net_pendingBytes := net_pendingBytes n; net_hooks := v |}.

Definition with_gotVersion (v : bool) (p : peer) : peer :=
  {| gotVersion := v; gotPeerList := gotPeerList p; connected := connected p;
     once := once p; closed := closed p; pendingBytes := pendingBytes p;
     sender := sender p; sender_cap := sender_cap p;
     sender_closed := sender_closed p; ip := ip p; id := id p;
     conn_closed := conn_closed p; conn_RemoteAddr := conn_RemoteAddr p;
     versionStruct := versionStruct p; versionStr := versionStr p;
     lastSent := lastSent p; lastReceived := lastReceived p;
     incomingSessionID := incomingSessionID p;
     tickerCloser_closed := tickerCloser_closed p;
     writer_exited := writer_exited p |}.

Definition with_gotPeerList (v : bool) (p : peer) : peer :=
  {| gotVersion := gotVersion p; gotPeerList := v; connected := connected p;
     once := once p; closed := closed p; pendingBytes := pendingBytes p;
     sender := sender p; sender_cap := sender_cap p;
     sender_closed := sender_closed p; ip := ip p; id := id p;
     conn_closed := conn_closed p; conn_RemoteAddr := conn_RemoteAddr p;
     versionStruct := versionStruct p; versionStr := versionStr p;
     lastSent := lastSent p; lastReceived := lastReceived p;
     incomingSessionID := incomingSessionID p;
     tickerCloser_closed := tickerCloser_closed p;
     writer_exited := writer_exited p |}.

Definition with_connected (v : bool) (p : peer) : peer :=
  {| gotVersion := gotVersion p; gotPeerList := gotPeerList p;
     connected := v; once := once p; closed := closed p;
     pendingBytes := pendingBytes p; sender := sender p;
     sender_cap := sender_cap p; sender_closed := sender_closed p;
     ip := ip p; id := id p; conn_closed := conn_closed p;
     conn_RemoteAddr := conn_RemoteAddr p; versionStruct := versionStruct p;
     versionStr := versionStr p; lastSent := lastSent p;
     lastReceived := lastReceived p;
     incomingSessionID := incomingSessionID p;
     tickerCloser_closed := tickerCloser_closed p;
     writer_exited := writer_exited p |}.

Definition with_once (v : bool) (p : peer) : peer :=
  {| gotVersion := gotVersion p; gotPeerList := gotPeerList p;
     connected := connected p; once := v; closed := closed p;
     pendingBytes := pendingBytes p; sender := sender p;
     sender_cap := sender_cap p; sender_closed := sender_closed p;
     ip := ip p; id := id p; conn_closed := conn_closed p;
     conn_RemoteAddr := conn_RemoteAddr p; versionStruct := versionStruct p;
     versionStr := versionStr p; lastSent := lastSent p;
     lastReceived := lastReceived p;
     incomingSessionID := incomingSessionID p;
     tickerCloser_closed := tickerCloser_closed p;
     writer_exited := writer_exited p |}.

Definition with_closed (v : bool) (p : peer) : peer :=
  {| gotVersion := gotVersion p; gotPeerList := gotPeerList p;
     connected := connected p; once := once p; closed := v;
     pendingBytes := pendingBytes p; sender := sender p;
     sender_cap := sender_cap p; sender_closed := sender_closed p;
     ip := ip p; id := id p; conn_closed := conn_closed p;
     conn_RemoteAddr := conn_RemoteAddr p; versionStruct := versionStruct p;
     versionStr := versionStr p; lastSent := lastSent p;
     lastReceived := lastReceived p;
     incomingSessionID := incomingSessionID p;
     tickerCloser_closed := tickerCloser_closed p;
     writer_exited := writer_exited p |}.

Definition with_pendingBytes (v : Z) (p : peer) : peer :=
  {| gotVersion := gotVersion p; gotPeerList := gotPeerList p;
     connected := connected p; once := once p; closed := closed p;
     pendingBytes := v; sender := sender p; sender_cap := sender_cap p;
     sender_closed := sender_closed p; ip := ip p; id := id p;
     conn_closed := conn_closed p; conn_RemoteAddr := conn_RemoteAddr p;
     versionStruct := versionStruct p; versionStr := versionStr p;
     lastSent := lastSent p; lastReceived := lastReceived p;
     incomingSessionID := incomingSessionID p;
     tickerCloser_closed := tickerCloser_closed p;
     writer_exited := writer_exited p |}.

Definition with_sender (v : list (list byte)) (p : peer) : peer :=
  {| gotVersion := gotVersion p; gotPeerList := gotPeerList p;
     connected := connected p; once := once p; closed := closed p;
     pendingBytes := pendingBytes p; sender := v; sender_cap := sender_cap p;
     sender_closed := sender_closed p; ip := ip p; id := id p;
     conn_closed := conn_closed p; conn_RemoteAddr := conn_RemoteAddr p;
     versionStruct := versionStruct p; versionStr := versionStr p;
     lastSent := lastSent p; lastReceived := lastReceived p;
     incomingSessionID := incomingSessionID p;
     tickerCloser_closed := tickerCloser_closed p;
     writer_exited := writer_exited p |}.

Definition with_sender_closed (v : bool) (p : peer) : peer :=
  {| gotVersion := gotVersion p; gotPeerList := gotPeerList p;
     connected := connected p; once := once p; closed := closed p;
     pendingBytes := pendingBytes p; sender := sender p;
     sender_cap := sender_cap p; sender_closed := v; ip := ip p; id := id p;
     conn_closed := conn_closed p; conn_RemoteAddr := conn_RemoteAddr p;
     versionStruct := versionStruct p; versionStr := versionStr p;
     lastSent := lastSent p; lastReceived := lastReceived p;
     incomingSessionID := incomingSessionID p;
     tickerCloser_closed := tickerCloser_closed p;
     writer_exited := writer_exited p |}.

Definition with_ip (v : IPDesc) (p : peer) : peer :=
  {| gotVersion := gotVersion p; gotPeerList := gotPeerList p;
     connected := connected p; once := once p; closed := closed p;
     pendingBytes := pendingBytes p; sender := sender p;
     sender_cap := sender_cap p; sender_closed := sender_closed p; ip := v;
     id := id p; conn_closed := conn_closed p;
     conn_RemoteAddr := conn_RemoteAddr p; versionStruct := versionStruct p;
     versionStr := versionStr p; lastSent := lastSent p;
     lastReceived := lastReceived p;
     incomingSessionID := incomingSessionID p;
     tickerCloser_closed := tickerCloser_closed p;
     writer_exited := writer_exited p |}.

Definition with_conn_closed (v : bool) (p : peer) : peer :=
  {| gotVersion := gotVersion p; gotPeerList := gotPeerList p;
     connected := connected p; once := once p; closed := closed p;
     pendingBytes := pendingBytes p; sender := sender p;
     sender_cap := sender_cap p; sender_closed := sender_closed p;
     ip := ip p; id := id p; conn_closed := v;
     conn_RemoteAddr := conn_RemoteAddr p; versionStruct := versionStruct p;
     versionStr := versionStr p; lastSent := lastSent p;
     lastReceived := lastReceived p;
     incomingSessionID := incomingSessionID p;
     tickerCloser_closed := tickerCloser_closed p;
     writer_exited := writer_exited p |}.

Definition with_versionStruct (v : option Ver) (p : peer) : peer :=
  {| gotVersion := gotVersion p; gotPeerList := gotPeerList p;
     connected := connected p; once := once p; closed := closed p;
     pendingBytes := pendingBytes p; sender := sender p;
     sender_cap := sender_cap p; sender_closed := sender_closed p;
     ip := ip p; id := id p; conn_closed := conn_closed p;
     conn_RemoteAddr := conn_RemoteAddr p; versionStruct := v;
     versionStr := versionStr p; lastSent := lastSent p;
     lastReceived := lastReceived p;
     incomingSessionID := incomingSessionID p;
     tickerCloser_closed := tickerCloser_closed p;
     writer_exited := writer_exited p |}.

Definition with_versionStr (v : option string) (p : peer) : peer :=
  {| gotVersion := gotVersion p; gotPeerList := gotPeerList p;
     connected := connected p; once := once p; closed := closed p;
     pendingBytes := pendingBytes p; sender := sender p;
     sender_cap := sender_cap p; sender_closed := sender_closed p;
     ip := ip p; id := id p; conn_closed := conn_closed p;
     conn_RemoteAddr := conn_RemoteAddr p; versionStruct := versionStruct p;
     versionStr := v; lastSent := lastSent p; lastReceived := lastReceived p;
     incomingSessionID := incomingSessionID p;
     tickerCloser_closed := tickerCloser_closed p;
     writer_exited := writer_exited p |}.

Definition with_lastSent (v : Z) (p : peer) : peer :=
  {| gotVersion := gotVersion p; gotPeerList := gotPeerList p;
     connected := connected p; once := once p; closed := closed p;
     pendingBytes := pendingBytes p; sender := sender p;
     sender_cap := sender_cap p; sender_closed := sender_closed p;
     ip := ip p; id := id p; conn_closed := conn_closed p;
     conn_RemoteAddr := conn_RemoteAddr p; versionStruct := versionStruct p;
     versionStr := versionStr p; lastSent := v;
     lastReceived := lastReceived p;
     incomingSessionID := incomingSessionID p;
     tickerCloser_closed := tickerCloser_closed p;
     writer_exited := writer_exited p |}.

Definition with_incomingSessionID (v : Z) (p : peer) : peer :=
  {| gotVersion := gotVersion p; gotPeerList := gotPeerList p;
     connected := connected p; once := once p; closed := closed p;
     pendingBytes := pendingBytes p; sender := sender p;
     sender_cap := sender_cap p; sender_closed := sender_closed p;
     ip := ip p; id := id p; conn_closed := conn_closed p;
     conn_RemoteAddr := conn_RemoteAddr p; versionStruct := versionStruct p;
     versionStr := versionStr p; lastSent := lastSent p;
     lastReceived := lastReceived p; incomingSessionID := v;
     tickerCloser_closed := tickerCloser_closed p;
     writer_exited := writer_exited p |}.

Definition with_tickerCloser_closed (v : bool) (p : peer) : peer :=
  {| gotVersion := gotVersion p; gotPeerList := gotPeerList p;
     connected := connected p; once := once p; closed := closed p;
     pendingBytes := pendingBytes p; sender := sender p;
     sender_cap := sender_cap p; sender_closed := sender_closed p;
     ip := ip p; id := id p; conn_closed := conn_closed p;
     conn_RemoteAddr := conn_RemoteAddr p; versionStruct := versionStruct p;
     versionStr := versionStr p; lastSent := lastSent p;
     lastReceived := lastReceived p;
     incomingSessionID := incomingSessionID p; tickerCloser_closed := v;
     writer_exited := writer_exited p |}.

Definition with_writer_exited (v : bool) (p : peer) : peer :=
  {| gotVersion := gotVersion p; gotPeerList := gotPeerList p;
     connected := connected p; once := once p; closed := closed p;
     pendingBytes := pendingBytes p; sender := sender p;
     sender_cap := sender_cap p; sender_closed := sender_closed p;
     ip := ip p; id := id p; conn_closed := conn_closed p;
     conn_RemoteAddr := conn_RemoteAddr p; versionStruct := versionStruct p;
     versionStr := versionStr p; lastSent := lastSent p;
     lastReceived := lastReceived p;
     incomingSessionID := incomingSessionID p;
     tickerCloser_closed := tickerCloser_closed p; writer_exited := v |}.

(** ** Admission and backpressure: [Send], [dropMessagePeer], [dropMessage] *)

(** [atomic.AddInt64(&x, delta)]: the new value. *)
Definition atomic_AddInt64 (x delta : Z) : Z := wrap64 (x + delta).

Definition add_net_pendingBytes (delta : Z) (w : World) : World :=
  set_net (fun n =>
    with_net_pendingBytes (atomic_AddInt64 (net_pendingBytes n) delta) n) w.

Definition add_pendingBytes (h : loc) (delta : Z) (w : World) : World :=
  set_peer h (fun p =>
    with_pendingBytes (atomic_AddInt64 (pendingBytes p) delta) p) w.

(** [return atomic.LoadInt64(&p.pendingBytes) > p.net.maxMessageSize] *)
Definition dropMessagePeer (h : loc) (w : World) : bool :=
  pendingBytes (w_heap w h) >? net_maxMessageSize (w_net w).

Definition dropMessage (h : loc) (w : World)
    (connPendingLen networkPendingLen : Z) : bool :=
  (networkPendingLen >? net_networkPendingSendBytesToRateLimit (w_net w))
  && dropMessagePeer h w
  && ((networkPendingLen >? net_maxNetworkPendingSendBytes (w_net w))
      || (connPendingLen >? net_maxNetworkPendingSendBytes (w_net w) ÷ 20)).

(** [int64(len(b))]: the length of a slice is an [int], and the conversion
    is exact. *)
Definition int64_len (b : list byte) : Z := Z.of_nat (length b).

(** The non-blocking [select { case p.sender <- msgBytes: ... default: ... }]
    takes its first branch when the buffered channel has a free slot. *)
Definition sender_has_room (p : peer) : bool :=
  (length (sender p) <? sender_cap p)%nat.

Definition enqueue (h : loc) (msgBytes : list byte) (w : World) : World :=
  set_peer h (fun p => with_sender (sender p ++ [msgBytes]) p) w.

Definition Send (msg : Msg) (h : loc) (w : World) : bool * World :=
  if closed (w_heap w h) then (false, w)
  else if dropMessagePeer h w then (false, w)
  else
    let msgBytes := Bytes msg in
    let msgBytesLen := int64_len msgBytes in
    let w1 := add_net_pendingBytes msgBytesLen w in
    let newPendingBytes := net_pendingBytes (w_net w1) in
    let newConnPendingBytes := wrap64 (pendingBytes (w_heap w1 h) + msgBytesLen) in
    if dropMessage h w1 newConnPendingBytes newPendingBytes then
      (false, add_net_pendingBytes (wrap64 (- msgBytesLen)) w1)
    else if sender_has_room (w_heap w1 h) then
      (true, add_pendingBytes h msgBytesLen (enqueue h msgBytes w1))
    else
      (false, add_net_pendingBytes (wrap64 (- msgBytesLen)) w1).

(** *** The admission rule as the specification words it *)

(** "dropMessagePeer": the peer's pendingBytes exceeds maxMessageSize. *)
Definition spec_dropMessagePeer (h : loc) (w : World) : Prop :=
  pendingBytes (w_heap w h) > net_maxMessageSize (w_net w).

(** "dropMessage holds iff netPending exceeds
    networkPendingSendBytesToRateLimit and dropMessagePeer holds and
    (netPending exceeds maxNetworkPendingSendBytes or connPending exceeds
    maxNetworkPendingSendBytes / 20)". *)
Definition spec_dropMessage (h : loc) (w : World) (connPending netPending : Z) : Prop :=
  netPending > net_networkPendingSendBytesToRateLimit (w_net w)
  /\ spec_dropMessagePeer h w
  /\ (netPending > net_maxNetworkPendingSendBytes (w_net w)
      \/ connPending > net_maxNetworkPendingSendBytes (w_net w) ÷ 20).

(** The four conditions of admission. The counters handed to the combined
    rule are the int64 sums the code computes. *)
Definition spec_admits (msg : Msg) (h : loc) (w : World) : Prop :=
  closed (w_heap w h) = false
  /\ ~ spec_dropMessagePeer h w
  /\ ~ spec_dropMessage h w
        (wrap64 (pendingBytes (w_heap w h) + int64_len (Bytes msg)))
        (wrap64 (net_pendingBytes (w_net w) + int64_len (Bytes msg)))
  /\ (length (sender (w_heap w h)) < sender_cap (w_heap w h))%nat.

(** ** External collaborators

    Code the peer layer calls but which is not part of it: the version
    parser and the compatibility check of package [version], the predicates
    and the printer of [utils.IPDesc] and [net.IP], the validator list of the
    Network, and the wire [Builder]. A failing call ([err != nil]) is
    [None], or [false] for [Compatible]. *)
Class External := {
  parser_Parse : string -> option Ver;
  version_Compatible : Ver -> Ver -> bool;
  version_String : Ver -> string;
  IPDesc_IsZero : IPDesc -> bool;
  IPDesc_String : IPDesc -> string;
  IP_Equal : list byte -> list byte -> bool;
  validatorIPs : network -> list IPDesc;
  b_pack : Op.t -> list (Field.t * Value) -> list byte;
  b_PeerList : list IPDesc -> option Msg;
  b_Parse : list byte -> option Msg
}.

Section PEER.
Context `{External}.

(** ** The Network's hooks *)

(** Modelled from the spec: [network.connected] ([network.go] is not among
    the sources). The specification only says that [tryMarkConnected]
    "notifies ... the Network [connected] hook"; the call is recorded. *)
Definition net_connected (h : loc) (w : World) : World :=
  set_net (fun n => with_net_hooks (HookConnected h :: net_hooks n) n) w.

(** Modelled from the spec: [network.disconnected] ([network.go] is not
    among the sources). By the specification a Peer "on close is removed
    from the registry exactly once", "connected <-> peers[id] = self", and a
    discarded stale connection causes "no change to peers": the hook removes
    the entry of [peers] under the peer's id when that entry is this very
    peer, leaves the entry of another connection alone, and the call is
    recorded. *)
Definition net_disconnected (h : loc) (w : World) : World :=
  let key := id (w_heap w h) in
  set_net (fun n =>
    with_net_hooks (HookDisconnected h :: net_hooks n)
      (if bool_decide (net_peers n !! key = Some h)
       then with_net_peers (delete key (net_peers n)) n
       else n)) w.

(** ** Close *)

Definition close (h : loc) (w : World) : World :=
  let w := set_peer h (with_tickerCloser_closed true) w in
  let w := set_peer h (with_closed true) w in
  let w := set_peer h (with_conn_closed true) w in
  let w := set_peer h (with_sender_closed true) w in
  net_disconnected h w.

(** [p.once.Do(p.close)] *)
Definition Close (h : loc) (w : World) : World :=
  if once (w_heap w h) then w
  else close h (set_peer h (with_once true) w).

(** ** IP hygiene *)

Definition getIP (h : loc) (w : World) : IPDesc := ip (w_heap w h).
Definition setIP (h : loc) (v : IPDesc) (w : World) : World :=
  set_peer h (with_ip v) w.

Definition discardIP (h : loc) (w : World) : World :=
  let ip := getIP h w in
  let w :=
    if negb (IPDesc_IsZero ip) then
      let w := setIP h IPDesc_zero w in
      set_net (fun n =>
        with_net_disconnectedIPs
          (net_disconnectedIPs n ∖ {[IPDesc_String ip]}) n) w
    else w in
  Close h w.

Definition discardMyIP (h : loc) (w : World) : World :=
  let ip := getIP h w in
  let w :=
    if negb (IPDesc_IsZero ip) then
      let w := setIP h IPDesc_zero w in
      let str := IPDesc_String ip in
      let w := set_net (fun n => with_net_myIPs ({[str]} ∪ net_myIPs n) n) w in
      set_net (fun n =>
        with_net_disconnectedIPs (net_disconnectedIPs n ∖ {[str]}) n) w
    else w in
  Close h w.

(** ** tryMarkConnected *)

(** [m[key]] on a [map[..]uint32]: 0 for a missing key. *)
Definition map_get0 (m : gmap ShortID Z) (key : ShortID) : Z := default 0 (m !! key).

(** [tryMarkConnected] as it runs with the state lock held, which is what
    it assumes: the lock is released around the [Close] of the old
    connection and taken again. With the lock threaded through:
    [locked.tryMarkConnected]. *)
Definition tryMarkConnected (h : loc) (w : World) : World :=
  let p := w_heap w h in
  if negb (connected p) && gotVersion p && gotPeerList p then
    if closed p then w
    else
      let key := id p in
      let w :=
        match net_peers (w_net w) !! key with
        | Some oldConnection => Close oldConnection w
        | None => w
        end in
      let w := set_peer h (with_connected true) w in
      let w :=
        if incomingSessionID (w_heap w h) >? map_get0 (net_nextSessionID (w_net w)) key
        then set_net (fun n =>
               with_net_nextSessionID
                 (<[key := incomingSessionID (w_heap w h)]> (net_nextSessionID n)) n) w
        else w in
      let w := set_net (fun n =>
                 with_net_nextSessionID
                   (<[id (w_heap w h) := wrap32 (map_get0 (net_nextSessionID n) (id (w_heap w h)) + 1)]>
                      (net_nextSessionID n)) n) w in
      let w := set_net (fun n => with_net_peers (<[key := h]> (net_peers n)) n) w in
      net_connected h w
  else w.

(** The world in which [tryMarkConnected] registers the peer: the old
    connection under the same id, if there is one, has been closed. *)
Definition close_old (h : loc) (w : World) : World :=
  match net_peers (w_net w) !! id (w_heap w h) with
  | Some oldConnection => Close oldConnection w
  | None => w
  end.

(** The session id [tryMarkConnected] leaves for the next connection:
    [uint32] arithmetic, and the increment wraps. *)
Definition next_session (prev incoming : Z) : Z :=
  wrap32 (Z.max prev incoming + 1).

(** *** Notions used to state what a step leaves alone *)

(** The same registry, session ids and record of hook calls. *)
Definition same_registry (w w' : World) : Prop :=
  net_peers (w_net w') = net_peers (w_net w)
  /\ net_nextSessionID (w_net w') = net_nextSessionID (w_net w)
  /\ net_hooks (w_net w') = net_hooks (w_net w).

(** The same identity and handshake state of a peer. *)
Definition same_handshake (p p' : peer) : Prop :=
  id p' = id p /\ gotVersion p' = gotVersion p /\ gotPeerList p' = gotPeerList p
  /\ connected p' = connected p /\ closed p' = closed p /\ once p' = once p
  /\ incomingSessionID p' = incomingSessionID p.

(** ** Outbound handshake messages *)

(** Modelled from the spec: [Builder.Version] ([builder.go] is not among
    the sources; [builder_test.go] calls it with six arguments). By the
    table of message ops a [Version] carries [NetworkID], [NodeID],
    [SessionID], [MyTime], [IP] and [VersionStr]. *)
Definition b_Version (networkID nodeID sessionID myTime : Z) (ip : IPDesc)
    (myVersion : string) : Msg :=
  let fields :=
    [ (Field.NetworkID, U32 networkID); (Field.NodeID, U32 nodeID);
      (Field.SessionID, U32 sessionID); (Field.MyTime, U64 myTime);
      (Field.IP, IPv ip); (Field.VersionStr, Str myVersion) ] in
  {| msg_Op := Op.Version; msg_fields := fields;
     Bytes := b_pack Op.Version fields |}.

(** The call of [verionAck] hands the builder five values: network id, node
    id, time, IP and version string. No session id is among them, and the
    message is built from what is passed. *)
Definition b_Version_5 (networkID nodeID myTime : Z) (ip : IPDesc)
    (myVersion : string) : Msg :=
  let fields :=
    [ (Field.NetworkID, U32 networkID); (Field.NodeID, U32 nodeID);
      (Field.MyTime, U64 myTime);
      (Field.IP, IPv ip); (Field.VersionStr, Str myVersion) ] in
  {| msg_Op := Op.Version; msg_fields := fields;
     Bytes := b_pack Op.Version fields |}.

(** The message [Version()] builds before it sends it. *)
Definition Version_msg (h : loc) (w : World) : Msg :=
  b_Version
    (net_networkID (w_net w))
    (net_nodeID (w_net w))
    (map_get0 (net_nextSessionID (w_net w)) (id (w_heap w h)))
    (net_clock (w_net w))
    (net_ip (w_net w))
    (version_String (net_version (w_net w))).

(** [Version()], as far as the message and its [Send] go. The lock it
    takes to read the session id is in [locked.Version]. *)
Definition Version (h : loc) (w : World) : World :=
  snd (Send (Version_msg h w) h w).

(** [getVersion]: the answer to an inbound [GetVersion]. *)
Definition getVersion (_ : Msg) (h : loc) (w : World) : World := Version h w.

(** The message [verionAck] builds; [sendAndReceive] then writes it to the
    connection and reads the answer. [Start] calls it first. *)
Definition verionAck_msg (w : World) : Msg :=
  b_Version_5
    (net_networkID (w_net w))
    (net_nodeID (w_net w))
    (net_clock (w_net w))
    (net_ip (w_net w))
    (version_String (net_version (w_net w))).

Definition PeerList (peers : list IPDesc) (h : loc) (w : World) : World :=
  match b_PeerList peers with
  | None => w
  | Some msg => snd (Send msg h w)
  end.

Definition SendPeerList (h : loc) (w : World) : World :=
  PeerList (validatorIPs (w_net w)) h w.

(** ** The [Version] handler *)

(** [math.Abs(peerTime-myTime) > p.net.maxClockDifference.Seconds()],
    with [myTime := float64(p.net.clock.Unix())] and [peerTime :=
    float64(msg.Get(MyTime).(uint64))]: the two times are converted to
    [float64], subtracted there, and compared with the bound in seconds as
    [float64]. *)
Definition clock_out_of_sync (peerTime myTime maxClockDifference : Z) : bool :=
  SpecFloat.SFltb
    (Duration_Seconds maxClockDifference)
    (SpecFloat.SFabs (float64_sub (float64_of_Z peerTime) (float64_of_Z myTime))).

(** The end of [version], from [if p.ip.IsZero()] on: what the handler
    does with a message that has passed every check. The claimed IP is
    taken only when none is known yet and it is the address the connection
    comes from. The source sets [versionStr] and [gotVersion] twice over
    (once through the atomic wrappers, once by plain assignment); they are
    set once here. *)
Definition version_accept (msg : Msg) (peerVersion : Ver) (sessionID : Z)
    (h : loc) (w : World) : option World :=
  w ← (if IPDesc_IsZero (ip (w_heap w h)) then
         peerIP ← as_IPDesc (Get msg Field.IP);
         match conn_RemoteAddr (w_heap w h) with
         | Some localPeerIP =>
             if IP_Equal (IP peerIP) (IP localPeerIP)
             then Some (setIP h peerIP w)
             else Some w
         | None => Some w
         end
       else Some w);
  let w := SendPeerList h w in
  let w := set_peer h (with_versionStruct (Some peerVersion)) w in
  let w := set_peer h (with_versionStr (Some (version_String peerVersion))) w in
  let w := set_peer h (with_gotVersion true) w in
  let w := set_peer h (with_incomingSessionID sessionID) w in
  Some (tryMarkConnected h w).

(** [version]. The result is [None] when a type assertion on a field of
    the message panics. The merge leftovers of the source between the
    version parse and the compatibility check only log. The lock taken to
    read the next session id and the registry is in [locked.version]. *)
Definition version (msg : Msg) (h : loc) (w : World) : option World :=
  if gotVersion (w_heap w h) then Some w
  else
    networkID ← as_uint32 (Get msg Field.NetworkID);
    if negb (networkID =? net_networkID (w_net w)) then Some (discardIP h w)
    else
    nodeID ← as_uint32 (Get msg Field.NodeID);
    if nodeID =? net_nodeID (w_net w) then Some (discardMyIP h w)
    else
    let myTime := net_clock (w_net w) in
    peerTime ← as_uint64 (Get msg Field.MyTime);
    if clock_out_of_sync peerTime myTime (net_maxClockDifference (w_net w))
    then Some (discardIP h w)
    else
    peerVersionStr ← as_string (Get msg Field.VersionStr);
    match parser_Parse peerVersionStr with
    | None => Some (discardIP h w)
    | Some peerVersion =>
      if negb (version_Compatible (net_version (w_net w)) peerVersion)
         && negb (bool_decide (id (w_heap w h) ∈ net_beacons (w_net w)))
      then Some (discardIP h w)
      else
      let peerKey := id (w_heap w h) in
      sessionID ← as_uint32 (Get msg Field.SessionID);
      let nextSessionID := map_get0 (net_nextSessionID (w_net w)) peerKey in
      let isConnected := bool_decide (is_Some (net_peers (w_net w) !! peerKey)) in
      if isConnected && negb (sessionID =? 0) && (sessionID <? nextSessionID)
      then Some (discardIP h w)
      else version_accept msg peerVersion sessionID h w
    end.

(** ** The writer task *)

(** One turn of [for msg := range p.sender] in [WriteMessages];
    [sendRaw_ok] tells whether [sendRaw] writes the frame without error.
    With an empty open channel the task waits. When the loop is left, at a
    write error or at the end of a closed and drained channel, the deferred
    [p.Close()] runs and the task is gone. *)
Definition WriteMessages_step (sendRaw_ok : bool) (h : loc) (w : World) : World :=
  let p := w_heap w h in
  if writer_exited p then w
  else
    match sender p with
    | msg :: rest =>
        let w := set_peer h (with_sender rest) w in
        let w := add_pendingBytes h (wrap64 (- int64_len msg)) w in
        let w := add_net_pendingBytes (wrap64 (- int64_len msg)) w in
        if sendRaw_ok then
          set_peer h (with_lastSent (net_clock (w_net w))) w
        else
          Close h (set_peer h (with_writer_exited true) w)
    | [] =>
        if sender_closed p
        then Close h (set_peer h (with_writer_exited true) w)
        else w
    end.

(** What the tasks around one peer can do, one at a time. *)
Inductive action :=
| ASend (msg : Msg)
| AWrite (sendRaw_ok : bool)
| AClose.

Definition act (h : loc) (a : action) (w : World) : World :=
  match a with
  | ASend msg => snd (Send msg h w)
  | AWrite ok => WriteMessages_step ok h w
  | AClose => Close h w
  end.

Definition run (h : loc) (acts : list action) (w : World) : World :=
  foldl (fun w a => act h a w) w acts.

(** ** The reader task *)

Definition byte_val (b : byte) : Z := Z.of_N (Byte.to_N b).

(** [binary.BigEndian.Uint32] *)
Definition be_uint32 (b0 b1 b2 b3 : byte) : Z :=
  Z.lor (Z.shiftl (byte_val b0) 24)
    (Z.lor (Z.shiftl (byte_val b1) 16)
       (Z.lor (Z.shiftl (byte_val b2) 8) (byte_val b3))).

(** Modelled from the spec: [wrappers.Packer.UnpackBytes] at offset 0
    ([utils/wrappers] is not among the sources). "Each frame is a 4-byte
    big-endian unsigned length followed by that many bytes of payload";
    the packer is in error "if the buffer does not yet contain a full
    frame". The result is the payload and the bytes past the frame. *)
Definition UnpackBytes (bytes : list byte) : option (list byte * list byte) :=
  match bytes with
  | b0 :: b1 :: b2 :: b3 :: rest =>
      let size := be_uint32 b0 b1 b2 b3 in
      if int64_len rest <? size then None
      else Some (take (Z.to_nat size) rest, drop (Z.to_nat size) rest)
  | _ => None
  end.

(** The payload length the first four bytes of a buffer declare. *)
Definition declared_len (bytes : list byte) : option Z :=
  match bytes with
  | b0 :: b1 :: b2 :: b3 :: _ => Some (be_uint32 b0 b1 b2 b3)
  | _ => None
  end.

(** [wrappers.IntLen] *)
Definition IntLen : Z := 4.

(** Why the loop of [ReadMessages] is left, with the bytes at hand. *)
Inductive read_exit :=
| ReadError                              (* conn.Read returned an error *)
| TooManyBytes (pending : list byte)     (* no full frame, buffer over the limit *)
| MessageTooLong (msgBytes : list byte)  (* a full frame over the limit *)
| ParseFailed (msgBytes : list byte).

(** The loop of [ReadMessages]. [reads] are the chunks the successive
    [conn.Read] calls return; after the last of them [conn.Read] fails. The
    result lists the frames that were parsed and handed to [handle], oldest
    first, and tells why the loop ended. One frame at most is unpacked per
    read. *)
Fixpoint ReadMessages_loop (maxMessageSize : Z) (reads : list (list byte))
    (pendingBuffer : list byte) : list (list byte * Msg) * read_exit :=
  match reads with
  | [] => ([], ReadError)
  | read :: reads =>
      let bytes := pendingBuffer ++ read in
      match UnpackBytes bytes with
      | None =>
          if int64_len bytes >? wrap64 (maxMessageSize + IntLen)
          then ([], TooManyBytes bytes)
          else ReadMessages_loop maxMessageSize reads bytes
      | Some (msgBytes, rest) =>
          if int64_len msgBytes >? maxMessageSize
          then ([], MessageTooLong msgBytes)
          else
            match b_Parse msgBytes with
            | None => ([], ParseFailed msgBytes)
            | Some msg =>
                let '(handled, e) := ReadMessages_loop maxMessageSize reads rest in
                ((msgBytes, msg) :: handled, e)
            end
      end
  end.

(** The frames given to [Builder.Parse]: those handled, and the one that
    failed to parse. *)
Definition parsed_frames (r : list (list byte * Msg) * read_exit) : list (list byte) :=
  (fst <$> fst r) ++ match snd r with ParseFailed f => [f] | _ => [] end.

(** [ReadMessages] with its deferred [p.Close()]. [handle] is the
    dispatcher; [setReadDeadline_ok] tells whether the first
    [SetReadDeadline] succeeds. *)
Definition ReadMessages (handle : Msg -> loc -> World -> World)
    (setReadDeadline_ok : bool) (reads : list (list byte))
    (h : loc) (w : World) : World :=
  if setReadDeadline_ok then
    let r := ReadMessages_loop (net_maxMessageSize (w_net w)) reads [] in
    Close h (foldl (fun w fm => handle (snd fm) h w) w (fst r))
  else Close h w.

End PEER.

(** ** The state lock of the Network

    [p.net.stateLock] is a [sync.RWMutex]: a writer holds it or not, and a
    number of readers hold it. *)

Record RWMutex := { rw_writer : bool; rw_readers : nat }.

Definition rw_free : RWMutex := {| rw_writer := false; rw_readers := 0 |}.
Definition rw_held : RWMutex := {| rw_writer := true; rw_readers := 0 |}.

(** How a run that works with the lock ends: it returns, with the lock as
    it leaves it; a type assertion panics; the runtime stops the process
    with "sync: Unlock of unlocked RWMutex"; or it waits for the lock,
    which in a run of one task at a time is for ever. *)
Inductive outcome (A : Type) : Type :=
| Done (a : A) (l : RWMutex)
| Panic
| Fatal
| Blocked.

Arguments Done {A} a l.
Arguments Panic {A}.
Arguments Fatal {A}.
Arguments Blocked {A}.

Definition locking (A : Type) : Type := RWMutex -> outcome A.

#[global] Instance locking_ret : MRet locking := fun A a l => Done a l.

#[global] Instance locking_bind : MBind locking := fun A B k m l =>
  match m l with
  | Done a l => k a l
  | Panic => Panic
  | Fatal => Fatal
  | Blocked => Blocked
  end.

(** A step that does not touch the lock; [None] is a panic. *)
Definition lift {A : Type} (o : option A) : locking A := fun l =>
  match o with
  | Some a => Done a l
  | None => Panic
  end.

Definition rw_Lock : locking unit := fun l =>
  if rw_writer l || negb (rw_readers l =? 0)%nat then Blocked
  else Done tt rw_held.

Definition rw_Unlock : locking unit := fun l =>
  if rw_writer l then Done tt {| rw_writer := false; rw_readers := rw_readers l |}
  else Fatal.

Definition rw_RLock : locking unit := fun l =>
  if rw_writer l then Blocked
  else Done tt {| rw_writer := false; rw_readers := S (rw_readers l) |}.

(** The handlers of the handshake with their operations on the lock. What
    is called from outside [peer.go] ([validatorIPs], the hooks of the
    Network behind [Close] and at the end of [tryMarkConnected]) is taken
    to leave the lock as it finds it. *)
Module locked.
Section WITH_LOCK.
Context `{External}.

Definition discardIP (h : loc) (w : World) : locking World :=
  let ip := getIP h w in
  w ← (if negb (IPDesc_IsZero ip) then
         let w := setIP h IPDesc_zero w in
         _ ← rw_Lock;
         let w := set_net (fun n =>
                    with_net_disconnectedIPs
                      (net_disconnectedIPs n ∖ {[IPDesc_String ip]}) n) w in
         _ ← rw_Unlock;
         mret w
       else mret w);
  mret (Close h w).

Definition discardMyIP (h : loc) (w : World) : locking World :=
  let ip := getIP h w in
  w ← (if negb (IPDesc_IsZero ip) then
         let w := setIP h IPDesc_zero w in
         let str := IPDesc_String ip in
         _ ← rw_Lock;
         let w := set_net (fun n => with_net_myIPs ({[str]} ∪ net_myIPs n) n) w in
         let w := set_net (fun n =>
                    with_net_disconnectedIPs (net_disconnectedIPs n ∖ {[str]}) n) w in
         _ ← rw_Unlock;
         mret w
       else mret w);
  mret (Close h w).

(** [tryMarkConnected] "assumes the stateLock is held": before it closes
    the old connection it releases the lock, and takes it again after. *)
Definition tryMarkConnected (h : loc) (w : World) : locking World :=
  let p := w_heap w h in
  if negb (connected p) && gotVersion p && gotPeerList p then
    if closed p then mret w
    else
      let key := id p in
      w ← match net_peers (w_net w) !! key with
          | Some oldConnection =>
              _ ← rw_Unlock;
              let w := Close oldConnection w in
              _ ← rw_Lock;
              mret w
          | None => mret w
          end;
      let w := set_peer h (with_connected true) w in
      let w :=
        if incomingSessionID (w_heap w h) >? map_get0 (net_nextSessionID (w_net w)) key
        then set_net (fun n =>
               with_net_nextSessionID
                 (<[key := incomingSessionID (w_heap w h)]> (net_nextSessionID n)) n) w
        else w in
      let w := set_net (fun n =>
                 with_net_nextSessionID
                   (<[id (w_heap w h) := wrap32 (map_get0 (net_nextSessionID n) (id (w_heap w h)) + 1)]>
                      (net_nextSessionID n)) n) w in
      let w := set_net (fun n => with_net_peers (<[key := h]> (net_peers n)) n) w in
      mret (net_connected h w)
  else mret w.

(** The end of [version], from [if p.ip.IsZero()] on. *)
Definition version_accept (msg : Msg) (peerVersion : Ver) (sessionID : Z)
    (h : loc) (w : World) : locking World :=
  w ← lift (if IPDesc_IsZero (ip (w_heap w h)) then
              peerIP ← as_IPDesc (Get msg Field.IP);
              match conn_RemoteAddr (w_heap w h) with
              | Some localPeerIP =>
                  if IP_Equal (IP peerIP) (IP localPeerIP)
                  then Some (setIP h peerIP w)
                  else Some w
              | None => Some w
              end
            else Some w);
  let w := SendPeerList h w in
  let w := set_peer h (with_versionStruct (Some peerVersion)) w in
  let w := set_peer h (with_versionStr (Some (version_String peerVersion))) w in
  let w := set_peer h (with_gotVersion true) w in
  let w := set_peer h (with_incomingSessionID sessionID) w in
  tryMarkConnected h w.

(** [version]: the lock is taken to read the next session id and the
    registry, and released again before the arbitration. *)
Definition version (msg : Msg) (h : loc) (w : World) : locking World :=
  if gotVersion (w_heap w h) then mret w
  else
    networkID ← lift (as_uint32 (Get msg Field.NetworkID));
    if negb (networkID =? net_networkID (w_net w)) then discardIP h w
    else
    nodeID ← lift (as_uint32 (Get msg Field.NodeID));
    if nodeID =? net_nodeID (w_net w) then discardMyIP h w
    else
    let myTime := net_clock (w_net w) in
    peerTime ← lift (as_uint64 (Get msg Field.MyTime));
    if clock_out_of_sync peerTime myTime (net_maxClockDifference (w_net w))
    then discardIP h w
    else
    peerVersionStr ← lift (as_string (Get msg Field.VersionStr));
    match parser_Parse peerVersionStr with
    | None => discardIP h w
    | Some peerVersion =>
      if negb (version_Compatible (net_version (w_net w)) peerVersion)
         && negb (bool_decide (id (w_heap w h) ∈ net_beacons (w_net w)))
      then discardIP h w
      else
      let peerKey := id (w_heap w h) in
      sessionID ← lift (as_uint32 (Get msg Field.SessionID));
      _ ← rw_Lock;
      let nextSessionID := map_get0 (net_nextSessionID (w_net w)) peerKey in
      let isConnected := bool_decide (is_Some (net_peers (w_net w) !! peerKey)) in
      _ ← rw_Unlock;
      if isConnected && negb (sessionID =? 0) && (sessionID <? nextSessionID)
      then discardIP h w
      else version_accept msg peerVersion sessionID h w
    end.

(** [Version]: the lock is taken for reading and released as if taken for
    writing. *)
Definition Version (h : loc) (w : World) : locking World :=
  _ ← rw_RLock;
  let msg := Version_msg h w in
  _ ← rw_Unlock;
  mret (snd (Send msg h w)).

End WITH_LOCK.
End locked.

(** ** The registry and the handshake *)

(** Every peer in the registry has received its version. *)
Definition registered_have_version (w : World) : Prop :=
  forall key h, net_peers (w_net w) !! key = Some h -> gotVersion (w_heap w h) = true.


(** ** [vms/avm/tx.go]: [Tx.SyntacticVerify] *)

Module avm.

Inductive error :=
| errNilTx
| errInitialStatesNotSortedUnique
| errWrongNumberOfCredentials
| errOther (what : string)
| errWrap (prefix : string) (err : error).   (* fmt.Errorf(prefix + "%w", err) *)

(** The [UnsignedTx] interface, as far as [SyntacticVerify] uses it: what
    its own [SyntacticVerify] returns for the VM of the transaction, and
    [NumCredentials()]. *)
Record UnsignedTx := {
  utx_SyntacticVerify : option error;
  NumCredentials : Z
}.

(** [verify.Verifiable]: what [Verify()] returns. *)
Record Verifiable := { Verify : option error }.

Record Tx := {
  unsignedTx : option UnsignedTx;      (* the embedded interface, nil or not *)
  Creds : list Verifiable;
  verifiedTx : bool;
  verifiedState : bool;
  validity : option error
}.

Definition with_verifiedTx (v : bool) (t : Tx) : Tx :=
  {| unsignedTx := unsignedTx t; Creds := Creds t; verifiedTx := v;
     verifiedState := verifiedState t; validity := validity t |}.

Definition with_validity (v : option error) (t : Tx) : Tx :=
  {| unsignedTx := unsignedTx t; Creds := Creds t; verifiedTx := verifiedTx t;
     verifiedState := verifiedState t; validity := v |}.

(** [for _, cred := range t.Creds]: the first failure, wrapped. *)
Fixpoint verify_creds (creds : list Verifiable) : option error :=
  match creds with
  | [] => None
  | cred :: creds =>
      match Verify cred with
      | Some err => Some (errWrap "credential failed verification: " err)
      | None => verify_creds creds
      end
  end.

(** The receiver is a pointer: [None] is [t == nil]. The result is the
    returned error ([None] for [nil]) and the transaction after the call. *)
Definition SyntacticVerify (t : option Tx) : option error * option Tx :=
  match t with
  | None => (Some errNilTx, t)
  | Some tx =>
      match unsignedTx tx with
      | None => (Some errNilTx, t)
      | Some utx =>
          if verifiedTx tx then (validity tx, t)
          else
            let tx := with_verifiedTx true tx in
            match utx_SyntacticVerify utx with
            | Some _ =>
                (Some errInitialStatesNotSortedUnique,
                 Some (with_validity (Some errInitialStatesNotSortedUnique) tx))
            | None =>
                match verify_creds (Creds tx) with
                | Some err => (Some err, Some (with_validity (Some err) tx))
                | None =>
                    if negb (NumCredentials utx =? Z.of_nat (length (Creds tx)))
                    then (Some errWrongNumberOfCredentials,
                          Some (with_validity (Some errWrongNumberOfCredentials) tx))
                    else (None, Some tx)
                end
            end
      end
  end.

End avm.

(** ** Accounting of the send queue *)

(** The bytes of the frames in a queue. *)
Definition queue_bytes (q : list (list byte)) : Z :=
  foldr (fun f s => int64_len f + s) 0 q.

(** The frame an action puts into the queue of the peer, if any: the bytes
    of the message of a [Send] that returns true. *)
Definition act_accepted (h : loc) (a : action) (w : World) : list (list byte) :=
  match a with
  | ASend msg => if fst (Send msg h w) then [Bytes msg] else []
  | _ => []
  end.

(** The frame an action takes out of the queue, if any: the one a turn of
    the writer receives from the channel. *)
Definition act_dequeued (h : loc) (a : action) (w : World) : list (list byte) :=
  match a with
  | AWrite _ =>
      if writer_exited (w_heap w h) then []
      else match sender (w_heap w h) with msg :: _ => [msg] | [] => [] end
  | _ => []
  end.

Fixpoint run_accepted (h : loc) (acts : list action) (w : World) : list (list byte) :=
  match acts with
  | [] => []
  | a :: acts => act_accepted h a w ++ run_accepted h acts (act h a w)
  end.

Fixpoint run_dequeued (h : loc) (acts : list action) (w : World) : list (list byte) :=
  match acts with
  | [] => []
  | a :: acts => act_dequeued h a w ++ run_dequeued h acts (act h a w)
  end.

(** ** Frames on the connection: [sendRaw], [readFull], [readMsg] *)

(** The byte of the low eight bits of a number. *)
Definition byte_of_Z (z : Z) : byte :=
  default x00 (Byte.of_N (Z.to_N (z mod 256))).

(** [binary.BigEndian.PutUint32] *)
Definition be_bytes32 (n : Z) : list byte :=
  [ byte_of_Z (Z.shiftr n 24); byte_of_Z (Z.shiftr n 16);
    byte_of_Z (Z.shiftr n 8); byte_of_Z n ].

(** Modelled from the spec: [wrappers.Packer.PackBytes] into a packer of
    exactly the room needed ([utils/wrappers] is not among the sources).
    "Each frame is a 4-byte big-endian unsigned length followed by that
    many bytes of payload"; the length is the [uint32] of [len(bytes)]. *)
Definition PackBytes (bytes : list byte) : list byte :=
  be_bytes32 (wrap32 (int64_len bytes)) ++ bytes.

(** The loop of [sendRaw] over what is left to write. [writes] are the
    results of the successive [conn.Write] calls: the number of bytes
    written (at most what was offered) and whether the error is nil; after
    the last of them [conn.Write] fails without writing. The result is the
    bytes that went onto the connection and whether [sendRaw] returns
    nil. *)
Fixpoint sendRaw_loop (writes : list (nat * bool)) (msg : list byte)
    : list byte * bool :=
  match msg with
  | [] => ([], true)
  | _ =>
      match writes with
      | [] => ([], false)
      | (written, ok) :: writes =>
          if ok then
            let '(sent, res) := sendRaw_loop writes (drop written msg) in
            (take written msg ++ sent, res)
          else (take written msg, false)
      end
  end.

Definition sendRaw (writes : list (nat * bool)) (msg : list byte)
    : list byte * bool :=
  sendRaw_loop writes (PackBytes msg).

(** The incoming side of a connection: the segments in which the bytes
    arrive. [conn.Read] into a buffer of [n] bytes returns the first
    segment, or its first [n] bytes when it is longer, the rest staying
    for the next read; on an empty list it returns an error.

    [readFull]: read until [len] bytes are there. The result is the bytes
    and the connection after them, [None] for a read error. *)
Fixpoint readFull (len : nat) (conn : list (list byte))
    : option (list byte * list (list byte)) :=
  match len with
  | O => Some ([], conn)
  | S _ =>
      match conn with
      | [] => None
      | seg :: conn =>
          if (length seg <=? len)%nat then
            match readFull (len - length seg) conn with
            | Some (responseBuffer, conn) => Some (seg ++ responseBuffer, conn)
            | None => None
            end
          else Some (take len seg, drop len seg :: conn)
      end
  end.

Section FRAMING.
Context `{External}.

(** [readMsg]: one frame, read synchronously: four bytes of length, then
    as many bytes as they declare, whatever that number is; then the frame
    is unpacked and parsed. [None] is any of its errors. *)
Definition readMsg (conn : list (list byte)) : option (Msg * list (list byte)) :=
  '(readBuffer, conn) ← readFull (Z.to_nat IntLen) conn;
  if negb (length readBuffer =? 4)%nat then None
  else
    size ← declared_len readBuffer;
    '(readBuffer2, conn) ← readFull (Z.to_nat size) conn;
    if negb (int64_len readBuffer2 =? size) then None
    else
      '(msgBytes, _) ← UnpackBytes (readBuffer ++ readBuffer2);
      msg ← b_Parse msgBytes;
      Some (msg, conn).

(** [sendAndReceive]: write the frame of the message, then read one
    message. The result is the bytes written, and the answer with the
    connection after it; the answer is [None] when the write or the read
    fails. *)
Definition sendAndReceive (writes : list (nat * bool)) (conn : list (list byte))
    (msg : Msg) : list byte * option (Msg * list (list byte)) :=
  let '(sent, ok) := sendRaw writes (Bytes msg) in
  if ok then (sent, readMsg conn) else (sent, None).

End FRAMING.

(** ** The dispatcher, the other handlers and [Start] *)

Definition with_lastReceived (v : Z) (p : peer) : peer :=
  {| gotVersion := gotVersion p; gotPeerList := gotPeerList p;
     connected := connected p; once := once p; closed := closed p;
     pendingBytes := pendingBytes p; sender := sender p;
     sender_cap := sender_cap p; sender_closed := sender_closed p;
     ip := ip p; id := id p; conn_closed := conn_closed p;
     conn_RemoteAddr := conn_RemoteAddr p; versionStruct := versionStruct p;
     versionStr := versionStr p; lastSent := lastSent p;
     lastReceived := v;
     incomingSessionID := incomingSessionID p;
     tickerCloser_closed := tickerCloser_closed p;
     writer_exited := writer_exited p |}.

(** [msg.Get(Peers).([]utils.IPDesc)] *)
Definition as_IPs (v : option Value) : option (list IPDesc) :=
  match v with Some (IPs l) => Some l | _ => None end.

(** More code that the peer layer calls and that is not part of it: the
    table of message metrics of the Network ([p.net.message(op)], nil for
    an op it does not know), the order of package [version] with two of
    its constants, two more predicates of [utils.IPDesc], the
    [allowPrivateIPs] setting, the builders of the messages without fields
    and of [VersionNak] ([None] when the builder returns an error),
    [isPeered] and [validatorIPsNoLock] of the Network, and the three
    codes a [VersionNak] carries. *)
Class Dispatch := {
  net_message_known : Op.t -> bool;
  Ver_Before : Ver -> Ver -> bool;
  minimumUnmaskedVersion : Ver;
  PlatformName : string;
  IPDesc_Equal : IPDesc -> IPDesc -> bool;
  IPDesc_IsPrivate : IPDesc -> bool;
  net_allowPrivateIPs : bool;
  b_GetVersion : option Msg;
  b_GetPeerList : option Msg;
  b_Pong : option Msg;
  b_VersionNak : Z -> list IPDesc -> option Msg;
  net_isPeered : network -> ShortID -> bool;
  validatorIPsNoLock : network -> list IPDesc;
  Success : Z;
  AlreadyPeered : Z;
  SelfPeered : Z
}.

(** What [handle] passes on: a call of [p.net.track(ip)], and a call of
    the handler of a consensus op ([getAcceptedFrontier] to [chits]) on the
    message; these handlers take the fields from the message and call the
    router. *)
Inductive effect :=
| Track (ip : IPDesc)
| Consensus (op : Op.t) (msg : Msg).

(** The ops of the second [switch] of [handle]. *)
Definition is_consensus (op : Op.t) : bool :=
  match op with
  | Op.GetAcceptedFrontier | Op.AcceptedFrontier | Op.GetAccepted
  | Op.Accepted | Op.Get | Op.GetAncestors | Op.Put | Op.MultiPut
  | Op.PushQuery | Op.PullQuery | Op.Chits => true
  | _ => false
  end.

(** What [sendAndReceive] returns: the answer, [io.EOF], or another
    error. *)
Inductive exchange :=
| Reply (msg : Msg)
| EOF
| Failed.

Inductive start_error :=
| ErrSetReadDeadline            (* the error of conn.SetReadDeadline *)
| ErrEOF                        (* io.EOF, handed on *)
| ErrExchange                   (* another error of verionAck, handed on *)
| ErrParse                      (* the error of the version parser *)
| errAlreadyPeered
| errPeerIsMyself
| errVersionExpected
| errVersionNakExpected
| ErrVersionNak (errorNo : Z).  (* "version nak errorNo=%d" *)

(** The goroutines [Start] and [processVersionNak] launch. *)
Inductive task :=
| GoHandle (msg : Msg)
| GoReadMessages
| GoVersion
| GoGetPeerList
| GoWriteMessages
| GoRequestFinishHandshake
| GoSendPings
| GoTrack (peers : list IPDesc).

(** What [Start] has done when it returns. *)
Record started := {
  st_err : option start_error;
  st_world : World;
  st_tasks : list task
}.

(** The handshake is complete after a [Version] with session id [s]:
    the peer is connected and registered, the Network has been told, and
    the next session id has moved on. [w] is the world before the two
    messages, [w'] the world after them. *)
Definition handshake_done (s : Z) (h : loc) (w w' : World) : Prop :=
  let key := id (w_heap w h) in
  connected (w_heap w' h) = true
  /\ net_peers (w_net w') !! key = Some h
  /\ net_hooks (w_net w') = HookConnected h :: net_hooks (w_net w)
  /\ map_get0 (net_nextSessionID (w_net w')) key
     = wrap32 (Z.max (map_get0 (net_nextSessionID (w_net w)) key) s + 1).

(** A step on the peer [h] that leaves the handshake where it is: the
    registry, the session ids and the hook calls, the handshake state of
    the peer, and every other peer. *)
Definition handshake_kept (h : loc) (w w' : World) : Prop :=
  same_registry w w'
  /\ same_handshake (w_heap w h) (w_heap w' h)
  /\ forall h', h' <> h -> w_heap w' h' = w_heap w h'.

Section DISPATCH.
Context `{External} `{Dispatch}.

(** [version.NewDefaultVersion(constants.PlatformName, 1, 0, 4)] *)
Definition VersionPeerNak : Ver :=
  {| App := PlatformName; Major := 1; Minor := 0; Patch := 4 |}.

(** The senders of the messages without fields. The result is [None]
    when the builder fails: [Send] is then called on a nil message. The
    counters of sent and failed pongs are not modelled. *)
Definition GetVersion (h : loc) (w : World) : option World :=
  msg ← b_GetVersion; Some (snd (Send msg h w)).

Definition GetPeerList (h : loc) (w : World) : option World :=
  msg ← b_GetPeerList; Some (snd (Send msg h w)).

Definition Pong (h : loc) (w : World) : option World :=
  msg ← b_Pong; Some (snd (Send msg h w)).

Definition getPeerList (_ : Msg) (h : loc) (w : World) : World :=
  if gotVersion (w_heap w h) then SendPeerList h w else w.

Definition ping (_ : Msg) (h : loc) (w : World) : option World := Pong h w.

Definition pong (_ : Msg) (h : loc) (w : World) : World := w.

(** The test of [peerList] on an address before it is tracked. *)
Definition trackable (w : World) (ip : IPDesc) : bool :=
  negb (IPDesc_Equal ip (net_ip (w_net w)))
  && negb (IPDesc_IsZero ip)
  && (net_allowPrivateIPs || negb (IPDesc_IsPrivate ip)).

(** [peerList]. The calls of [p.net.track] are returned, in their order,
    and not carried out: the world of the result is the world in which
    the first of them is made. *)
Definition peerList (msg : Msg) (h : loc) (w : World)
    : option (World * list IPDesc) :=
  ips ← as_IPs (Get msg Field.Peers);
  let w := set_peer h (with_gotPeerList true) w in
  let w := tryMarkConnected h w in
  Some (w, List.filter (trackable w) ips).

Definition no_effects : list effect := [].

(** [handle]. [deadline_ok] tells whether [conn.SetReadDeadline] returns
    nil, [apricotPhase0_passed] whether [time.Until(p.net.apricotPhase0Time)
    < 0]. The heartbeat of the Network and the counters of received
    messages are not modelled. The result is [None] when the handler
    panics. *)
Definition handle (deadline_ok apricotPhase0_passed : bool) (msg : Msg)
    (h : loc) (w : World) : option (World * list effect) :=
  let w := set_peer h (with_lastReceived (net_clock (w_net w))) w in
  if negb deadline_ok then Some (Close h w, no_effects)
  else if negb (net_message_known (msg_Op msg)) then Some (w, no_effects)
  else
    match msg_Op msg with
    | Op.Version => w ← version msg h w; Some (w, no_effects)
    | Op.GetVersion => Some (getVersion msg h w, no_effects)
    | Op.Ping => w ← ping msg h w; Some (w, no_effects)
    | Op.Pong => Some (pong msg h w, no_effects)
    | Op.GetPeerList => Some (getPeerList msg h w, no_effects)
    | Op.PeerList =>
        '(w, ips) ← peerList msg h w; Some (w, Track <$> (ips : list IPDesc))
    | _ =>
        if negb (connected (w_heap w h)) then
          w ← (if negb (gotVersion (w_heap w h)) then GetVersion h w else Some w);
          w ← (if negb (gotPeerList (w_heap w h)) then GetPeerList h w else Some w);
          Some (w, no_effects)
        else
          peerVersion ← versionStruct (w_heap w h);
          if Ver_Before peerVersion minimumUnmaskedVersion && apricotPhase0_passed
          then Some (w, no_effects)
          else if is_consensus (msg_Op msg) then Some (w, [Consensus (msg_Op msg) msg])
          else Some (w, no_effects)
    end.

Definition start_failed (err : start_error) (w : World) : started :=
  {| st_err := Some err; st_world := w; st_tasks := [] |}.

(** [processVersionNak]. [nack] is what [versionNack] returns for the
    code and the addresses it is called with. The addresses of the answer
    are handed to a goroutine that tracks those that pass the test of
    [trackable]. *)
Definition processVersionNak (nack : Z -> list IPDesc -> exchange)
    (h : loc) (w : World) : option started :=
  let p := w_heap w h in
  if bool_decide (id p = net_id (w_net w)) then
    _ ← b_VersionNak SelfPeered [];
    Some (start_failed errPeerIsMyself w)
  else if net_isPeered (w_net w) (id p) then
    _ ← b_VersionNak AlreadyPeered [];
    Some (start_failed errAlreadyPeered w)
  else
    let ips := validatorIPsNoLock (w_net w) in
    _ ← b_VersionNak Success ips;
    match nack Success ips with
    | EOF | Failed => Some (start_failed errVersionNakExpected w)
    | Reply msg =>
        errorNo ← as_uint32 (Get msg Field.ErrorNo);
        if errorNo =? AlreadyPeered then Some (start_failed errAlreadyPeered w)
        else if errorNo =? SelfPeered then Some (start_failed errPeerIsMyself w)
        else if errorNo =? Success then
          peers ← as_IPs (Get msg Field.Peers);
          let w := set_peer h (with_gotVersion true) w in
          let w := set_peer h (with_gotPeerList true) w in
          let w := set_peer h (with_connected true) w in
          let w := net_connected h w in
          Some {| st_err := None; st_world := w;
                  st_tasks := [GoReadMessages; GoWriteMessages; GoSendPings;
                               GoTrack peers] |}
        else Some (start_failed (ErrVersionNak errorNo) w)
    end.

(** [Start]. [deadline_ok] tells whether [conn.SetReadDeadline] returns
    nil, [ack] is what [verionAck] returns. [checkPeerVersion] only logs.
    The result is [None] when a type assertion on a field of the answer
    panics. *)
Definition Start (deadline_ok : bool) (ack : exchange)
    (nack : Z -> list IPDesc -> exchange) (h : loc) (w : World)
    : option started :=
  let p := w_heap w h in
  let self := bool_decide (id p = net_id (w_net w)) in
  if negb deadline_ok then Some (start_failed ErrSetReadDeadline w)
  else
    match ack with
    | EOF =>
        if net_isPeered (w_net w) (id p) then Some (start_failed errAlreadyPeered w)
        else Some (start_failed ErrEOF w)
    | Failed => Some (start_failed ErrExchange w)
    | Reply msg =>
        match msg_Op msg with
        | Op.PeerList =>
            if self then Some (start_failed errPeerIsMyself w)
            else
              Some {| st_err := None; st_world := w;
                      st_tasks := [GoHandle msg; GoReadMessages; GoVersion;
                                   GoWriteMessages; GoRequestFinishHandshake;
                                   GoSendPings] |}
        | Op.Version =>
            peerVersionStr ← as_string (Get msg Field.VersionStr);
            match parser_Parse peerVersionStr with
            | None => Some (start_failed ErrParse w)
            | Some peerVersion =>
                if Ver_Before peerVersion VersionPeerNak then
                  if self then Some (start_failed errPeerIsMyself w)
                  else
                    Some {| st_err := None; st_world := w;
                            st_tasks := [GoHandle msg; GoReadMessages;
                                         GoGetPeerList; GoWriteMessages;
                                         GoRequestFinishHandshake;
                                         GoSendPings] |}
                else
                  peerIP ← as_IPDesc (Get msg Field.IP);
                  let w := set_peer h (with_ip peerIP) w in
                  let w := set_peer h
                             (with_versionStr (Some (version_String peerVersion))) w in
                  processVersionNak nack h w
            end
        | _ =>
            if self then Some (start_failed errPeerIsMyself w)
            else Some (start_failed errVersionExpected w)
        end
    end.

End DISPATCH.

(** ** [vms/avm/tx.go]: status, semantic verification, dependencies *)

Module avm_tx.

(** [choices.Status] *)
Inductive Status := Unknown | Processing | Rejected | Accepted.

#[global] Instance Status_eq_dec : EqDecision Status.
Proof. solve_decision. Defined.

(** [errors.New("transaction is unknown")] and
    [errors.New("transaction is rejected")] *)
Definition errUnknownTx : avm.error := avm.errOther "transaction is unknown".
Definition errRejectedTx : avm.error := avm.errOther "transaction is rejected".

(** A [Tx] with the fields [SyntacticVerify] does not touch: the cached
    status and the cached dependencies. [ids.ID] is modelled by the number
    its 32 bytes spell. *)
Record TxS := {
  tx : avm.Tx;
  status : Status;
  deps : list N
}.

Definition with_tx (v : avm.Tx) (t : TxS) : TxS :=
  {| tx := v; status := status t; deps := deps t |}.

Definition with_deps (v : list N) (t : TxS) : TxS :=
  {| tx := tx t; status := status t; deps := v |}.

(** What the transaction asks of its VM: [vm.state.Status(t.ID())], [None]
    for an error, and [t.UnsignedTx.SemanticVerify(t.vm, t.UnsignedTx,
    t.Creds)]. *)
Record VM := {
  state_Status : option Status;
  utx_SemanticVerify : avm.UnsignedTx -> list avm.Verifiable -> option avm.error
}.

(** [Status]. [t.ID()] is the method of the embedded [UnsignedTx]: the
    call panics when that is nil, and the result is [None]. *)
Definition Status_of (vm : VM) (t : TxS) : option Status :=
  if bool_decide (status t <> Unknown) then Some (status t)
  else
    _ ← avm.unsignedTx (tx t);
    Some (match state_Status vm with
          | None => Unknown
          | Some status => status
          end).

(** [SemanticVerify] on a transaction that is not nil. The result is
    [None] when the call panics: the embedded [UnsignedTx] is nil and its
    method is called. *)
Definition SemanticVerify (vm : VM) (t : TxS) : option (option avm.error * TxS) :=
  let t :=
    match snd (avm.SyntacticVerify (Some (tx t))) with
    | Some tx' => with_tx tx' t
    | None => t
    end in
  if bool_decide (avm.validity (tx t) <> None) || avm.verifiedState (tx t)
  then Some (avm.validity (tx t), t)
  else
    match avm.unsignedTx (tx t) with
    | None => None
    | Some utx => Some (utx_SemanticVerify vm utx (avm.Creds (tx t)), t)
    end.

Definition verifyWithoutCacheWrites (vm : VM) (t : TxS)
    : option (option avm.error * TxS) :=
  status ← Status_of vm t;
  match status with
  | Unknown => Some (Some errUnknownTx, t)
  | Accepted => Some (None, t)
  | Rejected => Some (Some errRejectedTx, t)
  | Processing => SemanticVerify vm t
  end.

Definition with_verifiedState (v : bool) (t : avm.Tx) : avm.Tx :=
  {| avm.unsignedTx := avm.unsignedTx t; avm.Creds := avm.Creds t;
     avm.verifiedTx := avm.verifiedTx t; avm.verifiedState := v;
     avm.validity := avm.validity t |}.

(** [Verify]. The third component tells whether "verified" is published;
    the publication takes [t.ID()]. *)
Definition Verify (vm : VM) (t : TxS) : option (option avm.error * TxS * bool) :=
  match verifyWithoutCacheWrites vm t with
  | None => None
  | Some (Some err, t) => Some (Some err, t, false)
  | Some (None, t) =>
      _ ← avm.unsignedTx (tx t);
      Some (None, with_tx (with_verifiedState true (tx t)) t, true)
  end.

(** [avax.UTXOID], as far as [Dependencies] and [Accept] use it:
    [Symbolic()], the transaction id of [InputSource()], and [InputID()]. *)
Record UTXOID := { Symbolic : bool; InputSource : N; InputID : N }.

(** One turn of the first loop of [Dependencies], over the inputs. *)
Definition deps_input (st : gset N * list N) (input : UTXOID) : gset N * list N :=
  if Symbolic input then st
  else
    let txID := InputSource input in
    if bool_decide (txID ∈ st.1) then st
    else ({[txID]} ∪ st.1, st.2 ++ [txID]).

(** One turn of the second loop, over the asset ids. *)
Definition deps_asset (consumedIDs : gset N) (st : gset N * list N) (assetID : N)
    : gset N * list N :=
  if bool_decide (assetID ∈ consumedIDs) || bool_decide (assetID ∈ st.1) then st
  else ({[assetID]} ∪ st.1, st.2 ++ [assetID]).

(** [Dependencies]. [inputUTXOs] is what [t.InputUTXOs()] returns,
    [consumedIDs] what [t.ConsumedAssetIDs()] returns, and [assetIDs] the
    list [t.AssetIDs().List()] in the order it comes. The result is the
    returned slice and the transaction with its cache. *)
Definition Dependencies (inputUTXOs : list UTXOID) (consumedIDs : gset N)
    (assetIDs : list N) (t : TxS) : list N * TxS :=
  if negb (length (deps t) =? 0)%nat then (deps t, t)
  else
    let st := foldl deps_input (∅, deps t) inputUTXOs in
    let st := foldl (deps_asset consumedIDs) st assetIDs in
    (st.2, with_deps st.2 t).

(** The set the loops carry holds exactly the ids collected so far, and
    no id is collected twice. *)
Definition deps_inv (st : gset N * list N) : Prop :=
  NoDup st.2 /\ forall x, x ∈ st.1 <-> x ∈ st.2.

Definition with_status (v : Status) (t : TxS) : TxS :=
  {| tx := tx t; status := v; deps := deps t |}.

(** The calls [Accept] makes on the state, the database and the pubsub
    server of its VM, and on its unsigned transaction. *)
Inductive vm_call :=
| SpendUTXO (utxoID : N)
| FundUTXO (utxo : N)
| SetStatus (s : Status)
| CommitBatch
| ExecuteWithSideEffects
| Publish (channel : string)
| Abort.

Inductive accept_error :=
| ErrInvalidStatus (s : Status)   (* "transaction has invalid status: %s" *)
| ErrCall (c : vm_call).          (* the error the call returned *)

(** The calls that spend the inputs that are not symbolic, and the calls
    that fund the new UTXOs, in their order. *)
Definition spends (inputUTXOs : list UTXOID) : list vm_call :=
  (fun utxo => SpendUTXO (InputID utxo))
    <$> List.filter (fun utxo => negb (Symbolic utxo)) inputUTXOs.

Definition funds (utxos : list N) : list vm_call := FundUTXO <$> utxos.

(** [Publish] and [Abort] return nothing. *)
Definition no_result (c : vm_call) : bool :=
  match c with Publish _ | Abort => true | _ => false end.

Section ACCEPT.

(** Whether a call returns nil, given the calls made before it. *)
Context (ok : list vm_call -> vm_call -> bool).

(** The calls [new], made one after the other after [calls], have all
    returned nil. *)
Fixpoint all_ok (calls new : list vm_call) : bool :=
  match new with
  | [] => true
  | c :: new => (no_result c || ok calls c) && all_ok (calls ++ [c]) new
  end.

(** A call: its result, and the calls made so far with this one added. *)
Definition do_call (c : vm_call) (calls : list vm_call) : bool * list vm_call :=
  (ok calls c, calls ++ [c]).

(** [setStatus]; [t.ID()] is a method of the embedded [UnsignedTx] and
    panics when that is nil. *)
Definition setStatus (s : Status) (t : TxS) (calls : list vm_call)
    : option (bool * TxS * list vm_call) :=
  if bool_decide (status t = s) then Some (true, t, calls)
  else
    let t := with_status s t in
    _ ← avm.unsignedTx (tx t);
    let '(r, calls) := do_call (SetStatus s) calls in
    Some (r, t, calls).

(** The loop of [Accept] over the inputs: the first call that fails, if
    any. *)
Fixpoint spend_all (inputUTXOs : list UTXOID) (calls : list vm_call)
    : option accept_error * list vm_call :=
  match inputUTXOs with
  | [] => (None, calls)
  | utxo :: inputUTXOs =>
      if Symbolic utxo then spend_all inputUTXOs calls
      else
        let '(r, calls) := do_call (SpendUTXO (InputID utxo)) calls in
        if r then spend_all inputUTXOs calls
        else (Some (ErrCall (SpendUTXO (InputID utxo))), calls)
  end.

(** The loop over the new UTXOs. *)
Fixpoint fund_all (utxos : list N) (calls : list vm_call)
    : option accept_error * list vm_call :=
  match utxos with
  | [] => (None, calls)
  | utxo :: utxos =>
      let '(r, calls) := do_call (FundUTXO utxo) calls in
      if r then fund_all utxos calls
      else (Some (ErrCall (FundUTXO utxo)), calls)
  end.

(** [Accept], from the deferral of [t.vm.db.Abort()] on. [inputUTXOs] is
    what [t.InputUTXOs()] returns and [utxos] what [t.UTXOs()] returns,
    [None] when the call panics (nothing is cached and the [UnsignedTx] is
    nil). *)
Definition Accept_body (inputUTXOs : option (list UTXOID)) (utxos : option (list N))
    (t : TxS) (calls : list vm_call)
    : option (option accept_error * TxS * list vm_call) :=
  inputUTXOs ← inputUTXOs;
  match spend_all inputUTXOs calls with
  | (Some err, calls) => Some (Some err, t, calls)
  | (None, calls) =>
      utxos ← utxos;
      match fund_all utxos calls with
      | (Some err, calls) => Some (Some err, t, calls)
      | (None, calls) =>
          '(r, t, calls) ← setStatus Accepted t calls;
          if negb r then Some (Some (ErrCall (SetStatus Accepted)), t, calls)
          else
            _ ← avm.unsignedTx (tx t);          (* txID := t.ID() *)
            let '(r, calls) := do_call CommitBatch calls in
            if negb r then Some (Some (ErrCall CommitBatch), t, calls)
            else
              let '(r, calls) := do_call ExecuteWithSideEffects calls in
              if negb r then Some (Some (ErrCall ExecuteWithSideEffects), t, calls)
              else Some (None, with_deps [] t, calls ++ [Publish "accepted"])
      end
  end.

(** [Accept]. [calls] are the calls made on the VM so far. The result is
    [None] when [Accept] panics. *)
Definition Accept (vm : VM) (inputUTXOs : option (list UTXOID))
    (utxos : option (list N)) (t : TxS) (calls : list vm_call)
    : option (option accept_error * TxS * list vm_call) :=
  s ← Status_of vm t;
  if bool_decide (s <> Processing) then
    _ ← avm.unsignedTx (tx t);                  (* t.ID(), for the log *)
    Some (Some (ErrInvalidStatus s), t, calls)
  else
    '(err, t, calls) ← Accept_body inputUTXOs utxos t calls;
    Some (err, t, calls ++ [Abort]).

End ACCEPT.

End avm_tx.

(** ** [snow/engine/avalanche/tx_manager.go] *)

Module txmgr.
Section TXMANAGER.

(** [snowstorm.Tx] with its [ID()], the LRU cache and the VM behind the
    manager, with the calls the manager makes on them. *)
Context {Tx Cache VMStore : Type}.
Context (Tx_ID : Tx -> N).
Context (cache_Get : Cache -> N -> option Tx).
Context (cache_Put : N -> Tx -> Cache -> Cache).
Context (vm_GetTx : VMStore -> N -> option Tx).
Context (vm_SaveTx : Tx -> VMStore -> VMStore * bool).

Record txManager := {
  pinnedTxs : gmap N Tx;
  txCache : Cache;
  vm : VMStore
}.

(** [GetTx]: the pinned transactions first, then the cache, then the
    storage; [None] is the error of the storage. The cache holds what
    [SaveTx] puts there, transactions, so that the type assertion on what
    it returns holds. *)
Definition GetTx (tm : txManager) (id : N) : option Tx :=
  match pinnedTxs tm !! id with
  | Some tx => Some tx
  | None =>
      match cache_Get (txCache tm) id with
      | Some tx => Some tx
      | None => vm_GetTx (vm tm) id
      end
  end.

(** [SaveTx]: into the cache, then into the storage, whose error (here
    [false]) is returned. *)
Definition SaveTx (tx : Tx) (tm : txManager) : txManager * bool :=
  let c := cache_Put (Tx_ID tx) tx (txCache tm) in
  let '(v, ok) := vm_SaveTx tx (vm tm) in
  ({| pinnedTxs := pinnedTxs tm; txCache := c; vm := v |}, ok).

Definition PinTx (tx : Tx) (tm : txManager) : txManager :=
  {| pinnedTxs := <[Tx_ID tx := tx]> (pinnedTxs tm);
     txCache := txCache tm; vm := vm tm |}.

Definition UnpinTx (id : N) (tm : txManager) : txManager :=
  {| pinnedTxs := delete id (pinnedTxs tm);
     txCache := txCache tm; vm := vm tm |}.

End TXMANAGER.
End txmgr.

(** ** [snow/engine/avalanche/bootstrap/vertex_job.go] *)

Module bootstrap.

(** [avalanche.Vertex], as far as the job uses it: what [Parents()] and
    [Txs()] return (the ids, or [None] for an error), [Status()], and
    whether [Accept()] returns nil. *)
Record Vertex := {
  vtx_Parents : option (list N);
  vtx_Txs : option (list N);
  vtx_Status : avm_tx.Status;
  vtx_Accept_ok : bool
}.

Inductive job_error :=
| ErrParents            (* the error of vtx.Parents() *)
| ErrBlocked            (* "attempting to execute blocked vertex" *)
| ErrTxs                (* the error of vtx.Txs() *)
| ErrStatus (s : avm_tx.Status)   (* "attempting to execute vertex with status %s" *)
| ErrAccept             (* "failed to accept vertex in bootstrapping: %w" *)
| ErrSave.              (* "failed to save block %s to VM's database: %s" *)

(** The two prometheus counters. *)
Record counters := { numAccepted : nat; numDropped : nat }.

(** What [Execute] has done when it returns. *)
Record executed := {
  ex_err : option job_error;
  ex_counters : counters;
  ex_Accept_called : bool;
  ex_SaveVertex_called : bool
}.

Section JOB.

(** [mgr.GetVertex(id)] followed by [Status()]: [None] when the vertex is
    not found. [GetTx(id)]: the transaction returned, as its [Status()]
    ([None] for a nil transaction), and whether the error is nil.
    [mgr.SaveVertex]: whether the error is nil. *)
Context (mgr_GetVertex : N -> option avm_tx.Status).
Context (GetTx : N -> option avm_tx.Status * bool).
Context (mgr_SaveVertex_ok : bool).

Definition MissingDependencies (vtx : Vertex) : gset N * option job_error :=
  match vtx_Parents vtx with
  | None => (∅, Some ErrParents)
  | Some parentIDs =>
      (foldl (fun missing parentID =>
                match mgr_GetVertex parentID with
                | Some avm_tx.Accepted => missing
                | _ => {[parentID]} ∪ missing
                end) ∅ parentIDs,
       None)
  end.

(** The loop of [Execute] over the transactions of the vertex: [Some true]
    when all of them are accepted, [Some false] at the first that is not,
    [None] when a method is called on a nil transaction. When [GetTx]
    returns an error the source logs the id of the transaction it got,
    which is a call on it as well. *)
Fixpoint txs_accepted (txs : list N) : option bool :=
  match txs with
  | [] => Some true
  | id :: txs =>
      match GetTx id with
      | (None, _) => None
      | (Some status, _) =>
          if bool_decide (status <> avm_tx.Accepted) then Some false
          else txs_accepted txs
      end
  end.

Definition bump_dropped (c : counters) : counters :=
  {| numAccepted := numAccepted c; numDropped := S (numDropped c) |}.

Definition bump_accepted (c : counters) : counters :=
  {| numAccepted := S (numAccepted c); numDropped := numDropped c |}.

(** [Execute]; [None] is a panic. *)
Definition Execute (vtx : Vertex) (c : counters) : option executed :=
  match MissingDependencies vtx with
  | (_, Some err) => Some {| ex_err := Some err; ex_counters := c;
                             ex_Accept_called := false;
                             ex_SaveVertex_called := false |}
  | (deps, None) =>
      if negb (size deps =? 0)%nat then
        Some {| ex_err := Some ErrBlocked; ex_counters := bump_dropped c;
                ex_Accept_called := false; ex_SaveVertex_called := false |}
      else
        match vtx_Txs vtx with
        | None => Some {| ex_err := Some ErrTxs; ex_counters := c;
                          ex_Accept_called := false;
                          ex_SaveVertex_called := false |}
        | Some txs =>
            match txs_accepted txs with
            | None => None
            | Some false =>
                Some {| ex_err := None; ex_counters := bump_dropped c;
                        ex_Accept_called := false;
                        ex_SaveVertex_called := false |}
            | Some true =>
                match vtx_Status vtx with
                | avm_tx.Unknown | avm_tx.Rejected =>
                    Some {| ex_err := Some (ErrStatus (vtx_Status vtx));
                            ex_counters := bump_dropped c;
                            ex_Accept_called := false;
                            ex_SaveVertex_called := false |}
                | avm_tx.Processing =>
                    if negb (vtx_Accept_ok vtx) then
                      Some {| ex_err := Some ErrAccept;
                              ex_counters := bump_accepted c;
                              ex_Accept_called := true;
                              ex_SaveVertex_called := false |}
                    else if negb mgr_SaveVertex_ok then
                      Some {| ex_err := Some ErrSave;
                              ex_counters := bump_accepted c;
                              ex_Accept_called := true;
                              ex_SaveVertex_called := true |}
                    else
                      Some {| ex_err := None; ex_counters := bump_accepted c;
                              ex_Accept_called := true;
                              ex_SaveVertex_called := true |}
                | avm_tx.Accepted =>
                    Some {| ex_err := None; ex_counters := c;
                            ex_Accept_called := false;
                            ex_SaveVertex_called := false |}
                end
            end
        end
  end.

End JOB.
End bootstrap.

(** ** Example states

    A small network and a fresh peer, used to run the definitions on
    concrete inputs. *)

Definition ex_net : network :=
  {| net_networkID := 1; net_nodeID := 7; net_id := 100%N;
     net_ip := {| IP := [x7f; x00; x00; x01]; Port := 9651 |};
     net_version := {| App := "avalanche"; Major := 1; Minor := 0; Patch := 4 |};
     net_maxMessageSize := 2097152;
     net_networkPendingSendBytesToRateLimit := 262144;
     net_maxNetworkPendingSendBytes := 1048576;
     net_maxClockDifference := 60000000000;
     net_beacons := ∅; net_clock := 1600000000;
     net_peers := ∅; net_nextSessionID := ∅;
     net_disconnectedIPs := ∅; net_myIPs := ∅;
     net_pendingBytes := 0; net_hooks := [] |}.

(** A peer just created for a connection from 10.0.0.2:9651, with a send
    queue of two slots. *)
Definition ex_peer (i : ShortID) : peer :=
  {| gotVersion := false; gotPeerList := false; connected := false;
     once := false; closed := false; pendingBytes := 0; sender := [];
     sender_cap := 2; sender_closed := false; ip := IPDesc_zero; id := i;
     conn_closed := false;
     conn_RemoteAddr := Some {| IP := [x0a; x00; x00; x02]; Port := 9651 |};
     versionStruct := None; versionStr := None; lastSent := 0;
     lastReceived := 0; incomingSessionID := 0;
     tickerCloser_closed := false; writer_exited := false |}.

Definition ex_world : World :=
  {| w_net := ex_net; w_heap := fun _ => ex_peer 5%N |}.

(** A message of which only the bytes matter. *)
Definition ex_msg (b : list byte) : Msg :=
  {| msg_Op := Op.Ping; msg_fields := []; Bytes := b |}.

(** Collaborators to run the handlers with: a version parser that rejects
    the empty string only, compatibility as equality of major numbers, an
    IP that is zero when it has no address or no port, no validators, and a
    builder whose wire form is of no interest. *)
Definition ex_External : External :=
  {| parser_Parse := fun s =>
       if String.eqb s "" then None
       else Some {| App := s; Major := 1; Minor := 0; Patch := 4 |};
     version_Compatible := fun a b => Major a =? Major b;
     version_String := App;
     IPDesc_IsZero := fun ip =>
       match IP ip with [] => true | _ => Port ip =? 0 end;
     IPDesc_String := fun ip => String.string_of_list_byte (IP ip);
     IP_Equal := fun a b =>
       String.eqb (String.string_of_list_byte a) (String.string_of_list_byte b);
     validatorIPs := fun _ => [];
     b_pack := fun _ _ => [];
     b_PeerList := fun ips =>
       Some {| msg_Op := Op.PeerList; msg_fields := [(Field.Peers, IPs ips)];
               Bytes := [x00] |};
     b_Parse := fun b => Some (ex_msg b) |}.

(** A [Version] message from 10.0.0.2:9651. *)
Definition ex_Version (networkID nodeID sessionID myTime : Z) : Msg :=
  @b_Version ex_External networkID nodeID sessionID myTime
    {| IP := [x0a; x00; x00; x02]; Port := 9651 |} "avalanche/1.0.4".

(** The world of the reconnect scenario: the peer at location 1 is
    connected and registered under id 5, the next session id for that id
    is 5, and the peer at location 0 is a new connection of the same id
    that has the peer list already. *)
Definition ex_old_peer : peer :=
  with_connected true (with_gotVersion true (with_gotPeerList true (ex_peer 5%N))).

Definition ex_world_registered : World :=
  {| w_net := with_net_nextSessionID {[5%N := 5]}
                (with_net_peers {[5%N := 1%nat]} ex_net);
     w_heap := <[1%nat := ex_old_peer]>
                 (fun _ => with_gotPeerList true (ex_peer 5%N)) |}.

(** A transaction with one credential that has not been verified yet; the
    VM has it as processing and answers its semantic verification with
    [r]. *)
Definition ex_utx (r : option avm.error) : avm.UnsignedTx :=
  {| avm.utx_SyntacticVerify := r; avm.NumCredentials := 1 |}.

Definition ex_TxS (r : option avm.error) : avm_tx.TxS :=
  {| avm_tx.tx :=
       {| avm.unsignedTx := Some (ex_utx r);
          avm.Creds := [{| avm.Verify := None |}];
          avm.verifiedTx := false; avm.verifiedState := false;
          avm.validity := None |};
     avm_tx.status := avm_tx.Processing;
     avm_tx.deps := [] |}.

(** The same transaction as it is built: its own status is [Unknown], and
    the status is read from the database. *)
Definition ex_TxS_db (r : option avm.error) : avm_tx.TxS :=
  {| avm_tx.tx := avm_tx.tx (ex_TxS r);
     avm_tx.status := avm_tx.Unknown;
     avm_tx.deps := [] |}.

Definition ex_VM (r : option avm.error) : avm_tx.VM :=
  {| avm_tx.state_Status := Some avm_tx.Processing;
     avm_tx.utx_SemanticVerify := fun _ _ => r |}.

(** A processing vertex with parents 1 and 2 and transactions 10 and 11; a
    manager that has every vertex but 2 as accepted; and two transaction
    managers: one has 11 as processing, the other does not find it. *)
Definition ex_vertex : bootstrap.Vertex :=
  {| bootstrap.vtx_Parents := Some [1%N; 2%N];
     bootstrap.vtx_Txs := Some [10%N; 11%N];
     bootstrap.vtx_Status := avm_tx.Processing;
     bootstrap.vtx_Accept_ok := true |}.

Definition ex_GetVertex (missing : bool) (id : N) : option avm_tx.Status :=
  if missing && (id =? 2)%N then None else Some avm_tx.Accepted.

Definition ex_GetTx (found : bool) (id : N) : option avm_tx.Status * bool :=
  if (id =? 11)%N then
    if found then (Some avm_tx.Processing, true) else (None, false)
  else (Some avm_tx.Accepted, true).

(** More collaborators to run the dispatcher and [Start] with: a Network
    that knows every op, versions ordered by their numbers, no private
    addresses, builders whose wire form is of no interest, [isPeered] as
    the registry has it, and the codes 0, 1 and 2. *)
Definition ex_Dispatch : Dispatch :=
  {| net_message_known := fun _ => true;
     Ver_Before := fun a b =>
       (Major a <? Major b)
       || ((Major a =? Major b)
           && ((Minor a <? Minor b)
               || ((Minor a =? Minor b) && (Patch a <? Patch b))));
     minimumUnmaskedVersion :=
       {| App := "avalanche"; Major := 1; Minor := 1; Patch := 0 |};
     PlatformName := "avalanche";
     IPDesc_Equal := fun a b =>
       String.eqb (String.string_of_list_byte (IP a))
                  (String.string_of_list_byte (IP b))
       && (Port a =? Port b);
     IPDesc_IsPrivate := fun _ => false;
     net_allowPrivateIPs := false;
     b_GetVersion :=
       Some {| msg_Op := Op.GetVersion; msg_fields := []; Bytes := [x00] |};
     b_GetPeerList :=
       Some {| msg_Op := Op.GetPeerList; msg_fields := []; Bytes := [x03] |};
     b_Pong := Some {| msg_Op := Op.Pong; msg_fields := []; Bytes := [x06] |};
     b_VersionNak := fun errorNo ips =>
       Some {| msg_Op := Op.VersionNak;
               msg_fields := [(Field.ErrorNo, U32 errorNo); (Field.Peers, IPs ips)];
               Bytes := [x02] |};
     net_isPeered := fun n i => bool_decide (is_Some (net_peers n !! i));
     validatorIPsNoLock := fun _ => [];
     Success := 0; AlreadyPeered := 1; SelfPeered := 2 |}.

(** A [PeerList] with one address, a [Chits] without
    fields, a [VersionNak] that reports success, and a world whose peers
    are the node itself. *)
Definition ex_PeerList : Msg :=
  {| msg_Op := Op.PeerList;
     msg_fields := [(Field.Peers, IPs [{| IP := [x0a; x00; x00; x03]; Port := 9651 |}])];
     Bytes := [x04] |}.

Definition ex_Chits : Msg :=
  {| msg_Op := Op.Chits; msg_fields := []; Bytes := [x11] |}.

Definition ex_nack (errorNo : Z) (ips : list IPDesc) : exchange :=
  Reply {| msg_Op := Op.VersionNak;
           msg_fields := [(Field.ErrorNo, U32 0); (Field.Peers, IPs [])];
           Bytes := [x02] |}.

Definition ex_world_self : World :=
  {| w_net := ex_net; w_heap := fun _ => ex_peer 100%N |}.

(** A world whose peers are connected and have the version of their
    peer. *)
Definition ex_world_connected : World :=
  {| w_net := ex_net;
     w_heap := fun _ =>
       with_versionStruct
         (Some {| App := "avalanche"; Major := 1; Minor := 2; Patch := 0 |})
         ex_old_peer |}.

(** A VM whose calls all return nil, but for [CommitBatch] when
    [commit_ok] is false; and two inputs, the second symbolic. *)
Definition ex_ok (commit_ok : bool) (calls : list avm_tx.vm_call)
    (c : avm_tx.vm_call) : bool :=
  match c with avm_tx.CommitBatch => commit_ok | _ => true end.

Definition ex_inputs : list avm_tx.UTXOID :=
  [ {| avm_tx.Symbolic := false; avm_tx.InputSource := 3%N; avm_tx.InputID := 30%N |};
    {| avm_tx.Symbolic := true; avm_tx.InputSource := 4%N; avm_tx.InputID := 40%N |} ].

(** * Properties *)

(** ** Machine integers *)

Lemma wrap64_id z : int64_range z -> wrap64 z = z.
Proof.
  unfold wrap64, int64_range. intros Hz.
  rewrite Z.mod_small; lia.
Qed.

Lemma wrap64_range z : int64_range (wrap64 z).
Proof.
  unfold wrap64, int64_range.
  pose proof (Z.mod_pos_bound (z + 2 ^ 63) (2 ^ 64) ltac:(lia)). lia.
Qed.

Lemma wrap64_congr z : exists k, wrap64 z = z + k * 2 ^ 64.
Proof.
  exists (- ((z + 2 ^ 63) / 2 ^ 64)). unfold wrap64.
  pose proof (Z.div_mod (z + 2 ^ 63) (2 ^ 64) ltac:(lia)). lia.
Qed.

(** Adding [n] and then [-n] to an int64 gives it back, whatever wraps on
    the way. *)
Lemma wrap64_add_sub x n :
  int64_range x -> wrap64 (wrap64 (x + n) + wrap64 (- n)) = x.
Proof.
  intros Hx.
  destruct (wrap64_congr (x + n)) as [k1 E1].
  destruct (wrap64_congr (- n)) as [k2 E2].
  destruct (wrap64_congr (wrap64 (x + n) + wrap64 (- n))) as [k3 E3].
  pose proof (wrap64_range (wrap64 (x + n) + wrap64 (- n))) as R.
  unfold int64_range in *. lia.
Qed.

Lemma wrap32_range z : uint32_range (wrap32 z).
Proof. unfold wrap32, uint32_range. apply Z.mod_pos_bound. lia. Qed.

Lemma wrap32_id z : uint32_range z -> wrap32 z = z.
Proof. unfold wrap32, uint32_range. intros. apply Z.mod_small. lia. Qed.

Section PEER_FACTS.
Context `{External}.

(** ** Admission *)

Lemma dropMessagePeer_spec h w :
  dropMessagePeer h w = true <-> spec_dropMessagePeer h w.
Proof. unfold dropMessagePeer, spec_dropMessagePeer. rewrite Z.gtb_lt. lia. Qed.

Lemma dropMessage_spec h w c n :
  dropMessage h w c n = true <-> spec_dropMessage h w c n.
Proof.
  unfold dropMessage, spec_dropMessage.
  rewrite !andb_true_iff, orb_true_iff, dropMessagePeer_spec, !Z.gtb_lt.
  intuition lia.
Qed.

(** The speculative addition to the network counter does not change what
    [dropMessagePeer] reads. *)
Lemma dropMessagePeer_add_net d h w :
  dropMessagePeer h (add_net_pendingBytes d w) = dropMessagePeer h w.
Proof. reflexivity. Qed.

Lemma dropMessage_add_net d h w c n :
  dropMessage h (add_net_pendingBytes d w) c n = dropMessage h w c n.
Proof. reflexivity. Qed.

(** C1. [Send] returns true exactly when the peer is not closed, its
    pending bytes do not exceed [maxMessageSize], the combined drop rule
    does not hold of the two counters with the message added, and the
    sender queue has a free slot. *)
Theorem Send_true_iff_admits (msg : Msg) (h : loc) (w : World) :
  fst (Send msg h w) = true <-> spec_admits msg h w.
Proof.
  unfold Send, spec_admits.
  rewrite <- dropMessagePeer_spec, <- dropMessage_spec.
  destruct (closed (w_heap w h)) eqn:Hc; simpl.
  { split; [discriminate | intros [? _]; discriminate]. }
  destruct (dropMessagePeer h w) eqn:Hp; simpl.
  { split; [discriminate | intros (_ & Hn & _); congruence]. }
  rewrite dropMessage_add_net.
  unfold atomic_AddInt64.
  destruct (dropMessage h w _ _) eqn:Hd; simpl.
  { split; [discriminate | intros (_ & _ & Hn & _); congruence]. }
  unfold sender_has_room. simpl.
  destruct (length (sender (w_heap w h)) <? sender_cap (w_heap w h))%nat eqn:Hr; simpl.
  - apply Nat.ltb_lt in Hr. intuition congruence.
  - apply Nat.ltb_ge in Hr. split; [discriminate | intros (_ & _ & _ & Hlt); lia].
Qed.

(** The combined rule never decides: [Send] reaches it only when
    [dropMessagePeer] is false, and the rule needs it true. So [Send] is
    the same function without it. *)
Lemma Send_eq (msg : Msg) (h : loc) (w : World) :
  Send msg h w =
  if closed (w_heap w h) then (false, w)
  else if dropMessagePeer h w then (false, w)
  else
    let n := int64_len (Bytes msg) in
    if sender_has_room (w_heap w h)
    then (true, add_pendingBytes h n (enqueue h (Bytes msg) (add_net_pendingBytes n w)))
    else (false, add_net_pendingBytes (wrap64 (- n)) (add_net_pendingBytes n w)).
Proof.
  unfold Send.
  destruct (closed (w_heap w h)); [done|].
  destruct (dropMessagePeer h w) eqn:Hp; [done|].
  cbv zeta. rewrite dropMessage_add_net. unfold dropMessage.
  rewrite Hp, andb_false_r. reflexivity.
Qed.

Lemma Send_true_iff (msg : Msg) (h : loc) (w : World) :
  fst (Send msg h w) = true <->
  closed (w_heap w h) = false /\ dropMessagePeer h w = false
  /\ sender_has_room (w_heap w h) = true.
Proof.
  rewrite Send_eq.
  destruct (closed (w_heap w h)); simpl; [intuition discriminate|].
  destruct (dropMessagePeer h w); simpl; [intuition discriminate|].
  destruct (sender_has_room (w_heap w h)); simpl; intuition discriminate.
Qed.

(** Admission with the two sums taken in the integers: the combined rule
    cannot hold when [dropMessagePeer] does not, whatever the counters. *)
Lemma Send_true_iff_admits_exact (msg : Msg) (h : loc) (w : World) :
  fst (Send msg h w) = true <->
  closed (w_heap w h) = false
  /\ ~ spec_dropMessagePeer h w
  /\ ~ spec_dropMessage h w
        (pendingBytes (w_heap w h) + int64_len (Bytes msg))
        (net_pendingBytes (w_net w) + int64_len (Bytes msg))
  /\ (length (sender (w_heap w h)) < sender_cap (w_heap w h))%nat.
Proof.
  rewrite Send_true_iff. unfold sender_has_room, spec_dropMessage.
  rewrite Nat.ltb_lt, <- dropMessagePeer_spec.
  destruct (dropMessagePeer h w); intuition congruence.
Qed.

(** ** Close

    What [Close] leaves alone, and what it does. *)

Lemma Close_net_frame (h : loc) (w : World) :
  net_nextSessionID (w_net (Close h w)) = net_nextSessionID (w_net w)
  /\ net_myIPs (w_net (Close h w)) = net_myIPs (w_net w)
  /\ net_disconnectedIPs (w_net (Close h w)) = net_disconnectedIPs (w_net w).
Proof.
  unfold Close. destruct (once (w_heap w h)); [done|].
  unfold close, net_disconnected, set_peer, set_net. simpl.
  by case_bool_decide.
Qed.

Lemma Close_peer_frame (h h' : loc) (w : World) :
  id (w_heap (Close h w) h') = id (w_heap w h')
  /\ incomingSessionID (w_heap (Close h w) h') = incomingSessionID (w_heap w h')
  /\ ip (w_heap (Close h w) h') = ip (w_heap w h')
  /\ gotVersion (w_heap (Close h w) h') = gotVersion (w_heap w h')
  /\ gotPeerList (w_heap (Close h w) h') = gotPeerList (w_heap w h')
  /\ connected (w_heap (Close h w) h') = connected (w_heap w h').
Proof.
  unfold Close. destruct (once (w_heap w h)); [done|].
  unfold close, net_disconnected, set_peer, set_net. simpl.
  destruct (decide (h = h')) as [->|Hne].
  - by rewrite !fn_lookup_insert.
  - by rewrite !fn_lookup_insert_ne.
Qed.

Lemma Close_other (h h' : loc) (w : World) :
  h <> h' -> w_heap (Close h w) h' = w_heap w h'.
Proof.
  intros Hne. unfold Close. destruct (once (w_heap w h)); [done|].
  unfold close, net_disconnected, set_peer, set_net. simpl.
  by rewrite !fn_lookup_insert_ne.
Qed.

(** After [Close] the once-guard has fired; if it had not fired before,
    the peer is now closed, with its connection and both channels, and the
    Network has been told. *)
Lemma Close_once (h : loc) (w : World) : once (w_heap (Close h w) h) = true.
Proof.
  unfold Close. destruct (once (w_heap w h)) eqn:Ho; [done|].
  unfold close, net_disconnected, set_peer, set_net. simpl.
  by rewrite !fn_lookup_insert.
Qed.

Lemma Close_first (h : loc) (w : World) :
  once (w_heap w h) = false ->
  let p := w_heap (Close h w) h in
  closed p = true /\ conn_closed p = true /\ sender_closed p = true
  /\ tickerCloser_closed p = true
  /\ net_hooks (w_net (Close h w)) = HookDisconnected h :: net_hooks (w_net w).
Proof.
  intros Ho. unfold Close. rewrite Ho.
  unfold close, net_disconnected, set_peer, set_net. simpl.
  by rewrite !fn_lookup_insert.
Qed.

Lemma Close_closed (h : loc) (w : World) :
  (once (w_heap w h) = true -> closed (w_heap w h) = true) ->
  closed (w_heap (Close h w) h) = true.
Proof.
  intros Hwf. destruct (once (w_heap w h)) eqn:Ho.
  - unfold Close. rewrite Ho. by apply Hwf.
  - by apply Close_first.
Qed.

(** The registry after [Close]: only an entry that is the closing peer
    itself goes away. *)
Lemma Close_peers (h : loc) (w : World) :
  net_peers (w_net (Close h w)) =
  if once (w_heap w h) then net_peers (w_net w)
  else if bool_decide (net_peers (w_net w) !! id (w_heap w h) = Some h)
       then delete (id (w_heap w h)) (net_peers (w_net w))
       else net_peers (w_net w).
Proof.
  unfold Close. destruct (once (w_heap w h)); [done|].
  unfold close, net_disconnected, set_peer, set_net. simpl.
  rewrite !fn_lookup_insert. simpl. by case_bool_decide.
Qed.

Lemma Close_peers_unregistered (h : loc) (w : World) :
  net_peers (w_net w) !! id (w_heap w h) <> Some h ->
  net_peers (w_net (Close h w)) = net_peers (w_net w).
Proof.
  intros Hn. rewrite Close_peers. destruct (once (w_heap w h)); [done|].
  by rewrite bool_decide_eq_false_2.
Qed.

(** ** The pending-bytes counters *)

Lemma add_net_revert d w :
  int64_range (net_pendingBytes (w_net w)) ->
  add_net_pendingBytes (wrap64 (- d)) (add_net_pendingBytes d w) = w.
Proof.
  intros Hr. unfold add_net_pendingBytes, set_net, atomic_AddInt64. simpl.
  rewrite wrap64_add_sub by done.
  destruct w as [n hp]; simpl. f_equal. by destruct n.
Qed.

(** A [Send] that returns true adds the length of the message to both
    counters and puts the frame at the back of the queue. *)
Lemma Send_true_counters (msg : Msg) (h : loc) (w : World) :
  fst (Send msg h w) = true ->
  let w' := snd (Send msg h w) in
  net_pendingBytes (w_net w') =
    wrap64 (net_pendingBytes (w_net w) + int64_len (Bytes msg))
  /\ pendingBytes (w_heap w' h) =
    wrap64 (pendingBytes (w_heap w h) + int64_len (Bytes msg))
  /\ sender (w_heap w' h) = sender (w_heap w h) ++ [Bytes msg].
Proof.
  intros Ht. pose proof Ht as Ht'. apply Send_true_iff in Ht' as (Hc & Hp & Hr).
  rewrite Send_eq, Hc, Hp. cbv zeta. rewrite Hr. simpl.
  unfold atomic_AddInt64. by rewrite !fn_lookup_insert.
Qed.

(** A [Send] that returns false leaves the world as it was: the
    speculative addition to the network counter is taken back. *)
Lemma Send_false_unchanged (msg : Msg) (h : loc) (w : World) :
  int64_range (net_pendingBytes (w_net w)) ->
  fst (Send msg h w) = false -> snd (Send msg h w) = w.
Proof.
  intros Hr. rewrite Send_eq.
  destruct (closed (w_heap w h)); simpl; [done|].
  destruct (dropMessagePeer h w); simpl; [done|].
  destruct (sender_has_room (w_heap w h)); simpl; [discriminate|].
  intros _. by apply add_net_revert.
Qed.

(** [Close] touches neither counter nor the queue. *)
Lemma Close_counters (h h' : loc) (w : World) :
  net_pendingBytes (w_net (Close h w)) = net_pendingBytes (w_net w)
  /\ pendingBytes (w_heap (Close h w) h') = pendingBytes (w_heap w h')
  /\ sender (w_heap (Close h w) h') = sender (w_heap w h').
Proof.
  unfold Close. destruct (once (w_heap w h)); [done|].
  unfold close, net_disconnected, set_peer, set_net. simpl.
  split; [by case_bool_decide|].
  destruct (decide (h = h')) as [->|Hne].
  - by rewrite !fn_lookup_insert.
  - by rewrite !fn_lookup_insert_ne.
Qed.

Lemma Close_writer (h h' : loc) (w : World) :
  writer_exited (w_heap (Close h w) h') = writer_exited (w_heap w h').
Proof.
  unfold Close. destruct (once (w_heap w h)); [done|].
  unfold close, net_disconnected, set_peer, set_net. simpl.
  destruct (decide (h = h')) as [->|Hne].
  - by rewrite !fn_lookup_insert.
  - by rewrite !fn_lookup_insert_ne.
Qed.

(** The writer takes the oldest frame off the queue and subtracts its
    length from both counters, before it writes and whether or not the write
    succeeds. *)
Lemma WriteMessages_step_dequeue ok (h : loc) (w : World) msg rest :
  writer_exited (w_heap w h) = false ->
  sender (w_heap w h) = msg :: rest ->
  let w' := WriteMessages_step ok h w in
  net_pendingBytes (w_net w') =
    wrap64 (net_pendingBytes (w_net w) + wrap64 (- int64_len msg))
  /\ pendingBytes (w_heap w' h) =
    wrap64 (pendingBytes (w_heap w h) + wrap64 (- int64_len msg))
  /\ sender (w_heap w' h) = rest.
Proof.
  intros Hx Hs. unfold WriteMessages_step. rewrite Hx, Hs.
  destruct ok; cbv zeta.
  - unfold add_net_pendingBytes, add_pendingBytes, atomic_AddInt64, set_peer, set_net.
    simpl. by rewrite !fn_lookup_insert.
  - destruct (Close_counters h h
      (set_peer h (with_writer_exited true)
         (add_net_pendingBytes (wrap64 (- int64_len msg))
            (add_pendingBytes h (wrap64 (- int64_len msg))
               (set_peer h (with_sender rest) w))))) as (-> & -> & ->).
    unfold add_net_pendingBytes, add_pendingBytes, atomic_AddInt64, set_peer, set_net.
    simpl. by rewrite !fn_lookup_insert.
Qed.

(** Once a peer is closed and its writer has left, no [Send], no writer
    turn and no [Close] changes anything. *)
Lemma act_dead_peer (h : loc) (a : action) (w : World) :
  closed (w_heap w h) = true -> once (w_heap w h) = true ->
  writer_exited (w_heap w h) = true ->
  act h a w = w.
Proof.
  intros Hc Ho Hx. destruct a; simpl.
  - unfold Send. by rewrite Hc.
  - unfold WriteMessages_step. by rewrite Hx.
  - unfold Close. by rewrite Ho.
Qed.

Lemma run_dead_peer (h : loc) (acts : list action) (w : World) :
  closed (w_heap w h) = true -> once (w_heap w h) = true ->
  writer_exited (w_heap w h) = true ->
  run h acts w = w.
Proof.
  intros Hc Ho Hx. unfold run. induction acts as [|a acts IH]; [done|].
  simpl. by rewrite act_dead_peer.
Qed.

(** A failed write strands the rest of the queue: the writer has taken
    one frame off, the peer is closed, and no later [Send], writer turn or
    [Close] changes the world, so the frames behind stay counted. *)
Lemma failed_write_strands_queue (h : loc) (w : World) msg rest
    (acts : list action) :
  writer_exited (w_heap w h) = false ->
  sender (w_heap w h) = msg :: rest ->
  (once (w_heap w h) = true -> closed (w_heap w h) = true) ->
  let w' := WriteMessages_step false h w in
  run h acts w' = w' /\ sender (w_heap w' h) = rest.
Proof.
  intros Hx Hs Hwf w'.
  split; [|by apply (WriteMessages_step_dequeue false h w msg rest)].
  subst w'. unfold WriteMessages_step. rewrite Hx, Hs. cbv zeta.
  match goal with |- context [Close h ?w0] => set (w1 := w0) end.
  assert (Hwf1 : once (w_heap w1 h) = true -> closed (w_heap w1 h) = true).
  { subst w1. unfold add_net_pendingBytes, add_pendingBytes, set_peer, set_net.
    simpl. rewrite !fn_lookup_insert. simpl. exact Hwf. }
  assert (Hx1 : writer_exited (w_heap (Close h w1) h) = true).
  { rewrite Close_writer. subst w1.
    unfold add_net_pendingBytes, add_pendingBytes, set_peer, set_net.
    simpl. by rewrite !fn_lookup_insert. }
  apply run_dead_peer; [by apply Close_closed | apply Close_once | done].
Qed.

(** C2. Two one-byte messages are sent to a fresh peer, and both [Send]s
    return true: each counter stands at 2. The writer takes the first frame
    and its write fails, so it leaves and the peer closes. The second frame
    is still in the queue, each counter stands at 1, and whatever is done
    with the peer afterwards they stay there: the bytes of the second
    message are never subtracted. *)
Theorem Send_bytes_leak_after_failed_write :
  let m1 := ex_msg [x01] in
  let m2 := ex_msg [x02] in
  let w1 := snd (Send m1 0%nat ex_world) in
  let w2 := snd (Send m2 0%nat w1) in
  let w3 := WriteMessages_step false 0%nat w2 in
  fst (Send m1 0%nat ex_world) = true
  /\ fst (Send m2 0%nat w1) = true
  /\ net_pendingBytes (w_net w2) = 2 /\ pendingBytes (w_heap w2 0%nat) = 2
  /\ closed (w_heap w3 0%nat) = true
  /\ writer_exited (w_heap w3 0%nat) = true
  /\ sender (w_heap w3 0%nat) = [[x02]]
  /\ forall acts : list action,
       net_pendingBytes (w_net (run 0%nat acts w3)) = 1
       /\ pendingBytes (w_heap (run 0%nat acts w3) 0%nat) = 1.
Proof.
  cbv zeta.
  do 7 (split; [vm_compute; reflexivity|]).
  intros acts. rewrite run_dead_peer by (vm_compute; reflexivity).
  split; vm_compute; reflexivity.
Qed.

(** ** [tryMarkConnected] *)

(** C5. On a peer that is closed or already connected [tryMarkConnected]
    does nothing: the world it returns is the world it was given, so the
    flags, the registry and the session ids are as before and no hook has
    been called. *)
Theorem tryMarkConnected_noop (h : loc) (w : World) :
  closed (w_heap w h) = true \/ connected (w_heap w h) = true ->
  tryMarkConnected h w = w.
Proof.
  intros Hcc. unfold tryMarkConnected.
  destruct (connected (w_heap w h)) eqn:Hconn; simpl; [done|].
  destruct Hcc as [Hc|?]; [|done]. rewrite Hc.
  by destruct (gotVersion (w_heap w h) && gotPeerList (w_heap w h)).
Qed.

(** It does nothing either while the handshake is incomplete. *)
Lemma tryMarkConnected_incomplete (h : loc) (w : World) :
  gotVersion (w_heap w h) = false \/ gotPeerList (w_heap w h) = false ->
  tryMarkConnected h w = w.
Proof.
  intros [Hg|Hg]; unfold tryMarkConnected; rewrite Hg.
  - by rewrite andb_false_r.
  - by rewrite andb_false_r.
Qed.

Lemma close_old_frame (h h' : loc) (w : World) :
  net_nextSessionID (w_net (close_old h w)) = net_nextSessionID (w_net w)
  /\ id (w_heap (close_old h w) h') = id (w_heap w h')
  /\ incomingSessionID (w_heap (close_old h w) h') = incomingSessionID (w_heap w h').
Proof.
  unfold close_old. destruct (net_peers (w_net w) !! id (w_heap w h)) as [old|]; [|done].
  split; [apply Close_net_frame|]. split; apply Close_peer_frame.
Qed.

Lemma tryMarkConnected_eq (h : loc) (w : World) :
  connected (w_heap w h) = false -> gotVersion (w_heap w h) = true ->
  gotPeerList (w_heap w h) = true -> closed (w_heap w h) = false ->
  let key := id (w_heap w h) in
  let w1 := set_peer h (with_connected true) (close_old h w) in
  tryMarkConnected h w =
  net_connected h
    (set_net (fun n => with_net_peers (<[key := h]> (net_peers n)) n)
      (set_net (fun n =>
         with_net_nextSessionID
           (<[key := next_session (map_get0 (net_nextSessionID (w_net w)) key)
                       (incomingSessionID (w_heap w h))]>
              (net_nextSessionID n)) n) w1)).
Proof.
  intros Hconn Hgv Hgp Hcl key w1. unfold tryMarkConnected.
  rewrite Hconn, Hgv, Hgp, Hcl. cbn [negb andb]. cbv zeta.
  fold (close_old h w). fold key.
  destruct (close_old_frame h h w) as (Hn & Hid & Hinc). fold key in Hid.
  assert (Hid1 : id (w_heap w1 h) = key).
  { subst w1. unfold set_peer. simpl. by rewrite fn_lookup_insert. }
  assert (Hinc1 : incomingSessionID (w_heap w1 h) = incomingSessionID (w_heap w h)).
  { subst w1. unfold set_peer. simpl. by rewrite fn_lookup_insert. }
  assert (Hn1 : net_nextSessionID (w_net w1) = net_nextSessionID (w_net w)) by done.
  fold w1. rewrite Hinc1, Hn1.
  unfold net_connected. f_equal.
  destruct (Z.gtb_spec (incomingSessionID (w_heap w h))
              (map_get0 (net_nextSessionID (w_net w)) key)) as [Hgt|Hle].
  - unfold set_net. cbn [w_net w_heap net_peers net_nextSessionID
      with_net_peers with_net_nextSessionID net_hooks].
    rewrite Hid1, Hn1. unfold map_get0 at 1. rewrite lookup_insert_eq. cbn [default].
    rewrite insert_insert_eq. unfold next_session.
    by rewrite Z.max_r by lia.
  - unfold set_net. cbn [w_net w_heap net_peers net_nextSessionID
      with_net_peers with_net_nextSessionID net_hooks].
    rewrite Hid1, Hn1. unfold next_session.
    by rewrite Z.max_l by lia.
Qed.

(** What [tryMarkConnected] does to the registry when it marks a peer
    connected. *)
Lemma tryMarkConnected_effect (h : loc) (w : World) :
  connected (w_heap w h) = false -> gotVersion (w_heap w h) = true ->
  gotPeerList (w_heap w h) = true -> closed (w_heap w h) = false ->
  let key := id (w_heap w h) in
  let w' := tryMarkConnected h w in
  map_get0 (net_nextSessionID (w_net w')) key =
    wrap32 (Z.max (map_get0 (net_nextSessionID (w_net w)) key)
                  (incomingSessionID (w_heap w h)) + 1)
  /\ net_peers (w_net w') !! key = Some h
  /\ connected (w_heap w' h) = true
  /\ incomingSessionID (w_heap w' h) = incomingSessionID (w_heap w h)
  /\ forall old, net_peers (w_net w) !! key = Some old ->
       once (w_heap w' old) = true.
Proof.
  intros Hconn Hgv Hgp Hcl key w'. subst w'.
  rewrite tryMarkConnected_eq by done. fold key.
  unfold net_connected, set_net, set_peer.
  cbn [w_net w_heap net_peers net_nextSessionID net_hooks
       with_net_peers with_net_nextSessionID with_net_hooks].
  split.
  { unfold map_get0 at 1. by rewrite lookup_insert_eq. }
  split; [by rewrite lookup_insert_eq|].
  split; [by rewrite fn_lookup_insert|].
  split.
  { rewrite fn_lookup_insert. simpl.
    by destruct (close_old_frame h h w) as (_ & _ & ->). }
  intros old Hold.
  assert (Hco : close_old h w = Close old w).
  { unfold close_old. fold key. by rewrite Hold. }
  rewrite Hco. destruct (decide (h = old)) as [<-|Hne].
  - rewrite fn_lookup_insert. apply Close_once.
  - rewrite fn_lookup_insert_ne by done. apply Close_once.
Qed.


(** C4 (as the code has it). When [tryMarkConnected] marks a peer
    connected (not connected, version and peer list received, not closed),
    the next session id of the peer's id becomes the larger of the previous
    one and the incoming one, plus one, in [uint32] arithmetic (wrapping to
    0); the registry holds this peer under its id; a peer registered there
    before has had [Close] called first; and the last thing done is the
    call of the Network's connected hook. *)
Theorem tryMarkConnected_marks (h : loc) (w : World) :
  connected (w_heap w h) = false -> gotVersion (w_heap w h) = true ->
  gotPeerList (w_heap w h) = true -> closed (w_heap w h) = false ->
  let key := id (w_heap w h) in
  let w' := tryMarkConnected h w in
  map_get0 (net_nextSessionID (w_net w')) key =
    wrap32 (Z.max (map_get0 (net_nextSessionID (w_net w)) key)
                  (incomingSessionID (w_heap w h)) + 1)
  /\ net_peers (w_net w') !! key = Some h
  /\ connected (w_heap w' h) = true
  /\ net_hooks (w_net w') = HookConnected h :: net_hooks (w_net (close_old h w))
  /\ forall old, net_peers (w_net w) !! key = Some old ->
       close_old h w = Close old w
       /\ once (w_heap w' old) = true
       /\ (once (w_heap w old) = false ->
           closed (w_heap w' old) = true
           /\ net_hooks (w_net w') =
              HookConnected h :: HookDisconnected old :: net_hooks (w_net w)).
Proof.
  intros Hconn Hgv Hgp Hcl key w'. subst w'.
  rewrite tryMarkConnected_eq by done. fold key.
  unfold net_connected, set_net, set_peer.
  cbn [w_net w_heap net_peers net_nextSessionID net_hooks
       with_net_peers with_net_nextSessionID with_net_hooks].
  split.
  { unfold map_get0 at 1. by rewrite lookup_insert_eq. }
  split; [by rewrite lookup_insert_eq|].
  split; [by rewrite fn_lookup_insert|].
  split; [done|].
  intros old Hold.
  assert (Hco : close_old h w = Close old w).
  { unfold close_old. fold key. by rewrite Hold. }
  split; [done|]. rewrite Hco.
  destruct (decide (h = old)) as [<-|Hne].
  - rewrite fn_lookup_insert. split; [apply Close_once|].
    intros Ho. destruct (Close_first h w Ho) as (Hc & _ & _ & _ & Hh).
    split; [done | by rewrite Hh].
  - rewrite fn_lookup_insert_ne by done. split; [apply Close_once|].
    intros Ho. destruct (Close_first old w Ho) as (Hc & _ & _ & _ & Hh).
    split; [done | by rewrite Hh].
Qed.

(** ** IP hygiene *)

(** The world [Close] is called on inside [discardIP] and [discardMyIP]
    differs from the given one in the stored IP and in the two sets of
    addresses only. *)
Lemma discardIP_eq (h : loc) (w : World) :
  discardIP h w =
  Close h
    (if IPDesc_IsZero (ip (w_heap w h)) then w
     else set_net (fun n =>
            with_net_disconnectedIPs
              (net_disconnectedIPs n ∖ {[IPDesc_String (ip (w_heap w h))]}) n)
            (setIP h IPDesc_zero w)).
Proof. unfold discardIP, getIP. by destruct (IPDesc_IsZero _). Qed.

Lemma discardMyIP_eq (h : loc) (w : World) :
  discardMyIP h w =
  Close h
    (if IPDesc_IsZero (ip (w_heap w h)) then w
     else set_net (fun n =>
            with_net_disconnectedIPs
              (net_disconnectedIPs n ∖ {[IPDesc_String (ip (w_heap w h))]}) n)
            (set_net (fun n =>
               with_net_myIPs ({[IPDesc_String (ip (w_heap w h))]} ∪ net_myIPs n) n)
               (setIP h IPDesc_zero w))).
Proof. unfold discardMyIP, getIP. by destruct (IPDesc_IsZero _). Qed.

(** What a discard, of either kind, does to the peer and to the registry:
    the peer ends up closed, it is not marked as having a version, and the
    registry keeps its entries when the peer was not in it. *)
Lemma discard_closes (myIP : bool) (h : loc) (w : World) :
  (once (w_heap w h) = true -> closed (w_heap w h) = true) ->
  let w' := if myIP then discardMyIP h w else discardIP h w in
  closed (w_heap w' h) = true
  /\ once (w_heap w' h) = true
  /\ gotVersion (w_heap w' h) = gotVersion (w_heap w h)
  /\ connected (w_heap w' h) = connected (w_heap w h)
  /\ net_nextSessionID (w_net w') = net_nextSessionID (w_net w)
  /\ (net_peers (w_net w) !! id (w_heap w h) <> Some h ->
      net_peers (w_net w') = net_peers (w_net w)).
Proof.
  intros Hwf.
  destruct myIP; [rewrite discardMyIP_eq | rewrite discardIP_eq]; cbv zeta;
    destruct (IPDesc_IsZero (ip (w_heap w h)));
    (split; [apply Close_closed; first
       [ done
       | unfold setIP, set_net, set_peer; simpl; by rewrite fn_lookup_insert ]|]);
    (split; [apply Close_once|]);
    match goal with
    | |- context [Close h ?w0] =>
        destruct (Close_peer_frame h h w0) as (Hid & _ & _ & Hgv & _ & Hco);
        destruct (Close_net_frame h w0) as (Hn & _ & _);
        pose proof (Close_peers_unregistered h w0) as Hp
    end;
    rewrite Hgv, Hco, Hn;
    unfold setIP, set_net, set_peer in *; simpl in *;
    rewrite ?fn_lookup_insert in *; simpl in *; auto.
Qed.

(** [discardIP] clears a known IP and takes it off the list of addresses
    to dial again; it leaves [myIPs] alone. *)
Lemma discardIP_sets (h : loc) (w : World) :
  let w' := discardIP h w in
  net_myIPs (w_net w') = net_myIPs (w_net w)
  /\ (IPDesc_IsZero (ip (w_heap w h)) = false ->
      ip (w_heap w' h) = IPDesc_zero
      /\ net_disconnectedIPs (w_net w') =
         net_disconnectedIPs (w_net w) ∖ {[IPDesc_String (ip (w_heap w h))]}).
Proof.
  cbv zeta. rewrite discardIP_eq.
  destruct (IPDesc_IsZero (ip (w_heap w h))).
  - split; [apply Close_net_frame | discriminate].
  - match goal with
    | |- context [Close h ?w0] =>
        destruct (Close_peer_frame h h w0) as (_ & _ & Hip & _);
        destruct (Close_net_frame h w0) as (_ & Hm & Hd)
    end.
    rewrite Hm, Hd, Hip. unfold setIP, set_net, set_peer. simpl.
    by rewrite fn_lookup_insert.
Qed.

(** [discardMyIP] does the same and puts the address into [myIPs]. *)
Lemma discardMyIP_sets (h : loc) (w : World) :
  IPDesc_IsZero (ip (w_heap w h)) = false ->
  let w' := discardMyIP h w in
  ip (w_heap w' h) = IPDesc_zero
  /\ net_myIPs (w_net w') = {[IPDesc_String (ip (w_heap w h))]} ∪ net_myIPs (w_net w)
  /\ net_disconnectedIPs (w_net w') =
     net_disconnectedIPs (w_net w) ∖ {[IPDesc_String (ip (w_heap w h))]}.
Proof.
  intros Hz. cbv zeta. rewrite discardMyIP_eq, Hz.
  match goal with
  | |- context [Close h ?w0] =>
      destruct (Close_peer_frame h h w0) as (_ & _ & Hip & _);
      destruct (Close_net_frame h w0) as (_ & Hm & Hd)
  end.
  rewrite Hm, Hd, Hip. unfold setIP, set_net, set_peer. simpl.
  by rewrite fn_lookup_insert.
Qed.

(** *** The lock in the discards *)

(** A step that does not touch the lock, followed by the rest. *)
Lemma lift_bind {A B : Type} (a : A) (k : A -> locking B) (l : RWMutex) :
  (lift (Some a) ≫= k) l = k a l.
Proof. reflexivity. Qed.

Lemma mret_bind {A B : Type} (a : A) (k : A -> locking B) (l : RWMutex) :
  (mret a ≫= k) l = k a l.
Proof. reflexivity. Qed.

(** From a free lock the discards take it and give it back, and do what
    the functions on worlds say. *)
Lemma locked_discardIP_free (h : loc) (w : World) :
  locked.discardIP h w rw_free = Done (discardIP h w) rw_free.
Proof.
  unfold locked.discardIP, discardIP.
  by destruct (IPDesc_IsZero (getIP h w)).
Qed.

Lemma locked_discardMyIP_free (h : loc) (w : World) :
  locked.discardMyIP h w rw_free = Done (discardMyIP h w) rw_free.
Proof.
  unfold locked.discardMyIP, discardMyIP.
  by destruct (IPDesc_IsZero (getIP h w)).
Qed.

(** Whatever the lock, a discard that returns has done what the function
    on worlds says. *)
Lemma locked_discardIP_Done (h : loc) (w w' : World) (l l' : RWMutex) :
  locked.discardIP h w l = Done w' l' -> w' = discardIP h w.
Proof.
  unfold locked.discardIP, discardIP.
  destruct (IPDesc_IsZero (getIP h w)); cbn [negb].
  - by intros [= <- _].
  - unfold mbind, locking_bind, rw_Lock, rw_Unlock, mret, locking_ret.
    destruct (rw_writer l || negb (rw_readers l =? 0)%nat); [done|].
    simpl. by intros [= <- _].
Qed.

Lemma locked_discardMyIP_Done (h : loc) (w w' : World) (l l' : RWMutex) :
  locked.discardMyIP h w l = Done w' l' -> w' = discardMyIP h w.
Proof.
  unfold locked.discardMyIP, discardMyIP.
  destruct (IPDesc_IsZero (getIP h w)); cbn [negb].
  - by intros [= <- _].
  - unfold mbind, locking_bind, rw_Lock, rw_Unlock, mret, locking_ret.
    destruct (rw_writer l || negb (rw_readers l =? 0)%nat); [done|].
    simpl. by intros [= <- _].
Qed.

(** *** The registry holds peers that have their version *)

Lemma registered_have_version_empty (w : World) :
  net_peers (w_net w) = ∅ -> registered_have_version w.
Proof. intros He key h. by rewrite He, lookup_empty. Qed.

(** A step that keeps or removes entries of the registry and lowers no
    [gotVersion] keeps the invariant. *)
Lemma registered_have_version_step (w w' : World) :
  registered_have_version w ->
  (forall key h, net_peers (w_net w') !! key = Some h ->
     net_peers (w_net w) !! key = Some h \/ gotVersion (w_heap w' h) = true) ->
  (forall h, gotVersion (w_heap w h) = true -> gotVersion (w_heap w' h) = true) ->
  registered_have_version w'.
Proof.
  intros Hinv Hreg Hgv key h Hk.
  destruct (Hreg key h Hk) as [Hold|Hnew]; [|done]. by apply Hgv, (Hinv key).
Qed.

Lemma Close_registered (h : loc) (w : World) :
  registered_have_version w -> registered_have_version (Close h w).
Proof.
  intros Hinv. apply (registered_have_version_step w); [done| |].
  - intros key h' Hk. left. rewrite Close_peers in Hk.
    destruct (once (w_heap w h)); [done|]. case_bool_decide; [|done].
    by apply lookup_delete_Some in Hk as (_ & ?).
  - intros h' Hg. by destruct (Close_peer_frame h h' w) as (_ & _ & _ & -> & _).
Qed.

(** A field of a peer other than [gotVersion], or [gotVersion] set. *)
Lemma set_peer_registered (f : peer -> peer) (h : loc) (w : World) :
  (forall p, gotVersion p = true -> gotVersion (f p) = true) ->
  registered_have_version w -> registered_have_version (set_peer h f w).
Proof.
  intros Hf Hinv. apply (registered_have_version_step w); [done|by left|].
  intros h' Hg. unfold set_peer. simpl.
  destruct (decide (h' = h)) as [->|Hne].
  - rewrite fn_lookup_insert. by apply Hf.
  - by rewrite fn_lookup_insert_ne.
Qed.

(** A field of the Network other than the registry. *)
Lemma set_net_registered (f : network -> network) (w : World) :
  (forall n, net_peers (f n) = net_peers n) ->
  registered_have_version w -> registered_have_version (set_net f w).
Proof.
  intros Hf Hinv key h Hk. unfold set_net in *. simpl in *.
  rewrite Hf in Hk. by apply (Hinv key).
Qed.

Lemma discard_registered (myIP : bool) (h : loc) (w : World) :
  registered_have_version w ->
  registered_have_version (if myIP then discardMyIP h w else discardIP h w).
Proof.
  intros Hinv.
  destruct myIP; [rewrite discardMyIP_eq | rewrite discardIP_eq];
    apply Close_registered;
    destruct (IPDesc_IsZero (ip (w_heap w h))); try done;
    repeat (apply set_net_registered; [done|]);
    by apply set_peer_registered.
Qed.

(** [tryMarkConnected] registers a peer only when it has its version. *)
Lemma tryMarkConnected_registered (h : loc) (w : World) :
  registered_have_version w -> registered_have_version (tryMarkConnected h w).
Proof.
  intros Hinv. unfold tryMarkConnected.
  destruct (negb (connected (w_heap w h)) && gotVersion (w_heap w h)
            && gotPeerList (w_heap w h)) eqn:Hcond; [|done].
  destruct (closed (w_heap w h)); [done|].
  apply andb_prop in Hcond as (Hcond & _). apply andb_prop in Hcond as (_ & Hgv).
  unfold net_connected.
  assert (Hco : registered_have_version (close_old h w)
                /\ gotVersion (w_heap (close_old h w) h) = true).
  { unfold close_old. destruct (net_peers (w_net w) !! id (w_heap w h)) as [old|].
    - split; [by apply Close_registered|].
      by destruct (Close_peer_frame old h w) as (_ & _ & _ & -> & _).
    - done. }
  destruct Hco as (Hinv1 & Hgv1). fold (close_old h w).
  set (w1 := set_peer h (with_connected true) (close_old h w)).
  assert (Hinv2 : registered_have_version w1) by by apply set_peer_registered.
  assert (Hgv2 : gotVersion (w_heap w1 h) = true).
  { subst w1. unfold set_peer. simpl. by rewrite fn_lookup_insert. }
  set (w2 := if incomingSessionID (w_heap w1 h) >? _ then _ else w1).
  assert (Hinv3 : registered_have_version w2 /\ w_heap w2 = w_heap w1).
  { subst w2. destruct (_ >? _); [|done].
    split; [by apply set_net_registered|done]. }
  destruct Hinv3 as (Hinv3 & Hh3).
  apply set_net_registered; [done|].
  intros key h' Hk. unfold set_net in Hk. simpl in Hk.
  unfold set_net. simpl. rewrite Hh3.
  destruct (decide (key = id (w_heap w h))) as [->|Hne].
  - rewrite lookup_insert_eq in Hk. injection Hk as <-. done.
  - rewrite lookup_insert_ne in Hk by done.
    rewrite <- Hh3. by apply (Hinv3 key).
Qed.

(** ** The [Version] handler *)

(** C10. A [Version] message that arrives at a peer whose [gotVersion] is
    set is ignored: the handler returns the world it was given, with the
    version, the session id, the IP, the flags and the registry as they
    were and the connection as open as it was. *)
Theorem version_duplicate_ignored (msg : Msg) (h : loc) (w : World) :
  gotVersion (w_heap w h) = true -> version msg h w = Some w.
Proof. intros Hg. unfold version. by rewrite Hg. Qed.

(** C7 (as the code has it). A [Version] message that arrives at a peer
    which has no version yet is rejected when its network id is not ours,
    when its node id is ours, or when the comparison of the clocks, made in
    [float64], finds them further apart than [maxClockDifference], beacon
    or not: the peer is closed, it is not marked as having a version, the
    registry stays as it was, and this peer is nowhere in it, since every
    peer in the registry has its version. The discard is [discardMyIP]
    when the network id is ours and the node id is ours too, and then a
    known IP of the peer is in [myIPs] afterwards; in every other case it
    is [discardIP]. With the state lock free when the message comes, the
    lock is free again afterwards. *)
Theorem version_rejects (msg : Msg) (h : loc) (w : World)
    (networkID nodeID peerTime : Z) :
  gotVersion (w_heap w h) = false ->
  as_uint32 (Get msg Field.NetworkID) = Some networkID ->
  as_uint32 (Get msg Field.NodeID) = Some nodeID ->
  as_uint64 (Get msg Field.MyTime) = Some peerTime ->
  (once (w_heap w h) = true -> closed (w_heap w h) = true) ->
  registered_have_version w ->
  networkID <> net_networkID (w_net w)
  \/ nodeID = net_nodeID (w_net w)
  \/ clock_out_of_sync peerTime (net_clock (w_net w))
       (net_maxClockDifference (w_net w)) = true ->
  exists w',
    version msg h w = Some w'
    /\ locked.version msg h w rw_free = Done w' rw_free
    /\ w' = (if bool_decide (networkID = net_networkID (w_net w)
                             /\ nodeID = net_nodeID (w_net w))
             then discardMyIP h w else discardIP h w)
    /\ closed (w_heap w' h) = true
    /\ gotVersion (w_heap w' h) = false
    /\ net_peers (w_net w') = net_peers (w_net w)
    /\ (forall key, net_peers (w_net w') !! key <> Some h)
    /\ registered_have_version w'
    /\ (networkID = net_networkID (w_net w) -> nodeID = net_nodeID (w_net w) ->
        IPDesc_IsZero (ip (w_heap w h)) = false ->
        IPDesc_String (ip (w_heap w h)) ∈ net_myIPs (w_net w')).
Proof.
  intros Hg Hnet Hnode Htime Hwf Hinv Hbad.
  assert (Hnowhere : forall key, net_peers (w_net w) !! key <> Some h).
  { intros key Hk. apply Hinv in Hk. congruence. }
  pose proof (Hnowhere (id (w_heap w h))) as Hreg.
  pose proof (discard_closes true h w Hwf) as (Hc1 & _ & Hg1 & _ & _ & Hp1).
  pose proof (discard_closes false h w Hwf) as (Hc0 & _ & Hg0 & _ & _ & Hp0).
  pose proof (discard_registered true h w Hinv) as Hi1.
  pose proof (discard_registered false h w Hinv) as Hi0.
  cbv zeta in *. specialize (Hp1 Hreg). specialize (Hp0 Hreg).
  assert (HIP : exists w',
            version msg h w = Some w'
            /\ locked.version msg h w rw_free = Done w' rw_free
            /\ w' = (if bool_decide (networkID = net_networkID (w_net w)
                                     /\ nodeID = net_nodeID (w_net w))
                     then discardMyIP h w else discardIP h w)).
  { unfold version, locked.version. rewrite Hg, Hnet. rewrite lift_bind.
    cbn [mbind option_bind].
    destruct (Z.eqb_spec networkID (net_networkID (w_net w))) as [En|En]; cbn [negb].
    2:{ exists (discardIP h w). rewrite bool_decide_eq_false_2 by tauto.
        by rewrite locked_discardIP_free. }
    rewrite Hnode. rewrite lift_bind. cbn [mbind option_bind].
    destruct (Z.eqb_spec nodeID (net_nodeID (w_net w))) as [Ed|Ed].
    { exists (discardMyIP h w). rewrite bool_decide_eq_true_2 by tauto.
      by rewrite locked_discardMyIP_free. }
    rewrite Htime. rewrite lift_bind. cbn [mbind option_bind].
    destruct Hbad as [?|[?|Hclk]]; [done|done|]. rewrite Hclk.
    exists (discardIP h w). rewrite bool_decide_eq_false_2 by tauto.
    by rewrite locked_discardIP_free. }
  destruct HIP as (w' & Hv & Hl & Hw'). exists w'.
  split; [done|]. split; [done|]. split; [done|]. subst w'.
  case_bool_decide as Hboth.
  - rewrite Hp1. do 5 (split; [done || congruence|]).
    intros _ _ Hz. destruct (discardMyIP_sets h w Hz) as (_ & -> & _).
    apply elem_of_union_l. by apply elem_of_singleton.
  - rewrite Hp0. do 5 (split; [done || congruence|]). tauto.
Qed.

(** *** What sending leaves alone *)

Lemma same_handshake_refl p : same_handshake p p.
Proof. by unfold same_handshake. Qed.

Lemma same_registry_refl w : same_registry w w.
Proof. by unfold same_registry. Qed.

Lemma Send_frame (msg : Msg) (h : loc) (w : World) :
  let w' := snd (Send msg h w) in
  same_registry w w'
  /\ same_handshake (w_heap w h) (w_heap w' h)
  /\ ip (w_heap w' h) = ip (w_heap w h)
  /\ forall h', h' <> h -> w_heap w' h' = w_heap w h'.
Proof.
  cbv zeta. rewrite Send_eq.
  destruct (closed (w_heap w h));
    [by split; [apply same_registry_refl | split; [apply same_handshake_refl|]]|].
  destruct (dropMessagePeer h w);
    [by split; [apply same_registry_refl | split; [apply same_handshake_refl|]]|].
  cbv zeta. destruct (sender_has_room (w_heap w h)); simpl.
  - unfold same_registry, same_handshake. simpl.
    rewrite !fn_lookup_insert. simpl. repeat split; try done.
    intros h' Hne. by rewrite !fn_lookup_insert_ne.
  - by split; [| split; [apply same_handshake_refl|]].
Qed.

Lemma SendPeerList_frame (h : loc) (w : World) :
  let w' := SendPeerList h w in
  same_registry w w'
  /\ same_handshake (w_heap w h) (w_heap w' h)
  /\ ip (w_heap w' h) = ip (w_heap w h)
  /\ forall h', h' <> h -> w_heap w' h' = w_heap w h'.
Proof.
  cbv zeta. unfold SendPeerList, PeerList.
  destruct (b_PeerList (validatorIPs (w_net w))) as [msg|]; [apply Send_frame|].
  by split; [apply same_registry_refl | split; [apply same_handshake_refl|]].
Qed.

Lemma Send_registered (msg : Msg) (h : loc) (w : World) :
  registered_have_version w -> registered_have_version (snd (Send msg h w)).
Proof.
  intros Hinv. pose proof (Send_frame msg h w) as Hf. cbv zeta in Hf.
  destruct Hf as ((Hp & _) & (_ & Hg & _) & _ & Ho).
  apply (registered_have_version_step w); [done| |].
  - intros key h' Hk. left. by rewrite Hp in Hk.
  - intros h' Hg'. destruct (decide (h' = h)) as [->|Hne]; [congruence|].
    by rewrite Ho.
Qed.

Lemma SendPeerList_registered (h : loc) (w : World) :
  registered_have_version w -> registered_have_version (SendPeerList h w).
Proof.
  intros Hinv. unfold SendPeerList, PeerList.
  destruct (b_PeerList (validatorIPs (w_net w))); [by apply Send_registered|done].
Qed.

(** A message that has passed the checks is accepted: the peer has the
    version and the session id of the message, the registry has not been
    touched yet, and [tryMarkConnected] is called on that world. *)
Lemma version_accept_some (msg : Msg) (peerVersion : Ver) (s : Z)
    (h : loc) (w : World) :
  is_Some (as_IPDesc (Get msg Field.IP)) ->
  exists w1,
    version_accept msg peerVersion s h w = Some (tryMarkConnected h w1)
    /\ same_registry w w1
    /\ gotVersion (w_heap w1 h) = true
    /\ incomingSessionID (w_heap w1 h) = s
    /\ versionStruct (w_heap w1 h) = Some peerVersion
    /\ id (w_heap w1 h) = id (w_heap w h)
    /\ gotPeerList (w_heap w1 h) = gotPeerList (w_heap w h)
    /\ connected (w_heap w1 h) = connected (w_heap w h)
    /\ closed (w_heap w1 h) = closed (w_heap w h)
    /\ forall h', h' <> h -> w_heap w1 h' = w_heap w h'.
Proof.
  intros [peerIP HIP]. unfold version_accept. rewrite HIP. cbn [mbind option_bind].
  set (o := if IPDesc_IsZero (ip (w_heap w h)) then _ else _).
  assert (exists w0, o = Some w0 /\ same_registry w w0
            /\ same_handshake (w_heap w h) (w_heap w0 h)
            /\ forall h', h' <> h -> w_heap w0 h' = w_heap w h')
    as (w0 & -> & Hr0 & Hh0 & Ho0).
  { subst o.
    assert (Hset : same_registry w (setIP h peerIP w)
              /\ same_handshake (w_heap w h) (w_heap (setIP h peerIP w) h)
              /\ forall h', h' <> h -> w_heap (setIP h peerIP w) h' = w_heap w h').
    { unfold setIP, set_peer, same_registry, same_handshake. simpl.
      rewrite fn_lookup_insert. repeat split; try done.
      intros h' Hne. by rewrite fn_lookup_insert_ne. }
    assert (Hid : same_registry w w
              /\ same_handshake (w_heap w h) (w_heap w h)
              /\ forall h', h' <> h -> w_heap w h' = w_heap w h').
    { by split; [apply same_registry_refl | split; [apply same_handshake_refl|]]. }
    destruct (IPDesc_IsZero (ip (w_heap w h))); [|by exists w].
    destruct (conn_RemoteAddr (w_heap w h)) as [localPeerIP|]; [|by exists w].
    destruct (IP_Equal (IP peerIP) (IP localPeerIP));
      [by exists (setIP h peerIP w) | by exists w]. }
  cbn [mbind option_bind]. cbv zeta.
  destruct (SendPeerList_frame h w0) as (Hr1 & Hh1 & _ & Ho1). cbv zeta in *.
  eexists. split; [reflexivity|].
  unfold same_registry, same_handshake, set_peer in *. simpl.
  rewrite !fn_lookup_insert. simpl.
  destruct Hr0 as (? & ? & ?), Hr1 as (? & ? & ?).
  destruct Hh0 as (? & ? & ? & ? & ? & ? & ?), Hh1 as (? & ? & ? & ? & ? & ? & ?).
  repeat split; try congruence.
  intros h' Hne. rewrite !fn_lookup_insert_ne by done.
  rewrite Ho1, Ho0 by done. done.
Qed.

(** The same with the lock: the world handed to [tryMarkConnected] is the
    same one. *)
Lemma locked_version_accept_some (msg : Msg) (peerVersion : Ver) (s : Z)
    (h : loc) (w : World) :
  is_Some (as_IPDesc (Get msg Field.IP)) ->
  exists w1,
    version_accept msg peerVersion s h w = Some (tryMarkConnected h w1)
    /\ (forall l, locked.version_accept msg peerVersion s h w l
                  = locked.tryMarkConnected h w1 l)
    /\ same_registry w w1
    /\ gotVersion (w_heap w1 h) = true
    /\ incomingSessionID (w_heap w1 h) = s
    /\ versionStruct (w_heap w1 h) = Some peerVersion
    /\ id (w_heap w1 h) = id (w_heap w h)
    /\ gotPeerList (w_heap w1 h) = gotPeerList (w_heap w h)
    /\ connected (w_heap w1 h) = connected (w_heap w h)
    /\ closed (w_heap w1 h) = closed (w_heap w h)
    /\ forall h', h' <> h -> w_heap w1 h' = w_heap w h'.
Proof.
  intros [peerIP HIP]. unfold version_accept, locked.version_accept.
  rewrite HIP. cbn [mbind option_bind].
  set (o := if IPDesc_IsZero (ip (w_heap w h)) then _ else _).
  assert (exists w0, o = Some w0 /\ same_registry w w0
            /\ same_handshake (w_heap w h) (w_heap w0 h)
            /\ forall h', h' <> h -> w_heap w0 h' = w_heap w h')
    as (w0 & -> & Hr0 & Hh0 & Ho0).
  { subst o.
    assert (Hset : same_registry w (setIP h peerIP w)
              /\ same_handshake (w_heap w h) (w_heap (setIP h peerIP w) h)
              /\ forall h', h' <> h -> w_heap (setIP h peerIP w) h' = w_heap w h').
    { unfold setIP, set_peer, same_registry, same_handshake. simpl.
      rewrite fn_lookup_insert. repeat split; try done.
      intros h' Hne. by rewrite fn_lookup_insert_ne. }
    assert (Hid : same_registry w w
              /\ same_handshake (w_heap w h) (w_heap w h)
              /\ forall h', h' <> h -> w_heap w h' = w_heap w h').
    { by split; [apply same_registry_refl | split; [apply same_handshake_refl|]]. }
    destruct (IPDesc_IsZero (ip (w_heap w h))); [|by exists w].
    destruct (conn_RemoteAddr (w_heap w h)) as [localPeerIP|]; [|by exists w].
    destruct (IP_Equal (IP peerIP) (IP localPeerIP));
      [by exists (setIP h peerIP w) | by exists w]. }
  cbn [mbind option_bind]. cbv zeta.
  destruct (SendPeerList_frame h w0) as (Hr1 & Hh1 & _ & Ho1). cbv zeta in *.
  eexists. split; [reflexivity|]. split; [intros l; reflexivity|].
  unfold same_registry, same_handshake, set_peer in *. simpl.
  rewrite !fn_lookup_insert. simpl.
  destruct Hr0 as (? & ? & ?), Hr1 as (? & ? & ?).
  destruct Hh0 as (? & ? & ? & ? & ? & ? & ?), Hh1 as (? & ? & ? & ? & ? & ? & ?).
  repeat split; try congruence.
  intros h' Hne. rewrite !fn_lookup_insert_ne by done.
  rewrite Ho1, Ho0 by done. done.
Qed.

(** A first [Version] message whose network id, node id, clock and version
    are in order reaches the arbitration by session id. *)
Lemma version_arbitrates (msg : Msg) (h : loc) (w : World)
    (networkID nodeID peerTime s : Z) (verStr : string) (peerVersion : Ver) :
  gotVersion (w_heap w h) = false ->
  as_uint32 (Get msg Field.NetworkID) = Some networkID ->
  as_uint32 (Get msg Field.NodeID) = Some nodeID ->
  as_uint64 (Get msg Field.MyTime) = Some peerTime ->
  as_string (Get msg Field.VersionStr) = Some verStr ->
  as_uint32 (Get msg Field.SessionID) = Some s ->
  networkID = net_networkID (w_net w) ->
  nodeID <> net_nodeID (w_net w) ->
  clock_out_of_sync peerTime (net_clock (w_net w))
    (net_maxClockDifference (w_net w)) = false ->
  parser_Parse verStr = Some peerVersion ->
  version_Compatible (net_version (w_net w)) peerVersion = true
    \/ id (w_heap w h) ∈ net_beacons (w_net w) ->
  version msg h w =
  if bool_decide (is_Some (net_peers (w_net w) !! id (w_heap w h)))
     && negb (s =? 0)
     && (s <? map_get0 (net_nextSessionID (w_net w)) (id (w_heap w h)))
  then Some (discardIP h w)
  else version_accept msg peerVersion s h w.
Proof.
  intros Hg Hnet Hnode Htime Hstr Hses En Ed Hclk Hparse Hcompat.
  unfold version. rewrite Hg, Hnet. cbn [mbind option_bind].
  rewrite (proj2 (Z.eqb_eq _ _) En). cbn [negb].
  rewrite Hnode. cbn [mbind option_bind].
  rewrite (proj2 (Z.eqb_neq _ _) Ed).
  rewrite Htime. cbn [mbind option_bind]. rewrite Hclk.
  rewrite Hstr. cbn [mbind option_bind]. rewrite Hparse.
  assert (negb (version_Compatible (net_version (w_net w)) peerVersion)
          && negb (bool_decide (id (w_heap w h) ∈ net_beacons (w_net w))) = false)
    as ->.
  { destruct Hcompat as [->|Hb]; [done|].
    rewrite (bool_decide_eq_true_2 _ Hb). apply andb_false_r. }
  rewrite Hses. reflexivity.
Qed.

(** The same with the lock: from a free lock the handler takes it to read
    the session id and the registry and has released it when it
    arbitrates. *)
Lemma locked_version_arbitrates (msg : Msg) (h : loc) (w : World)
    (networkID nodeID peerTime s : Z) (verStr : string) (peerVersion : Ver) :
  gotVersion (w_heap w h) = false ->
  as_uint32 (Get msg Field.NetworkID) = Some networkID ->
  as_uint32 (Get msg Field.NodeID) = Some nodeID ->
  as_uint64 (Get msg Field.MyTime) = Some peerTime ->
  as_string (Get msg Field.VersionStr) = Some verStr ->
  as_uint32 (Get msg Field.SessionID) = Some s ->
  networkID = net_networkID (w_net w) ->
  nodeID <> net_nodeID (w_net w) ->
  clock_out_of_sync peerTime (net_clock (w_net w))
    (net_maxClockDifference (w_net w)) = false ->
  parser_Parse verStr = Some peerVersion ->
  version_Compatible (net_version (w_net w)) peerVersion = true
    \/ id (w_heap w h) ∈ net_beacons (w_net w) ->
  locked.version msg h w rw_free =
  if bool_decide (is_Some (net_peers (w_net w) !! id (w_heap w h)))
     && negb (s =? 0)
     && (s <? map_get0 (net_nextSessionID (w_net w)) (id (w_heap w h)))
  then locked.discardIP h w rw_free
  else locked.version_accept msg peerVersion s h w rw_free.
Proof.
  intros Hg Hnet Hnode Htime Hstr Hses En Ed Hclk Hparse Hcompat.
  unfold locked.version. rewrite Hg, Hnet. rewrite lift_bind.
  rewrite (proj2 (Z.eqb_eq _ _) En). cbn [negb].
  rewrite Hnode. rewrite lift_bind.
  rewrite (proj2 (Z.eqb_neq _ _) Ed).
  rewrite Htime. rewrite lift_bind. rewrite Hclk.
  rewrite Hstr. rewrite lift_bind. rewrite Hparse.
  assert (negb (version_Compatible (net_version (w_net w)) peerVersion)
          && negb (bool_decide (id (w_heap w h) ∈ net_beacons (w_net w))) = false)
    as ->.
  { destruct Hcompat as [->|Hb]; [done|].
    rewrite (bool_decide_eq_true_2 _ Hb). apply andb_false_r. }
  rewrite Hses. rewrite lift_bind.
  by destruct (bool_decide (is_Some (net_peers (w_net w) !! id (w_heap w h)))
               && negb (s =? 0)
               && (s <? map_get0 (net_nextSessionID (w_net w)) (id (w_heap w h)))).
Qed.

(** Called with the lock held, as it asks, [tryMarkConnected] does what
    the function on worlds says and returns with the lock held. *)
Lemma locked_tryMarkConnected_held (h : loc) (w : World) :
  locked.tryMarkConnected h w rw_held = Done (tryMarkConnected h w) rw_held.
Proof.
  unfold locked.tryMarkConnected, tryMarkConnected.
  destruct (negb (connected (w_heap w h)) && gotVersion (w_heap w h)
            && gotPeerList (w_heap w h)); [|done].
  destruct (closed (w_heap w h)); [done|].
  by destruct (net_peers (w_net w) !! id (w_heap w h)).
Qed.

(** Called when no writer holds the lock, with an old connection to
    close, it releases a lock that is not held. *)
Lemma locked_tryMarkConnected_fatal (h old : loc) (w : World) (l : RWMutex) :
  connected (w_heap w h) = false -> gotVersion (w_heap w h) = true ->
  gotPeerList (w_heap w h) = true -> closed (w_heap w h) = false ->
  net_peers (w_net w) !! id (w_heap w h) = Some old ->
  rw_writer l = false ->
  locked.tryMarkConnected h w l = Fatal.
Proof.
  intros Hconn Hgv Hgp Hcl Hold Hl. unfold locked.tryMarkConnected.
  rewrite Hconn, Hgv, Hgp, Hcl, Hold. cbn [negb andb].
  unfold mbind, locking_bind, rw_Unlock. by rewrite Hl.
Qed.

(** Whatever the lock, a [tryMarkConnected] that returns has done what the
    function on worlds says. *)
Lemma locked_tryMarkConnected_Done (h : loc) (w w' : World) (l l' : RWMutex) :
  locked.tryMarkConnected h w l = Done w' l' -> w' = tryMarkConnected h w.
Proof.
  unfold locked.tryMarkConnected, tryMarkConnected.
  destruct (negb (connected (w_heap w h)) && gotVersion (w_heap w h)
            && gotPeerList (w_heap w h)); [|by intros [= <- _]].
  destruct (closed (w_heap w h)); [by intros [= <- _]|].
  destruct (net_peers (w_net w) !! id (w_heap w h)) as [old|];
    [|by intros [= <- _]].
  unfold mbind, locking_bind, rw_Unlock, rw_Lock, mret, locking_ret.
  destruct (rw_writer l); [|done]. simpl.
  destruct (rw_readers l); simpl; [|done]. by intros [= <- _].
Qed.

(** A run of the handler with the lock that returns has done what the
    function on worlds says: the lock adds the ways not to return. *)
Lemma locked_version_accept_Done (msg : Msg) (peerVersion : Ver) (s : Z)
    (h : loc) (w w' : World) (l l' : RWMutex) :
  locked.version_accept msg peerVersion s h w l = Done w' l' ->
  version_accept msg peerVersion s h w = Some w'.
Proof.
  unfold locked.version_accept, version_accept.
  set (o := if IPDesc_IsZero (ip (w_heap w h)) then _ else _).
  destruct o as [w0|]; [|done].
  rewrite lift_bind. cbn [mbind option_bind].
  intros Hd. by rewrite (locked_tryMarkConnected_Done _ _ _ _ _ Hd).
Qed.

Lemma locked_version_Done (msg : Msg) (h : loc) (w w' : World) (l l' : RWMutex) :
  locked.version msg h w l = Done w' l' -> version msg h w = Some w'.
Proof.
  unfold locked.version, version.
  destruct (gotVersion (w_heap w h)); [by intros [= <- _]|].
  destruct (as_uint32 (Get msg Field.NetworkID)) as [networkID|]; [|done].
  rewrite lift_bind. cbn [mbind option_bind].
  destruct (negb (networkID =? net_networkID (w_net w)));
    [intros Hd; by rewrite (locked_discardIP_Done _ _ _ _ _ Hd)|].
  destruct (as_uint32 (Get msg Field.NodeID)) as [nodeID|]; [|done].
  rewrite lift_bind. cbn [mbind option_bind].
  destruct (nodeID =? net_nodeID (w_net w));
    [intros Hd; by rewrite (locked_discardMyIP_Done _ _ _ _ _ Hd)|].
  destruct (as_uint64 (Get msg Field.MyTime)) as [peerTime|]; [|done].
  rewrite lift_bind. cbn [mbind option_bind].
  destruct (clock_out_of_sync peerTime (net_clock (w_net w))
              (net_maxClockDifference (w_net w)));
    [intros Hd; by rewrite (locked_discardIP_Done _ _ _ _ _ Hd)|].
  destruct (as_string (Get msg Field.VersionStr)) as [verStr|]; [|done].
  rewrite lift_bind. cbn [mbind option_bind].
  destruct (parser_Parse verStr) as [peerVersion|];
    [|intros Hd; by rewrite (locked_discardIP_Done _ _ _ _ _ Hd)].
  destruct (negb (version_Compatible (net_version (w_net w)) peerVersion)
            && negb (bool_decide (id (w_heap w h) ∈ net_beacons (w_net w))));
    [intros Hd; by rewrite (locked_discardIP_Done _ _ _ _ _ Hd)|].
  destruct (as_uint32 (Get msg Field.SessionID)) as [s|]; [|done].
  rewrite lift_bind. cbn [mbind option_bind].
  unfold mbind at 1, locking_bind at 1.
  destruct (rw_Lock l) as [[] l1| | |]; [|done..].
  unfold mbind at 1, locking_bind at 1.
  destruct (rw_Unlock l1) as [[] l2| | |]; [|done..].
  destruct (bool_decide (is_Some (net_peers (w_net w) !! id (w_heap w h)))
            && negb (s =? 0)
            && (s <? map_get0 (net_nextSessionID (w_net w)) (id (w_heap w h)))).
  - intros Hd. by rewrite (locked_discardIP_Done _ _ _ _ _ Hd).
  - apply locked_version_accept_Done.
Qed.

(** [Version] takes the lock for reading and releases it as if it had
    taken it for writing: while no task holds the lock for writing it ends
    in the fatal error before anything is sent. *)
Lemma locked_Version_fatal (h : loc) (w : World) (l : RWMutex) :
  rw_writer l = false -> locked.Version h w l = Fatal.
Proof.
  intros Hl. unfold locked.Version, mbind, locking_bind, rw_RLock, rw_Unlock.
  by rewrite Hl.
Qed.

(** The tasks around a peer keep the invariant as well. *)
Lemma WriteMessages_step_registered (sendRaw_ok : bool) (h : loc) (w : World) :
  registered_have_version w ->
  registered_have_version (WriteMessages_step sendRaw_ok h w).
Proof.
  intros Hinv. unfold WriteMessages_step. cbv zeta.
  destruct (writer_exited (w_heap w h)); [done|].
  destruct (sender (w_heap w h)) as [|msg rest].
  - destruct (sender_closed (w_heap w h)); [|done].
    apply Close_registered. by apply set_peer_registered.
  - assert (registered_have_version
              (add_net_pendingBytes (wrap64 (- int64_len msg))
                 (add_pendingBytes h (wrap64 (- int64_len msg))
                    (set_peer h (with_sender rest) w)))) as Hinv1.
    { unfold add_net_pendingBytes, add_pendingBytes.
      apply set_net_registered; [done|].
      by do 2 (apply set_peer_registered; [done|]). }
    destruct sendRaw_ok.
    + by apply set_peer_registered.
    + apply Close_registered. by apply set_peer_registered.
Qed.

Lemma run_registered (h : loc) (acts : list action) (w : World) :
  registered_have_version w -> registered_have_version (run h acts w).
Proof.
  unfold run. revert w. induction acts as [|a acts IH]; intros w Hinv; [done|].
  simpl. apply IH. destruct a; simpl.
  - by apply Send_registered.
  - by apply WriteMessages_step_registered.
  - by apply Close_registered.
Qed.

(** The handler keeps the invariant of the registry. *)
Lemma version_accept_registered (msg : Msg) (peerVersion : Ver) (s : Z)
    (h : loc) (w w' : World) :
  registered_have_version w ->
  version_accept msg peerVersion s h w = Some w' ->
  registered_have_version w'.
Proof.
  intros Hinv. unfold version_accept.
  set (o := if IPDesc_IsZero (ip (w_heap w h)) then _ else _).
  assert (Ho : forall w0, o = Some w0 -> registered_have_version w0).
  { subst o. intros w0. destruct (IPDesc_IsZero _); [|by intros [= <-]].
    destruct (as_IPDesc _) as [peerIP|]; [|done]. cbn [mbind option_bind].
    destruct (conn_RemoteAddr _); [|by intros [= <-]].
    destruct (IP_Equal _ _); intros [= <-]; [|done].
    by apply set_peer_registered. }
  destruct o as [w0|]; [|done]. cbn [mbind option_bind]. intros [= <-].
  apply tryMarkConnected_registered.
  do 4 (apply set_peer_registered; [done|]).
  by apply SendPeerList_registered, Ho.
Qed.

Lemma version_registered (msg : Msg) (h : loc) (w w' : World) :
  registered_have_version w -> version msg h w = Some w' ->
  registered_have_version w'.
Proof.
  intros Hinv. unfold version.
  pose proof (discard_registered false h w Hinv) as Hd.
  pose proof (discard_registered true h w Hinv) as Hm.
  cbn iota in Hd, Hm.
  destruct (gotVersion (w_heap w h)); [by intros [= <-]|].
  destruct (as_uint32 (Get msg Field.NetworkID)) as [networkID|]; [|done].
  cbn [mbind option_bind].
  destruct (negb (networkID =? net_networkID (w_net w))); [by intros [= <-]|].
  destruct (as_uint32 (Get msg Field.NodeID)) as [nodeID|]; [|done].
  cbn [mbind option_bind].
  destruct (nodeID =? net_nodeID (w_net w)); [by intros [= <-]|].
  destruct (as_uint64 (Get msg Field.MyTime)) as [peerTime|]; [|done].
  cbn [mbind option_bind].
  destruct (clock_out_of_sync _ _ _); [by intros [= <-]|].
  destruct (as_string (Get msg Field.VersionStr)) as [verStr|]; [|done].
  cbn [mbind option_bind].
  destruct (parser_Parse verStr) as [peerVersion|]; [|by intros [= <-]].
  destruct (negb _ && negb _); [by intros [= <-]|].
  destruct (as_uint32 (Get msg Field.SessionID)) as [s|]; [|done].
  cbn [mbind option_bind].
  destruct (_ && _ && _); [by intros [= <-]|].
  by apply version_accept_registered.
Qed.

(** C3 (as the code has it). A peer [old] is registered under the id of
    the peer [h], and [N] is the next session id recorded for that id. A
    first [Version] message with session id [s] arrives at [h] while no
    task holds the state lock; its network id, node id, clock and version
    are in order, and [h] is neither connected nor closed. When [s] is not
    0 and below [N] the handler is [discardIP]: [h] is closed and the
    registry is as before. When [s = 0] or [s >= N] and [h] has the peer
    list already, the handler does not return: [version] has released the
    state lock when it calls [tryMarkConnected], which releases it once
    more before it closes [old], and the run ends there in the fatal error
    of a lock released while not held. When the peer list is still
    missing, the session id is recorded and [old] stays registered; the
    call of [tryMarkConnected] that the [PeerList] handler makes, once it
    has set [gotPeerList] and again without the lock, ends in the same
    fatal error. *)
Theorem version_supplant_fatal (msg : Msg) (h old : loc) (w : World)
    (networkID nodeID peerTime s : Z) (verStr : string) (peerVersion : Ver) :
  gotVersion (w_heap w h) = false ->
  as_uint32 (Get msg Field.NetworkID) = Some networkID ->
  as_uint32 (Get msg Field.NodeID) = Some nodeID ->
  as_uint64 (Get msg Field.MyTime) = Some peerTime ->
  as_string (Get msg Field.VersionStr) = Some verStr ->
  as_uint32 (Get msg Field.SessionID) = Some s ->
  is_Some (as_IPDesc (Get msg Field.IP)) ->
  networkID = net_networkID (w_net w) ->
  nodeID <> net_nodeID (w_net w) ->
  clock_out_of_sync peerTime (net_clock (w_net w))
    (net_maxClockDifference (w_net w)) = false ->
  parser_Parse verStr = Some peerVersion ->
  version_Compatible (net_version (w_net w)) peerVersion = true
    \/ id (w_heap w h) ∈ net_beacons (w_net w) ->
  connected (w_heap w h) = false ->
  closed (w_heap w h) = false ->
  once (w_heap w h) = false ->
  net_peers (w_net w) !! id (w_heap w h) = Some old ->
  old <> h ->
  let key := id (w_heap w h) in
  let N := map_get0 (net_nextSessionID (w_net w)) key in
  (s <> 0 /\ s < N ->
     locked.version msg h w rw_free = Done (discardIP h w) rw_free
     /\ closed (w_heap (discardIP h w) h) = true
     /\ net_peers (w_net (discardIP h w)) = net_peers (w_net w))
  /\ (s = 0 \/ s >= N -> gotPeerList (w_heap w h) = true ->
      locked.version msg h w rw_free = Fatal)
  /\ (s = 0 \/ s >= N -> gotPeerList (w_heap w h) = false ->
      exists w',
        locked.version msg h w rw_free = Done w' rw_free
        /\ gotVersion (w_heap w' h) = true
        /\ incomingSessionID (w_heap w' h) = s
        /\ connected (w_heap w' h) = false
        /\ net_peers (w_net w') !! key = Some old
        /\ locked.tryMarkConnected h (set_peer h (with_gotPeerList true) w') rw_free
           = Fatal).
Proof.
  intros Hg Hnet Hnode Htime Hstr Hses HIP En Ed Hclk Hparse Hcompat
    Hconn Hcl Ho Hold Hne key N.
  rewrite (locked_version_arbitrates msg h w networkID nodeID peerTime s
             verStr peerVersion) by done.
  rewrite Hold.
  rewrite (bool_decide_eq_true_2 _ (mk_is_Some _ _ eq_refl)). cbn [andb].
  fold key. fold N.
  destruct (locked_version_accept_some msg peerVersion s h w HIP)
    as (w1 & _ & Hlv & (Hp1 & Hn1 & _) & Hg1 & Hs1 & _ & Hid1 & Hgp1 & Hc1
        & Hcl1 & Ho1).
  assert (Hsup : s = 0 \/ s >= N ->
                 negb (s =? 0) && (s <? N) = false).
  { intros [->|Hge]; [done|].
    destruct (Z.ltb_spec s N); [lia|]. apply andb_false_r. }
  split; [|split].
  - (* 0 <> s < N: discarded *)
    intros [Es Hlt].
    rewrite (proj2 (Z.eqb_neq _ _) Es), (proj2 (Z.ltb_lt _ _) Hlt). cbn [negb andb].
    split; [apply locked_discardIP_free|].
    destruct (discard_closes false h w) as (Hclosed & _ & _ & _ & _ & Hpeers);
      [congruence|].
    cbv zeta in *. split; [done|]. apply Hpeers. rewrite Hold. congruence.
  - (* accepted with the peer list: the lock is released twice *)
    intros Hs Hgp. rewrite (Hsup Hs), Hlv.
    apply (locked_tryMarkConnected_fatal h old); [congruence..| |done].
    by rewrite Hid1, Hp1.
  - (* accepted without the peer list *)
    intros Hs Hgp. rewrite (Hsup Hs), Hlv.
    exists w1. split.
    { unfold locked.tryMarkConnected.
      replace (gotPeerList (w_heap w1 h)) with false by congruence.
      by rewrite andb_false_r. }
    split; [done|]. split; [done|]. split; [congruence|].
    split; [unfold key; by rewrite Hp1|].
    apply (locked_tryMarkConnected_fatal h old); unfold set_peer; simpl;
      rewrite ?fn_lookup_insert; simpl; try congruence; try done.
Qed.

(** ** Outbound [Version] messages *)

(** C6. The [Version] that answers a [GetVersion] carries the next session
    id recorded for the peer. The [Version] that [verionAck] builds, the
    first message of [Start] on the dialing side, carries no session id. *)
Theorem verionAck_omits_SessionID (h : loc) (w : World) :
  Get (Version_msg h w) Field.SessionID =
    Some (U32 (map_get0 (net_nextSessionID (w_net w)) (id (w_heap w h))))
  /\ Get (verionAck_msg w) Field.SessionID = None.
Proof. split; reflexivity. Qed.

(** ** The reader task *)

Lemma byte_val_nonneg b : 0 <= byte_val b.
Proof. unfold byte_val. lia. Qed.

Lemma be_uint32_nonneg b0 b1 b2 b3 : 0 <= be_uint32 b0 b1 b2 b3.
Proof.
  unfold be_uint32.
  repeat (apply Z.lor_nonneg; split);
    try apply Z.shiftl_nonneg; apply byte_val_nonneg.
Qed.

(** A successful unpack yields a payload of the declared length, and the
    buffer held the whole frame. *)
Lemma UnpackBytes_Some (bytes msgBytes rest : list byte) :
  UnpackBytes bytes = Some (msgBytes, rest) ->
  exists L, declared_len bytes = Some L
    /\ int64_len msgBytes = L
    /\ int64_len bytes = IntLen + L + int64_len rest.
Proof.
  unfold UnpackBytes, declared_len.
  destruct bytes as [|b0 [|b1 [|b2 [|b3 tl]]]]; try discriminate.
  pose proof (be_uint32_nonneg b0 b1 b2 b3) as Hnn.
  destruct (Z.ltb_spec (int64_len tl) (be_uint32 b0 b1 b2 b3)) as [|Hle];
    [discriminate|].
  intros [= <- <-]. eexists. split; [reflexivity|].
  unfold int64_len, IntLen in *. rewrite length_take, length_drop. simpl length.
  lia.
Qed.

Lemma declared_len_app (bytes more : list byte) (L : Z) :
  declared_len bytes = Some L -> declared_len (bytes ++ more) = Some L.
Proof.
  by destruct bytes as [|b0 [|b1 [|b2 [|b3 tl]]]].
Qed.

Lemma parsed_frames_cons f msg handled e :
  parsed_frames ((f, msg) :: handled, e) = f :: parsed_frames (handled, e).
Proof. reflexivity. Qed.

(** No frame longer than [maxMessageSize] is ever given to the parser. *)
Lemma ReadMessages_parsed_within_limit (M : Z) (reads : list (list byte))
    (pending : list byte) :
  Forall (fun f => int64_len f <= M)
    (parsed_frames (ReadMessages_loop M reads pending)).
Proof.
  revert pending. induction reads as [|read reads IH]; intros pending; simpl.
  { constructor. }
  destruct (UnpackBytes (pending ++ read)) as [[msgBytes rest]|].
  - destruct (Z.gtb_spec (int64_len msgBytes) M) as [|Hle]; [constructor|].
    destruct (b_Parse msgBytes) as [msg|].
    + specialize (IH rest).
      destruct (ReadMessages_loop M reads rest) as [handled e].
      rewrite parsed_frames_cons. by constructor.
    + unfold parsed_frames. simpl. by repeat constructor.
  - destruct (int64_len (pending ++ read) >? wrap64 (M + IntLen));
      [constructor | apply IH].
Qed.



(** [ReadMessages] ends with [Close]: however the loop is left, the
    once-guard of the peer has fired. *)
Lemma ReadMessages_closes (handle : Msg -> loc -> World -> World)
    (ok : bool) (reads : list (list byte)) (h : loc) (w : World) :
  once (w_heap (ReadMessages handle ok reads h w) h) = true.
Proof. unfold ReadMessages. destruct ok; apply Close_once. Qed.

End PEER_FACTS.

(** ** [Tx.SyntacticVerify] *)

(** A transaction that has been verified answers from its cache and
    stays as it is. *)
Lemma SyntacticVerify_cached (tx : avm.Tx) (utx : avm.UnsignedTx) :
  avm.unsignedTx tx = Some utx -> avm.verifiedTx tx = true ->
  avm.SyntacticVerify (Some tx) = (avm.validity tx, Some tx).
Proof. intros Hu Hv. unfold avm.SyntacticVerify. by rewrite Hu, Hv. Qed.

Lemma SyntacticVerify_again (tx : avm.Tx) (utx : avm.UnsignedTx) (k : nat) :
  avm.unsignedTx tx = Some utx -> avm.verifiedTx tx = true ->
  Nat.iter k (fun t => snd (avm.SyntacticVerify t)) (Some tx) = Some tx.
Proof.
  intros Hu Hv. induction k as [|k IH]; [done|].
  simpl. rewrite IH. by rewrite (SyntacticVerify_cached tx utx).
Qed.

(** C9. When the embedded [UnsignedTx.SyntacticVerify] is called (the
    transaction and its unsigned part are not nil and the transaction has
    not been verified before) and returns an error, whichever it is,
    [Tx.SyntacticVerify] returns [errInitialStatesNotSortedUnique], keeps
    it as the validity of the transaction, and returns it again at every
    later call. *)
Theorem SyntacticVerify_masks_error (tx : avm.Tx) (utx : avm.UnsignedTx)
    (err : avm.error) :
  avm.unsignedTx tx = Some utx ->
  avm.verifiedTx tx = false ->
  avm.utx_SyntacticVerify utx = Some err ->
  let r := avm.SyntacticVerify (Some tx) in
  fst r = Some avm.errInitialStatesNotSortedUnique
  /\ snd r = Some (avm.with_validity (Some avm.errInitialStatesNotSortedUnique)
                     (avm.with_verifiedTx true tx))
  /\ forall k : nat,
       fst (avm.SyntacticVerify
              (Nat.iter k (fun t => snd (avm.SyntacticVerify t)) (snd r)))
       = Some avm.errInitialStatesNotSortedUnique.
Proof.
  intros Hu Hv He r.
  assert (Hr : r = (Some avm.errInitialStatesNotSortedUnique,
                    Some (avm.with_validity (Some avm.errInitialStatesNotSortedUnique)
                            (avm.with_verifiedTx true tx)))).
  { subst r. unfold avm.SyntacticVerify. by rewrite Hu, Hv, He. }
  rewrite Hr. cbn [fst snd]. do 2 (split; [reflexivity|]).
  intros k.
  rewrite (SyntacticVerify_again _ utx) by done.
  by rewrite (SyntacticVerify_cached _ utx).
Qed.

(** * Runs on concrete inputs *)

Lemma SyntacticVerify_masks_error_witness :
  let utx := {| avm.utx_SyntacticVerify := Some (avm.errOther "asset ID mismatch");
                avm.NumCredentials := 0 |} in
  let tx := {| avm.unsignedTx := Some utx; avm.Creds := [];
               avm.verifiedTx := false; avm.verifiedState := false;
               avm.validity := None |} in
  fst (avm.SyntacticVerify (Some tx)) = Some avm.errInitialStatesNotSortedUnique.
Proof.
  intros utx tx.
  apply (SyntacticVerify_masks_error tx utx (avm.errOther "asset ID mismatch"));
    reflexivity.
Defined.

(** A closed peer: [tryMarkConnected] returns the world unchanged. *)
Lemma tryMarkConnected_noop_witness :
  let w := Close 0%nat
             (set_peer 0%nat (fun p => with_gotVersion true (with_gotPeerList true p))
                ex_world) in
  closed (w_heap w 0%nat) = true /\ tryMarkConnected 0%nat w = w.
Proof.
  intros w. split; [reflexivity|].
  apply (tryMarkConnected_noop 0%nat w). left. reflexivity.
Defined.

(** The second half of the reconnect scenario: session id 7 against a next
    session id of 5. *)
Lemma tryMarkConnected_marks_witness :
  let w := set_peer 0%nat
             (fun p => with_incomingSessionID 7 (with_gotVersion true p))
             ex_world_registered in
  let w' := tryMarkConnected 0%nat w in
  map_get0 (net_nextSessionID (w_net w')) 5%N = 8
  /\ net_peers (w_net w') !! 5%N = Some 0%nat
  /\ closed (w_heap w' 1%nat) = true.
Proof.
  intros w w'.
  destruct (tryMarkConnected_marks 0%nat w) as (Hn & Hp & _ & _ & Hold);
    [reflexivity..|].
  destruct (Hold 1%nat eq_refl) as (_ & _ & Hc).
  destruct (Hc eq_refl) as (Hc' & _).
  split; [exact Hn|]. split; [exact Hp | exact Hc'].
Defined.

(** C4 as stated fails at an incoming session id of 2^32 - 1: the larger
    of the two session ids plus one is 2^32, and the session id stored is
    0. *)
Lemma tryMarkConnected_next_session_wraps :
  let w := set_peer 0%nat
             (fun p => with_incomingSessionID 4294967295
                         (with_gotVersion true (with_gotPeerList true p)))
             ex_world in
  let w' := tryMarkConnected 0%nat w in
  (connected (w_heap w 0%nat) = false /\ gotVersion (w_heap w 0%nat) = true
   /\ gotPeerList (w_heap w 0%nat) = true /\ closed (w_heap w 0%nat) = false)
  /\ map_get0 (net_nextSessionID (w_net w')) 5%N = 0
  /\ Z.max (map_get0 (net_nextSessionID (w_net w)) 5%N)
           (incomingSessionID (w_heap w 0%nat)) + 1 = 4294967296
  /\ map_get0 (net_nextSessionID (w_net w')) 5%N <>
     Z.max (map_get0 (net_nextSessionID (w_net w)) 5%N)
           (incomingSessionID (w_heap w 0%nat)) + 1.
Proof.
  cbv zeta. split; [by vm_compute|].
  split; [by vm_compute|]. split; [by vm_compute|]. by vm_compute.
Qed.

(** A duplicated [Version]. *)
Lemma version_duplicate_ignored_witness :
  let w := set_peer 0%nat (with_gotVersion true) ex_world in
  @version ex_External (ex_Version 1 9 3 1600000000) 0%nat w = Some w.
Proof.
  intros w.
  apply (@version_duplicate_ignored ex_External (ex_Version 1 9 3 1600000000) 0%nat w).
  reflexivity.
Defined.

(** The reconnect scenario through the handler: the peer at location 1 is
    registered under id 5 with next session id 5, and the new connection at
    location 0 has the peer list. A [Version] with session id 7 ends in
    the fatal error; one with session id 3 is discarded. *)
Lemma version_supplant_fatal_witness :
  @locked.version ex_External (ex_Version 1 9 7 1600000000) 0%nat
     ex_world_registered rw_free = Fatal
  /\ @locked.version ex_External (ex_Version 1 9 3 1600000000) 0%nat
       ex_world_registered rw_free
     = Done (@discardIP ex_External 0%nat ex_world_registered) rw_free.
Proof.
  split.
  - destruct (@version_supplant_fatal ex_External
                (ex_Version 1 9 7 1600000000) 0%nat 1%nat ex_world_registered
                1 9 1600000000 7 "avalanche/1.0.4"
                {| App := "avalanche/1.0.4"; Major := 1; Minor := 0; Patch := 4 |})
      as (_ & Hsup & _); [try reflexivity..|].
    + eexists; reflexivity.
    + discriminate.
    + left; reflexivity.
    + discriminate.
    + apply Hsup; [right; by vm_compute | reflexivity].
  - destruct (@version_supplant_fatal ex_External
                (ex_Version 1 9 3 1600000000) 0%nat 1%nat ex_world_registered
                1 9 1600000000 3 "avalanche/1.0.4"
                {| App := "avalanche/1.0.4"; Major := 1; Minor := 0; Patch := 4 |})
      as (Hdis & _); [try reflexivity..|].
    + eexists; reflexivity.
    + discriminate.
    + left; reflexivity.
    + discriminate.
    + apply Hdis. split; [discriminate | by vm_compute].
Defined.

(** The clock skew scenario: the peer's time is 120 seconds ahead of
    ours, with 60 seconds allowed. *)
Lemma version_rejects_witness :
  exists w',
    @version ex_External (ex_Version 1 9 0 (1600000000 + 120)) 0%nat ex_world
      = Some w'
    /\ @locked.version ex_External (ex_Version 1 9 0 (1600000000 + 120)) 0%nat
         ex_world rw_free = Done w' rw_free
    /\ closed (w_heap w' 0%nat) = true
    /\ net_peers (w_net w') = net_peers (w_net ex_world)
    /\ forall key, net_peers (w_net w') !! key <> Some 0%nat.
Proof.
  destruct (@version_rejects ex_External (ex_Version 1 9 0 (1600000000 + 120))
              0%nat ex_world 1 9 (1600000000 + 120))
    as (w' & Hv & Hlv & _ & Hc & _ & Hp & Hno & _);
    [reflexivity | reflexivity | reflexivity | reflexivity | discriminate
    | by apply registered_have_version_empty
    | right; right; by vm_compute |].
  exists w'. split; [exact Hv|]. split; [exact Hlv|].
  split; [exact Hc|]. split; [exact Hp | exact Hno].
Defined.

(** The clock test is made in [float64], and rounds. With 2^24 seconds and
    999999999 nanoseconds allowed, the bound in seconds rounds up to
    2^24 + 1, and a peer whose time is 2^24 + 1 seconds ahead, which is
    more than is allowed, passes the test. With times above 2^53 a
    difference of 60 seconds, which is allowed, comes out as 61 and fails
    it. With the times of the examples and one minute allowed, two minutes
    fail the test and one minute passes it. *)
Lemma clock_out_of_sync_rounds :
  (clock_out_of_sync (1600000000 + 2 ^ 24 + 1) 1600000000
     (2 ^ 24 * 1000000000 + 999999999) = false
   /\ Z.abs (1600000000 + 2 ^ 24 + 1 - 1600000000) * 1000000000
        > 2 ^ 24 * 1000000000 + 999999999)
  /\ (clock_out_of_sync (2 ^ 53 - 57) (2 ^ 53 + 3) 60000000000 = true
      /\ Z.abs (2 ^ 53 - 57 - (2 ^ 53 + 3)) * 1000000000 <= 60000000000)
  /\ clock_out_of_sync (1600000000 + 120) 1600000000 60000000000 = true
  /\ clock_out_of_sync (1600000000 - 120) 1600000000 60000000000 = true
  /\ clock_out_of_sync (1600000000 + 60) 1600000000 60000000000 = false.
Proof. by vm_compute. Qed.

(** C7 as stated fails on a peer that has a version already: a further
    [Version], here from network 2 where ours is 1 and two minutes off,
    changes nothing and closes nothing. On a peer without a version, a
    message with our node id, 7, and a foreign network id is handled by
    [discardIP], so the known IP of the peer is not put into [myIPs]; and a
    message with our node id and our network id finds nothing to record
    when the peer has no known IP. *)
Lemma version_mismatch_after_version_kept :
  let w := set_peer 0%nat (with_gotVersion true) ex_world in
  let msg := ex_Version 2 9 0 (1600000000 + 120) in
  (as_uint32 (Get msg Field.NetworkID) = Some 2
   /\ net_networkID (w_net w) = 1
   /\ @version ex_External msg 0%nat w = Some w
   /\ closed (w_heap w 0%nat) = false
   /\ conn_closed (w_heap w 0%nat) = false)
  /\ (let w := set_peer 0%nat
                 (with_ip {| IP := [x0a; x00; x00; x02]; Port := 9651 |}) ex_world in
      exists w',
        @version ex_External (ex_Version 2 7 0 1600000000) 0%nat w = Some w'
        /\ closed (w_heap w' 0%nat) = true
        /\ net_myIPs (w_net w') = ∅)
  /\ (exists w',
        @version ex_External (ex_Version 1 7 0 1600000000) 0%nat ex_world = Some w'
        /\ closed (w_heap w' 0%nat) = true
        /\ net_myIPs (w_net w') = ∅).
Proof.
  cbv zeta. split; [repeat split|].
  split; (eexists; split; [reflexivity|]; split; by vm_compute).
Qed.



(** * Properties beyond the specification *)

(** ** The length prefix *)

Lemma byte_val_byte_of_Z (z : Z) : byte_val (byte_of_Z z) = z mod 256.
Proof.
  unfold byte_val, byte_of_Z.
  pose proof (Z.mod_pos_bound z 256 ltac:(lia)) as Hb.
  destruct (Byte.of_N (Z.to_N (z mod 256))) as [b|] eqn:E.
  - apply Byte.to_of_N in E. simpl. rewrite E. lia.
  - apply Byte.of_N_None_iff in E. lia.
Qed.

(** With no bits in common, or-ing a shifted number onto a smaller one
    adds them. *)
Lemma lor_shiftl_add (hi lo k : Z) :
  0 <= k -> 0 <= lo < 2 ^ k -> Z.lor (Z.shiftl hi k) lo = hi * 2 ^ k + lo.
Proof.
  intros Hk Hlo.
  assert (Hland : Z.land (Z.shiftl hi k) lo = 0).
  { apply Z.bits_inj'. intros i Hi. rewrite Z.land_spec, Z.bits_0.
    destruct (Z.lt_ge_cases i k) as [Hlt|Hge].
    - by rewrite Z.shiftl_spec_low.
    - rewrite <- (Z.mod_small lo (2 ^ k)) by lia.
      rewrite Z.mod_pow2_bits_high by lia. apply andb_false_r. }
  rewrite <- Z.lxor_lor by done. rewrite <- Z.add_nocarry_lxor by done.
  by rewrite Z.shiftl_mul_pow2.
Qed.

(** Decoding the four bytes of a length gives the length back. *)
Lemma be_uint32_be_bytes32 (n : Z) (rest : list byte) :
  uint32_range n -> declared_len (be_bytes32 n ++ rest) = Some n.
Proof.
  unfold uint32_range. intros Hn. simpl. f_equal. unfold be_uint32.
  rewrite !byte_val_byte_of_Z, !Z.shiftr_div_pow2 by lia.
  change (2 ^ 24) with 16777216. change (2 ^ 16) with 65536.
  change (2 ^ 8) with 256. change (2 ^ 32) with 4294967296 in Hn.
  assert (H3 : 0 <= n mod 256 < 2 ^ 8)
    by (change (2 ^ 8) with 256; Z.div_mod_to_equations; lia).
  rewrite (lor_shiftl_add _ (n mod 256) 8) by lia.
  assert (H2 : 0 <= n / 256 mod 256 * 2 ^ 8 + n mod 256 < 2 ^ 16).
  { change (2 ^ 8) with 256. change (2 ^ 16) with 65536.
    Z.div_mod_to_equations. lia. }
  rewrite (lor_shiftl_add _ _ 16) by lia.
  assert (H1 : 0 <= n / 65536 mod 256 * 2 ^ 16
                    + (n / 256 mod 256 * 2 ^ 8 + n mod 256) < 2 ^ 24).
  { change (2 ^ 8) with 256. change (2 ^ 16) with 65536.
    change (2 ^ 24) with 16777216. Z.div_mod_to_equations. lia. }
  rewrite (lor_shiftl_add _ _ 24) by lia.
  change (2 ^ 8) with 256. change (2 ^ 16) with 65536.
  change (2 ^ 24) with 16777216. Z.div_mod_to_equations. lia.
Qed.

Lemma be_bytes32_length (n : Z) : length (be_bytes32 n) = 4%nat.
Proof. reflexivity. Qed.

Lemma UnpackBytes_declared (bytes : list byte) :
  UnpackBytes bytes =
  match declared_len bytes with
  | Some size =>
      if int64_len (drop 4 bytes) <? size then None
      else Some (take (Z.to_nat size) (drop 4 bytes),
                 drop (Z.to_nat size) (drop 4 bytes))
  | None => None
  end.
Proof. by destruct bytes as [|b0 [|b1 [|b2 [|b3 tl]]]]. Qed.

Lemma drop_be_bytes32 (n : Z) (l : list byte) : drop 4 (be_bytes32 n ++ l) = l.
Proof. reflexivity. Qed.

(** Unpacking a packed payload gives the payload and what follows it. *)
Lemma UnpackBytes_PackBytes (payload rest : list byte) :
  int64_len payload < 2 ^ 32 ->
  UnpackBytes (PackBytes payload ++ rest) = Some (payload, rest).
Proof.
  intros Hlen. unfold PackBytes.
  assert (Hr : uint32_range (int64_len payload))
    by (unfold uint32_range, int64_len in *; lia).
  rewrite (wrap32_id _ Hr), <- app_assoc.
  rewrite UnpackBytes_declared, be_uint32_be_bytes32, drop_be_bytes32 by done.
  destruct (Z.ltb_spec (int64_len (payload ++ rest)) (int64_len payload)) as [Hlt|_].
  { unfold int64_len in Hlt. rewrite length_app in Hlt. lia. }
  unfold int64_len. rewrite Nat2Z.id.
  by rewrite take_app_length, drop_app_length.
Qed.

(** ** Synchronous reads and writes *)

(** X1. [readFull] returns exactly the next [len] bytes of the stream,
    however they are cut into segments, and leaves the bytes after them
    for the next read; it fails exactly when fewer than [len] bytes arrive
    before the connection ends. *)
Theorem readFull_exact (len : nat) (conn : list (list byte)) :
  ((len <= length (concat conn))%nat ->
   exists conn', readFull len conn = Some (take len (concat conn), conn')
                 /\ concat conn' = drop len (concat conn))
  /\ ((length (concat conn) < len)%nat -> readFull len conn = None).
Proof.
  revert len. induction conn as [|seg conn IH]; intros len.
  - destruct len; simpl; split; try lia; [by exists [] | done].
  - destruct len as [|len]; [split; [by exists (seg :: conn) | simpl; lia]|].
    cbn [readFull]. simpl concat. rewrite length_app.
    destruct (Nat.leb_spec (length seg) (S len)) as [Hle|Hgt].
    + destruct (IH (S len - length seg)%nat) as [IHok IHerr]. split.
      * intros Hlen. destruct IHok as (conn' & -> & Hc); [lia|].
        exists conn'. rewrite take_app_ge, drop_app_ge by done. by rewrite Hc.
      * intros Hlen. by rewrite IHerr by lia.
    + split; [|lia]. intros _. exists (drop (S len) seg :: conn).
      rewrite take_app_le, drop_app_le by lia. done.
Qed.

(** X2. What [sendRaw] puts on the connection is always a prefix of the
    frame, the length and then the message; when it returns nil the whole
    frame has been written, in order, whatever the sizes of the single
    writes. *)
Theorem sendRaw_writes_frame (writes : list (nat * bool)) (msg : list byte) :
  fst (sendRaw writes msg) `prefix_of` PackBytes msg
  /\ (snd (sendRaw writes msg) = true -> fst (sendRaw writes msg) = PackBytes msg).
Proof.
  unfold sendRaw. generalize (PackBytes msg). clear msg.
  induction writes as [|[written ok] writes IH]; intros frame.
  - destruct frame; simpl; [done|]. split; [apply prefix_nil | done].
  - destruct frame as [|b frame]; [done|].
    cbn [sendRaw_loop]. destruct ok.
    + specialize (IH (drop written (b :: frame))).
      destruct (sendRaw_loop writes (drop written (b :: frame))) as [sent res].
      cbn [fst snd] in *. destruct IH as [[k Hk] Hall]. split.
      * exists k. rewrite <- app_assoc, <- Hk. by rewrite take_drop.
      * intros Hres. rewrite (Hall Hres). by rewrite take_drop.
    + cbn [fst snd]. split; [|done]. exists (drop written (b :: frame)).
      by rewrite take_drop.
Qed.

Section FRAMING_FACTS.
Context `{External}.

(** X3. A frame packed by the sender is read back by [readMsg] as the
    parse of the payload, however the stream is cut into segments, and the
    bytes after the frame stay on the connection. The declared length is
    taken as it comes: any payload shorter than 2^32 bytes is read. *)
Theorem readMsg_PackBytes (payload tail : list byte) (conn : list (list byte)) :
  int64_len payload < 2 ^ 32 ->
  concat conn = PackBytes payload ++ tail ->
  exists conn',
    concat conn' = tail
    /\ readMsg conn = (msg ← b_Parse payload; Some (msg, conn')).
Proof.
  intros Hlen Hconn.
  assert (Hr : uint32_range (int64_len payload))
    by (unfold uint32_range, int64_len in *; lia).
  unfold readMsg. change (Z.to_nat IntLen) with 4%nat.
  destruct (readFull_exact 4 conn) as [(c1 & -> & Hc1) _].
  { rewrite Hconn. unfold PackBytes. rewrite !length_app. simpl. lia. }
  cbn [mbind option_bind]. rewrite Hconn in *.
  assert (Hhdr : take 4 (PackBytes payload ++ tail)
                 = be_bytes32 (int64_len payload)).
  { unfold PackBytes. by rewrite (wrap32_id _ Hr). }
  assert (Hbody : drop 4 (PackBytes payload ++ tail)
                  = payload ++ tail).
  { unfold PackBytes. by rewrite <- app_assoc. }
  rewrite Hhdr, Hbody in *. cbn [length be_bytes32 Nat.eqb negb].
  pose proof (be_uint32_be_bytes32 (int64_len payload) [] Hr) as Hd.
  rewrite app_nil_r in Hd. rewrite Hd. cbn [mbind option_bind].
  destruct (readFull_exact (Z.to_nat (int64_len payload)) c1) as [(c2 & -> & Hc2) _].
  { rewrite Hc1, length_app. unfold int64_len. lia. }
  cbn [mbind option_bind]. rewrite Hc1 in *.
  assert (Ht : take (Z.to_nat (int64_len payload)) (payload ++ tail) = payload)
    by (unfold int64_len; rewrite Nat2Z.id; apply take_app_length).
  assert (Hdr : drop (Z.to_nat (int64_len payload)) (payload ++ tail) = tail)
    by (unfold int64_len; rewrite Nat2Z.id; apply drop_app_length).
  rewrite Ht, Hdr in *. rewrite Z.eqb_refl. cbn [negb].
  pose proof (UnpackBytes_PackBytes payload [] Hlen) as Hu.
  unfold PackBytes in Hu. rewrite (wrap32_id _ Hr), app_nil_r in Hu.
  rewrite Hu. cbn [mbind option_bind].
  exists c2. split; [done|]. by destruct (b_Parse payload).
Qed.

(** ** The reader task, again *)

(** A buffer that holds only a beginning of a frame does not unpack. *)
Lemma UnpackBytes_incomplete (payload bytes more : list byte) :
  int64_len payload < 2 ^ 32 ->
  bytes ++ more = PackBytes payload -> more <> [] ->
  UnpackBytes bytes = None.
Proof.
  intros Hlen Heq Hmore.
  destruct (UnpackBytes bytes) as [[m rest]|] eqn:Hu; [|done].
  apply UnpackBytes_Some in Hu as (L & Hd & _ & Htot).
  apply (declared_len_app bytes more) in Hd. rewrite Heq in Hd.
  assert (Hr : uint32_range (int64_len payload))
    by (unfold uint32_range, int64_len in *; lia).
  unfold PackBytes in Hd, Heq. rewrite (wrap32_id _ Hr) in Hd, Heq.
  rewrite be_uint32_be_bytes32 in Hd by done. injection Hd as <-.
  apply (f_equal length) in Heq. rewrite !length_app, be_bytes32_length in Heq.
  assert (0 < length more)%nat by (destruct more; [done | simpl; lia]).
  unfold int64_len, IntLen in *. lia.
Qed.

(** Reads that bring nothing, on an empty buffer, deliver nothing. *)
Lemma ReadMessages_loop_idle (M : Z) (reads : list (list byte)) :
  0 <= wrap64 (M + IntLen) -> concat reads = [] ->
  ReadMessages_loop M reads [] = ([], ReadError).
Proof.
  intros HM. induction reads as [|r reads IH]; [done|].
  simpl concat. intros Hc. apply app_eq_nil in Hc as [-> Hc].
  cbn [ReadMessages_loop app UnpackBytes].
  destruct (Z.gtb_spec (int64_len []) (wrap64 (M + IntLen))) as [Hgt|_].
  { unfold int64_len in Hgt. simpl in Hgt. lia. }
  by apply IH.
Qed.

Lemma ReadMessages_one_frame_from (M : Z) (payload : list byte) (msg : Msg)
    (reads : list (list byte)) (pending : list byte) :
  int64_len payload <= M -> int64_range (M + IntLen) ->
  int64_len payload < 2 ^ 32 ->
  b_Parse payload = Some msg ->
  pending ++ concat reads = PackBytes payload ->
  (length pending < length (PackBytes payload))%nat ->
  ReadMessages_loop M reads pending = ([(payload, msg)], ReadError).
Proof.
  intros HM Hr Hlen Hparse. revert pending.
  assert (Hflen : length (PackBytes payload) = (4 + length payload)%nat)
    by (unfold PackBytes; by rewrite length_app).
  assert (H0 : 0 <= wrap64 (M + IntLen)).
  { rewrite (wrap64_id _ Hr). unfold int64_len, IntLen in *. lia. }
  induction reads as [|r reads IH]; intros pending Heq Hshort.
  { simpl in Heq. rewrite app_nil_r in Heq. subst. lia. }
  simpl concat in Heq. rewrite app_assoc in Heq. cbn [ReadMessages_loop].
  destruct (decide (concat reads = [])) as [Hnil|Hmore].
  - rewrite Hnil, app_nil_r in Heq. rewrite Heq.
    pose proof (UnpackBytes_PackBytes payload [] Hlen) as Hu.
    rewrite app_nil_r in Hu. rewrite Hu.
    destruct (Z.gtb_spec (int64_len payload) M) as [?|_]; [lia|].
    rewrite Hparse, (ReadMessages_loop_idle M reads H0 Hnil). done.
  - rewrite (UnpackBytes_incomplete payload _ _ Hlen Heq Hmore).
    assert (Hlt : (length (pending ++ r) < length (PackBytes payload))%nat).
    { apply (f_equal length) in Heq. rewrite length_app in Heq.
      assert (0 < length (concat reads))%nat
        by (destruct (concat reads); [done | simpl; lia]).
      lia. }
    rewrite (wrap64_id _ Hr).
    destruct (Z.gtb_spec (int64_len (pending ++ r)) (M + IntLen)) as [Hgt|_].
    { unfold int64_len, IntLen in *. lia. }
    by apply IH.
Qed.

(** X4. A frame within the limit that arrives alone is handled exactly
    once, as the parse of its payload, however the reads cut it. *)
Theorem ReadMessages_one_frame (M : Z) (payload : list byte) (msg : Msg)
    (reads : list (list byte)) :
  int64_len payload <= M -> int64_range (M + IntLen) ->
  int64_len payload < 2 ^ 32 ->
  b_Parse payload = Some msg ->
  concat reads = PackBytes payload ->
  ReadMessages_loop M reads [] = ([(payload, msg)], ReadError).
Proof.
  intros HM Hr Hlen Hparse Hc.
  apply ReadMessages_one_frame_from; try done.
  unfold PackBytes. rewrite length_app. simpl. lia.
Qed.

(** One frame at most is unpacked per read: the frames given to the
    parser are never more than the reads that returned. *)
Lemma ReadMessages_at_most_one_per_read (M : Z) (reads : list (list byte))
    (pending : list byte) :
  (length (parsed_frames (ReadMessages_loop M reads pending)) <= length reads)%nat.
Proof.
  revert pending. induction reads as [|read reads IH]; intros pending; simpl.
  { unfold parsed_frames. simpl. lia. }
  destruct (UnpackBytes (pending ++ read)) as [[msgBytes rest]|].
  - destruct (int64_len msgBytes >? M); [unfold parsed_frames; simpl; lia|].
    destruct (b_Parse msgBytes) as [msg|]; [|unfold parsed_frames; simpl; lia].
    specialize (IH rest).
    destruct (ReadMessages_loop M reads rest) as [handled e].
    rewrite parsed_frames_cons. simpl. lia.
  - destruct (int64_len (pending ++ read) >? wrap64 (M + IntLen)).
    + unfold parsed_frames. simpl. lia.
    + specialize (IH (pending ++ read)). lia.
Qed.

(** X5. What follows a frame in the same read is not looked at until
    another read returns: when a read brings a whole frame and more bytes
    after it, and the connection then ends, only that first frame is
    handled, even if a second whole frame was among the bytes. *)
Theorem ReadMessages_one_frame_per_read (M : Z) (payload rest : list byte)
    (msg : Msg) :
  int64_len payload <= M ->
  int64_len payload < 2 ^ 32 ->
  b_Parse payload = Some msg ->
  ReadMessages_loop M [PackBytes payload ++ rest] [] = ([(payload, msg)], ReadError).
Proof.
  intros HM Hlen Hparse. cbn [ReadMessages_loop app].
  rewrite (UnpackBytes_PackBytes payload rest Hlen).
  destruct (Z.gtb_spec (int64_len payload) M) as [?|_]; [lia|].
  by rewrite Hparse.
Qed.

End FRAMING_FACTS.

(** ** The send queue and its counters *)

Lemma wrap64_congr_eq (a b k : Z) : a = b + k * 2 ^ 64 -> wrap64 a = wrap64 b.
Proof.
  intros ->.
  destruct (wrap64_congr (b + k * 2 ^ 64)) as [k1 E1].
  destruct (wrap64_congr b) as [k2 E2].
  pose proof (wrap64_range (b + k * 2 ^ 64)) as R1.
  pose proof (wrap64_range b) as R2.
  unfold int64_range in *. lia.
Qed.

Lemma queue_bytes_app (q1 q2 : list (list byte)) :
  queue_bytes (q1 ++ q2) = queue_bytes q1 + queue_bytes q2.
Proof. induction q1 as [|f q1 IH]; simpl; [done | rewrite IH; lia]. Qed.

Lemma run_cons (h : loc) (a : action) (acts : list action) (w : World) :
  run h (a :: acts) w = run h acts (act h a w).
Proof. reflexivity. Qed.

(** What one action does to the queue and to the two counters: the frame
    accepted goes to the back, the frame dequeued comes from the front, and
    both counters move by the difference of their lengths. *)
Lemma act_summary (h : loc) (a : action) (w : World) :
  let acc := act_accepted h a w in
  let deq := act_dequeued h a w in
  let w' := act h a w in
  sender (w_heap w h) ++ acc = deq ++ sender (w_heap w' h)
  /\ (int64_range (pendingBytes (w_heap w h)) ->
      pendingBytes (w_heap w' h) =
        wrap64 (pendingBytes (w_heap w h) + queue_bytes acc - queue_bytes deq))
  /\ (int64_range (net_pendingBytes (w_net w)) ->
      net_pendingBytes (w_net w') =
        wrap64 (net_pendingBytes (w_net w) + queue_bytes acc - queue_bytes deq)).
Proof.
  assert (Hsame : forall x, int64_range x -> x = wrap64 (x + 0 - 0)).
  { intros x Hx. replace (x + 0 - 0) with x by lia. symmetry. by apply wrap64_id. }
  destruct a as [msg|ok|]; cbv zeta.
  - (* Send *)
    cbn [act act_accepted act_dequeued app].
    destruct (fst (Send msg h w)) eqn:Ht.
    + destruct (Send_true_counters msg h w Ht) as (Hn & Hp & Hs).
      cbv zeta in *. rewrite Hn, Hp, Hs. simpl queue_bytes.
      repeat split; intros _; f_equal; lia.
    + assert (Hheap : w_heap (snd (Send msg h w)) = w_heap w).
      { revert Ht. rewrite Send_eq.
        destruct (closed (w_heap w h)); [done|].
        destruct (dropMessagePeer h w); [done|]. cbv zeta.
        by destruct (sender_has_room (w_heap w h)). }
      rewrite Hheap, app_nil_r. simpl queue_bytes.
      split; [done|]. split; [apply Hsame|].
      intros Hr. rewrite (Send_false_unchanged msg h w Hr Ht). by apply Hsame.
  - (* a turn of the writer *)
    cbn [act act_accepted act_dequeued]. rewrite app_nil_r.
    destruct (writer_exited (w_heap w h)) eqn:Hx.
    { unfold WriteMessages_step. rewrite Hx. simpl queue_bytes.
      split; [done|]. split; apply Hsame. }
    destruct (sender (w_heap w h)) as [|f rest] eqn:Hs.
    + unfold WriteMessages_step. rewrite Hx, Hs. simpl queue_bytes.
      destruct (sender_closed (w_heap w h)).
      * match goal with |- context [Close h ?w0] =>
          destruct (Close_counters h h w0) as (-> & -> & ->) end.
        unfold set_peer. simpl. rewrite fn_lookup_insert. simpl. rewrite Hs.
        split; [done|]. split; apply Hsame.
      * rewrite Hs. split; [done|]. split; apply Hsame.
    + destruct (WriteMessages_step_dequeue ok h w f rest Hx Hs) as (Hn & Hp & Hq).
      cbv zeta in *. rewrite Hn, Hp, Hq. simpl queue_bytes.
      split; [done|]. split; intros _.
      * destruct (wrap64_congr (- int64_len f)) as [k Hk]. rewrite Hk.
        apply (wrap64_congr_eq _ _ k). lia.
      * destruct (wrap64_congr (- int64_len f)) as [k Hk]. rewrite Hk.
        apply (wrap64_congr_eq _ _ k). lia.
  - (* Close *)
    cbn [act act_accepted act_dequeued]. rewrite app_nil_r.
    destruct (Close_counters h h w) as (-> & -> & ->). simpl queue_bytes.
    split; [done|]. split; apply Hsame.
Qed.

(** X6. The counter of a peer is the number of bytes in its send queue
    (as an int64), and stays so through every [Send], every turn of the
    writer and [Close]. *)
Theorem pendingBytes_counts_queue (h : loc) (acts : list action) (w : World) :
  pendingBytes (w_heap w h) = wrap64 (queue_bytes (sender (w_heap w h))) ->
  let w' := run h acts w in
  pendingBytes (w_heap w' h) = wrap64 (queue_bytes (sender (w_heap w' h))).
Proof.
  cbv zeta. revert w. induction acts as [|a acts IH]; intros w Hinv; [done|].
  rewrite run_cons. apply IH.
  destruct (act_summary h a w) as (Hq & Hp & _). cbv zeta in *.
  rewrite Hp by (rewrite Hinv; apply wrap64_range).
  apply (f_equal queue_bytes) in Hq. rewrite !queue_bytes_app in Hq.
  destruct (wrap64_congr (queue_bytes (sender (w_heap w h)))) as [k Hk].
  rewrite Hinv, Hk. apply (wrap64_congr_eq _ _ k). lia.
Qed.

(** X7. The network-wide counter moves with the counter of the peer:
    through every [Send], turn of the writer and [Close] on a peer, the
    difference of the two counters stays what it was (as an int64). *)
Theorem net_pendingBytes_follows_peer (h : loc) (acts : list action) (w : World) :
  int64_range (pendingBytes (w_heap w h)) ->
  int64_range (net_pendingBytes (w_net w)) ->
  let w' := run h acts w in
  wrap64 (net_pendingBytes (w_net w') - pendingBytes (w_heap w' h))
  = wrap64 (net_pendingBytes (w_net w) - pendingBytes (w_heap w h)).
Proof.
  cbv zeta. revert w. induction acts as [|a acts IH]; intros w Hp Hn; [done|].
  rewrite run_cons.
  destruct (act_summary h a w) as (_ & Hp' & Hn'). cbv zeta in *.
  specialize (Hp' Hp). specialize (Hn' Hn).
  rewrite IH by (rewrite ?Hp', ?Hn'; apply wrap64_range).
  rewrite Hp', Hn'.
  match goal with |- context [wrap64 (?a + ?x - ?y) - wrap64 (?b + ?x - ?y)] =>
    destruct (wrap64_congr (a + x - y)) as [k1 ->];
    destruct (wrap64_congr (b + x - y)) as [k2 ->] end.
  apply (wrap64_congr_eq _ _ (k1 - k2)). lia.
Qed.

(** X8. The queue is first in, first out and loses nothing: the frames
    that were in the queue, followed by the frames of the [Send]s that
    returned true, in their order, are the frames the writer has received,
    in their order, followed by the frames still in the queue. *)
Theorem sender_fifo (h : loc) (acts : list action) (w : World) :
  sender (w_heap w h) ++ run_accepted h acts w
  = run_dequeued h acts w ++ sender (w_heap (run h acts w) h).
Proof.
  revert w. induction acts as [|a acts IH]; intros w.
  { simpl. by rewrite app_nil_r. }
  rewrite run_cons. cbn [run_accepted run_dequeued].
  destruct (act_summary h a w) as (Hq & _). cbv zeta in Hq.
  rewrite app_assoc, Hq, <- !app_assoc. f_equal. apply IH.
Qed.

(** X9. After [Close] a [Send] returns false and changes nothing. *)
Theorem Send_after_Close (msg : Msg) (h : loc) (w : World) :
  (once (w_heap w h) = true -> closed (w_heap w h) = true) ->
  Send msg h (Close h w) = (false, Close h w).
Proof.
  intros Hwf. unfold Send. by rewrite (Close_closed h w Hwf).
Qed.

(** X10. [Close] is idempotent: a second [Close] changes nothing, and the
    Network is told of the disconnection once. *)
Theorem Close_idempotent (h : loc) (w : World) :
  Close h (Close h w) = Close h w
  /\ (once (w_heap w h) = false ->
      net_hooks (w_net (Close h (Close h w)))
      = HookDisconnected h :: net_hooks (w_net w)).
Proof.
  assert (Hi : Close h (Close h w) = Close h w).
  { unfold Close at 1. by rewrite Close_once. }
  split; [done|]. intros Ho. rewrite Hi. by apply Close_first.
Qed.

(** ** [Tx]: syntactic and semantic verification *)

Lemma verify_creds_None (creds : list avm.Verifiable) :
  avm.verify_creds creds = None <-> Forall (fun c => avm.Verify c = None) creds.
Proof.
  induction creds as [|c creds IH]; simpl.
  - split; [constructor | done].
  - destruct (avm.Verify c) eqn:Hc.
    + split; [done|]. intros Hall. inversion Hall; congruence.
    + rewrite IH. split; [by constructor | intros Hall; by inversion Hall].
Qed.

(** X11. On a transaction that has not been verified before,
    [SyntacticVerify] returns nil exactly when the unsigned transaction
    verifies, every credential verifies, and there are as many credentials
    as the unsigned transaction asks for. *)
Theorem SyntacticVerify_nil_iff (tx : avm.Tx) (utx : avm.UnsignedTx) :
  avm.unsignedTx tx = Some utx ->
  avm.verifiedTx tx = false ->
  fst (avm.SyntacticVerify (Some tx)) = None <->
  avm.utx_SyntacticVerify utx = None
  /\ Forall (fun c => avm.Verify c = None) (avm.Creds tx)
  /\ avm.NumCredentials utx = Z.of_nat (length (avm.Creds tx)).
Proof.
  intros Hu Hv. rewrite <- verify_creds_None.
  unfold avm.SyntacticVerify. rewrite Hu, Hv.
  destruct (avm.utx_SyntacticVerify utx); [simpl; intuition discriminate|].
  cbn [avm.Creds avm.with_verifiedTx].
  destruct (avm.verify_creds (avm.Creds tx)); [simpl; intuition discriminate|].
  destruct (Z.eqb_spec (avm.NumCredentials utx) (Z.of_nat (length (avm.Creds tx))));
    simpl; intuition discriminate.
Qed.

(** X12. [SyntacticVerify] answers from its cache: on a transaction whose
    validity is nil as long as it has not been verified, a second call
    returns what the first returned and leaves the transaction as the first
    left it. *)
Theorem SyntacticVerify_idempotent (t : option avm.Tx) :
  (forall tx, t = Some tx -> avm.verifiedTx tx = false -> avm.validity tx = None) ->
  avm.SyntacticVerify (snd (avm.SyntacticVerify t)) = avm.SyntacticVerify t.
Proof.
  intros Hinv. destruct t as [tx|]; [|done].
  specialize (Hinv tx eq_refl).
  unfold avm.SyntacticVerify at 2 3.
  destruct (avm.unsignedTx tx) as [utx|] eqn:Hu; cbn [snd].
  2:{ unfold avm.SyntacticVerify. by rewrite Hu. }
  destruct (avm.verifiedTx tx) eqn:Hv; cbn [snd].
  { unfold avm.SyntacticVerify. by rewrite Hu, Hv. }
  specialize (Hinv eq_refl).
  destruct (avm.utx_SyntacticVerify utx); cbn [snd].
  { unfold avm.SyntacticVerify. simpl. by rewrite Hu. }
  cbn [avm.Creds avm.with_verifiedTx].
  destruct (avm.verify_creds (avm.Creds tx)); cbn [snd].
  { unfold avm.SyntacticVerify. simpl. by rewrite Hu. }
  destruct (negb _); cbn [snd].
  { unfold avm.SyntacticVerify. simpl. by rewrite Hu. }
  unfold avm.SyntacticVerify. simpl. by rewrite Hu, Hinv.
Qed.

(** X13. A syntactic failure is final while the transaction is processing.
    The status read for a transaction is [Processing] (its own status is
    [Unknown] and the database has it as processing), and its unsigned part
    fails its syntactic check. Then [Verify] returns
    [errInitialStatesNotSortedUnique] without asking the semantic check,
    publishes nothing and does not mark the state verified; and every later
    [Verify] at which the status read is still [Processing] returns the
    same, whatever the semantic check would answer then. *)
Theorem Verify_syntactic_failure_final (vm : avm_tx.VM) (t : avm_tx.TxS)
    (utx : avm.UnsignedTx) (err : avm.error) :
  avm.unsignedTx (avm_tx.tx t) = Some utx ->
  avm.verifiedTx (avm_tx.tx t) = false ->
  avm.utx_SyntacticVerify utx = Some err ->
  avm_tx.Status_of vm t = Some avm_tx.Processing ->
  exists t',
    avm_tx.Verify vm t = Some (Some avm.errInitialStatesNotSortedUnique, t', false)
    /\ avm.verifiedState (avm_tx.tx t') = avm.verifiedState (avm_tx.tx t)
    /\ avm_tx.status t' = avm_tx.status t
    /\ forall vm' : avm_tx.VM,
         avm_tx.Status_of vm' t' = Some avm_tx.Processing ->
         avm_tx.Verify vm' t'
         = Some (Some avm.errInitialStatesNotSortedUnique, t', false).
Proof.
  intros Hu Hv He Hs.
  eexists. split; [|split; [|split]].
  - unfold avm_tx.Verify, avm_tx.verifyWithoutCacheWrites.
    rewrite Hs. cbn [mbind option_bind].
    unfold avm_tx.SemanticVerify, avm.SyntacticVerify. rewrite Hu, Hv, He.
    simpl. reflexivity.
  - reflexivity.
  - reflexivity.
  - intros vm' Hs'.
    unfold avm_tx.Verify, avm_tx.verifyWithoutCacheWrites.
    rewrite Hs'. cbn [mbind option_bind].
    unfold avm_tx.SemanticVerify, avm.SyntacticVerify. simpl. rewrite Hu.
    simpl. reflexivity.
Qed.

(** What [Verify] returns when the status read is not [Processing]: the
    status alone decides, and neither check is asked. *)
Lemma Verify_by_status (vm : avm_tx.VM) (t : avm_tx.TxS) (st : avm_tx.Status) :
  avm_tx.Status_of vm t = Some st ->
  match st with
  | avm_tx.Unknown =>
      avm_tx.Verify vm t = Some (Some avm_tx.errUnknownTx, t, false)
  | avm_tx.Rejected =>
      avm_tx.Verify vm t = Some (Some avm_tx.errRejectedTx, t, false)
  | avm_tx.Accepted =>
      is_Some (avm.unsignedTx (avm_tx.tx t)) ->
      avm_tx.Verify vm t
      = Some (None, avm_tx.with_tx (avm_tx.with_verifiedState true (avm_tx.tx t)) t,
              true)
  | avm_tx.Processing => True
  end.
Proof.
  intros Hs. unfold avm_tx.Verify, avm_tx.verifyWithoutCacheWrites.
  rewrite Hs. cbn [mbind option_bind].
  destruct st; try done. intros [utx ->]. reflexivity.
Qed.

(** After [SyntacticVerify] the transaction is nil inside or marked as
    verified. *)
Lemma SyntacticVerify_marks (tx : avm.Tx) :
  exists tx1,
    snd (avm.SyntacticVerify (Some tx)) = Some tx1
    /\ (avm.unsignedTx tx1 = None \/ avm.verifiedTx tx1 = true).
Proof.
  unfold avm.SyntacticVerify.
  destruct (avm.unsignedTx tx) eqn:Hu; [|eauto].
  destruct (avm.verifiedTx tx) eqn:Hv; [eauto|].
  destruct (avm.utx_SyntacticVerify u); [eauto|].
  destruct (avm.verify_creds _); [eauto|].
  destruct (negb _); eauto.
Qed.

(** On such a transaction [SyntacticVerify] changes nothing, whatever
    [verifiedState] is. *)
Lemma SyntacticVerify_marked (tx : avm.Tx) :
  avm.unsignedTx tx = None \/ avm.verifiedTx tx = true ->
  snd (avm.SyntacticVerify (Some (avm_tx.with_verifiedState true tx)))
  = Some (avm_tx.with_verifiedState true tx).
Proof.
  intros Hm. unfold avm.SyntacticVerify. simpl.
  destruct (avm.unsignedTx tx); [|done].
  destruct Hm as [?| ->]; done.
Qed.

(** A [SemanticVerify] that returns nil leaves a transaction that is
    marked, with a nil validity. *)
Lemma SemanticVerify_nil (vm : avm_tx.VM) (t t1 : avm_tx.TxS) :
  avm_tx.SemanticVerify vm t = Some (None, t1) ->
  avm_tx.status t1 = avm_tx.status t
  /\ avm.validity (avm_tx.tx t1) = None
  /\ (avm.unsignedTx (avm_tx.tx t1) = None \/ avm.verifiedTx (avm_tx.tx t1) = true).
Proof.
  unfold avm_tx.SemanticVerify.
  destruct (SyntacticVerify_marks (avm_tx.tx t)) as (tx1 & -> & Hm).
  simpl. case_bool_decide as Hval; simpl.
  - intros [= Hnil <-]. simpl. done.
  - destruct (avm.verifiedState tx1).
    + intros [= _ <-]. simpl. done.
    + destruct (avm.unsignedTx tx1) eqn:Hu; [|done]. intros [= _ <-]. simpl.
      split; [done|]. split; [done|]. right. by destruct Hm.
Qed.

(** X14. A successful [Verify] of a processing transaction is cached. The
    status read for a transaction is [Processing] and [Verify] returns nil.
    Then every later [Verify] at which the status read is [Processing] or
    [Accepted] returns nil and publishes again, without asking the semantic
    check, whatever that check would answer then. *)
Theorem Verify_success_cached (vm vm' : avm_tx.VM) (t t' : avm_tx.TxS) :
  avm_tx.Status_of vm t = Some avm_tx.Processing ->
  avm_tx.Verify vm t = Some (None, t', true) ->
  avm_tx.Status_of vm' t' = Some avm_tx.Processing
    \/ avm_tx.Status_of vm' t' = Some avm_tx.Accepted ->
  avm_tx.Verify vm' t' = Some (None, t', true).
Proof.
  intros Hs. unfold avm_tx.Verify at 1.
  unfold avm_tx.verifyWithoutCacheWrites.
  rewrite Hs. cbn [mbind option_bind].
  destruct (avm_tx.SemanticVerify vm t) as [[[e|] t1]|] eqn:Hsem; try discriminate.
  destruct (avm.unsignedTx (avm_tx.tx t1)) as [utx|] eqn:Hu; [|discriminate].
  cbn [mbind option_bind]. intros [= <-].
  apply SemanticVerify_nil in Hsem as (Hs1 & Hval & Hm).
  intros [Hs'|Hs'];
    unfold avm_tx.Verify, avm_tx.verifyWithoutCacheWrites;
    rewrite Hs'; cbn [mbind option_bind].
  - unfold avm_tx.SemanticVerify. cbn [avm_tx.tx avm_tx.with_tx].
    rewrite (SyntacticVerify_marked _ Hm).
    cbn [avm_tx.tx avm_tx.with_tx avm.verifiedState avm_tx.with_verifiedState
         avm.validity avm.unsignedTx].
    rewrite orb_true_r, Hval.
    cbn [avm_tx.tx avm_tx.with_tx avm_tx.with_verifiedState avm.unsignedTx].
    rewrite Hu. reflexivity.
  - cbn [avm_tx.tx avm_tx.with_tx avm_tx.with_verifiedState avm.unsignedTx].
    rewrite Hu. reflexivity.
Qed.

(** ** [Tx.Dependencies] *)

Lemma deps_input_inv (st : gset N * list N) (input : avm_tx.UTXOID) :
  avm_tx.deps_inv st -> avm_tx.deps_inv (avm_tx.deps_input st input).
Proof.
  intros [Hnd Hset]. unfold avm_tx.deps_input.
  destruct (avm_tx.Symbolic input); [done|].
  case_bool_decide as Hin; [done|]. split; simpl.
  - apply list.NoDup_app. split; [done|]. split; [|apply NoDup_singleton].
    intros x Hx Hx'. apply list_elem_of_singleton in Hx'. subst.
    apply Hin, Hset, Hx.
  - intros x. rewrite elem_of_union, elem_of_singleton, elem_of_app,
      list_elem_of_singleton, Hset. tauto.
Qed.

Lemma deps_asset_inv (consumed : gset N) (st : gset N * list N) (a : N) :
  avm_tx.deps_inv st -> avm_tx.deps_inv (avm_tx.deps_asset consumed st a).
Proof.
  intros [Hnd Hset]. unfold avm_tx.deps_asset.
  destruct (bool_decide (a ∈ consumed)); [done|]. simpl.
  case_bool_decide as Hin; [done|]. split; simpl.
  - apply list.NoDup_app. split; [done|]. split; [|apply NoDup_singleton].
    intros x Hx Hx'. apply list_elem_of_singleton in Hx'. subst.
    apply Hin, Hset, Hx.
  - intros x. rewrite elem_of_union, elem_of_singleton, elem_of_app,
      list_elem_of_singleton, Hset. tauto.
Qed.

Lemma deps_inputs_elem (inputs : list avm_tx.UTXOID) (st : gset N * list N) (x : N) :
  avm_tx.deps_inv st ->
  avm_tx.deps_inv (foldl avm_tx.deps_input st inputs)
  /\ (x ∈ (foldl avm_tx.deps_input st inputs).2 <->
      x ∈ st.2
      \/ exists i, i ∈ inputs /\ avm_tx.Symbolic i = false
                   /\ avm_tx.InputSource i = x).
Proof.
  revert st. induction inputs as [|i inputs IH]; intros st Hinv; simpl.
  { split; [done|]. split; [tauto|]. intros [?|(i & Hi & _)]; [done|].
    by apply elem_of_nil in Hi. }
  destruct (IH _ (deps_input_inv st i Hinv)) as [Hinv' Hel].
  split; [done|]. rewrite Hel. clear Hel IH.
  destruct Hinv as [_ Hset].
  unfold avm_tx.deps_input at 1.
  destruct (avm_tx.Symbolic i) eqn:Hsym.
  - split.
    + intros [?|(j & Hj & ? & ?)]; [tauto|]. right. exists j.
      split; [by apply elem_of_cons; right | done].
    + intros [?|(j & Hj & Hs & ?)]; [tauto|].
      apply elem_of_cons in Hj as [->|Hj]; [congruence|]. right. by exists j.
  - case_bool_decide as Hin; simpl.
    + split.
      * intros [?|(j & Hj & ? & ?)]; [tauto|]. right. exists j.
        split; [by apply elem_of_cons; right | done].
      * intros [?|(j & Hj & Hs & Hx)]; [tauto|].
        apply elem_of_cons in Hj as [->|Hj]; [|right; by exists j].
        left. subst x. by apply Hset.
    + rewrite elem_of_app, list_elem_of_singleton. split.
      * intros [[?| ->]|(j & Hj & ? & ?)]; [tauto| |].
        -- right. exists i. split; [by apply elem_of_cons; left | done].
        -- right. exists j. split; [by apply elem_of_cons; right | done].
      * intros [?|(j & Hj & Hs & Hx)]; [tauto|].
        apply elem_of_cons in Hj as [->|Hj]; [by left; right|].
        right. by exists j.
Qed.

Lemma deps_assets_elem (consumed : gset N) (assets : list N)
    (st : gset N * list N) (x : N) :
  avm_tx.deps_inv st ->
  avm_tx.deps_inv (foldl (avm_tx.deps_asset consumed) st assets)
  /\ (x ∈ (foldl (avm_tx.deps_asset consumed) st assets).2 <->
      x ∈ st.2 \/ (x ∈ assets /\ x ∉ consumed)).
Proof.
  revert st. induction assets as [|a assets IH]; intros st Hinv; simpl.
  { split; [done|]. split; [tauto|]. intros [?|[Hi _]]; [done|].
    by apply elem_of_nil in Hi. }
  destruct (IH _ (deps_asset_inv consumed st a Hinv)) as [Hinv' Hel].
  split; [done|]. rewrite Hel. clear Hel IH.
  destruct Hinv as [_ Hset]. rewrite elem_of_cons.
  unfold avm_tx.deps_asset at 1.
  case_bool_decide as Hc; simpl.
  { split; [tauto|]. intros [?|[[->|?] ?]]; tauto. }
  case_bool_decide as Hin; simpl.
  - split; [tauto|]. intros [?|[[->|?] ?]]; [tauto| |tauto].
    left. by apply Hset.
  - rewrite elem_of_app, list_elem_of_singleton. split.
    + intros [[?| ->]|?]; tauto.
    + intros [?|[[->|?] ?]]; tauto.
Qed.

(** X15. With an empty cache [Dependencies] returns, without duplicates,
    exactly the transactions that the inputs which are not symbolic come
    from and the asset ids that the transaction does not consume itself. *)
Theorem Dependencies_exact (inputUTXOs : list avm_tx.UTXOID)
    (consumedIDs : gset N) (assetIDs : list N) (t : avm_tx.TxS) :
  avm_tx.deps t = [] ->
  let r := fst (avm_tx.Dependencies inputUTXOs consumedIDs assetIDs t) in
  NoDup r
  /\ forall x, x ∈ r <->
       (exists i, i ∈ inputUTXOs /\ avm_tx.Symbolic i = false
                  /\ avm_tx.InputSource i = x)
       \/ (x ∈ assetIDs /\ x ∉ consumedIDs).
Proof.
  intros Hd r. subst r. unfold avm_tx.Dependencies. rewrite Hd. cbn [length Nat.eqb negb fst].
  assert (H0 : avm_tx.deps_inv (∅, [])).
  { split; [constructor|]. intros x. simpl. rewrite elem_of_nil. set_solver. }
  split.
  - destruct (deps_inputs_elem inputUTXOs (∅, []) 0%N H0) as [Hi _].
    by destruct (deps_assets_elem consumedIDs assetIDs _ 0%N Hi) as [[Hnd _] _].
  - intros x.
    destruct (deps_inputs_elem inputUTXOs (∅, []) x H0) as [Hi Hel].
    destruct (deps_assets_elem consumedIDs assetIDs _ x Hi) as [_ Hel'].
    rewrite Hel', Hel. simpl. rewrite elem_of_nil. tauto.
Qed.

(** X16. [Dependencies] keeps what it returns: the slice returned is the
    cache of the transaction afterwards, and a second call returns the
    same slice. *)
Theorem Dependencies_cached (inputUTXOs : list avm_tx.UTXOID)
    (consumedIDs : gset N) (assetIDs : list N) (t : avm_tx.TxS) :
  let '(r, t') := avm_tx.Dependencies inputUTXOs consumedIDs assetIDs t in
  avm_tx.deps t' = r
  /\ avm_tx.Dependencies inputUTXOs consumedIDs assetIDs t' = (r, t').
Proof.
  unfold avm_tx.Dependencies.
  destruct (length (avm_tx.deps t) =? 0)%nat eqn:Hl; cbn [negb].
  2:{ split; [done|]. by rewrite Hl. }
  apply Nat.eqb_eq in Hl. apply length_zero_iff_nil in Hl.
  cbn [avm_tx.deps avm_tx.with_deps]. split; [done|].
  rewrite Hl.
  set (r := (foldl (avm_tx.deps_asset consumedIDs)
               (foldl avm_tx.deps_input (∅, []) inputUTXOs) assetIDs).2).
  destruct r as [|x r'] eqn:Hr; cbn [length Nat.eqb negb].
  - fold r. rewrite Hr. done.
  - done.
Qed.

(** ** [Tx.Accept] *)

Lemma all_ok_app (ok : list avm_tx.vm_call -> avm_tx.vm_call -> bool)
    (calls a b : list avm_tx.vm_call) :
  avm_tx.all_ok ok calls (a ++ b)
  = avm_tx.all_ok ok calls a && avm_tx.all_ok ok (calls ++ a) b.
Proof.
  revert calls. induction a as [|c a IH]; intros calls; simpl.
  - by rewrite app_nil_r.
  - rewrite IH, <- app_assoc. simpl. by rewrite andb_assoc.
Qed.

Lemma spend_all_spec (ok : list avm_tx.vm_call -> avm_tx.vm_call -> bool)
    (inputUTXOs : list avm_tx.UTXOID) (calls : list avm_tx.vm_call) :
  match avm_tx.spend_all ok inputUTXOs calls with
  | (None, calls') =>
      calls' = calls ++ avm_tx.spends inputUTXOs
      /\ avm_tx.all_ok ok calls (avm_tx.spends inputUTXOs) = true
  | (Some err, _) => exists u, err = avm_tx.ErrCall (avm_tx.SpendUTXO u)
  end.
Proof.
  revert calls. unfold avm_tx.spends.
  induction inputUTXOs as [|u inputUTXOs IH]; intros calls; simpl.
  - by rewrite app_nil_r.
  - destruct (avm_tx.Symbolic u); simpl; [apply IH|].
    destruct (ok calls (avm_tx.SpendUTXO (avm_tx.InputID u))) eqn:Hok; [|eauto].
    specialize (IH (calls ++ [avm_tx.SpendUTXO (avm_tx.InputID u)])).
    destruct (avm_tx.spend_all ok inputUTXOs _) as [[e|] calls']; [done|].
    destruct IH as (-> & Hall). rewrite <- app_assoc. by simpl.
Qed.

Lemma fund_all_spec (ok : list avm_tx.vm_call -> avm_tx.vm_call -> bool)
    (utxos : list N) (calls : list avm_tx.vm_call) :
  match avm_tx.fund_all ok utxos calls with
  | (None, calls') =>
      calls' = calls ++ avm_tx.funds utxos
      /\ avm_tx.all_ok ok calls (avm_tx.funds utxos) = true
  | (Some err, _) => exists u, err = avm_tx.ErrCall (avm_tx.FundUTXO u)
  end.
Proof.
  revert calls. unfold avm_tx.funds.
  induction utxos as [|u utxos IH]; intros calls; simpl.
  - by rewrite app_nil_r.
  - destruct (ok calls (avm_tx.FundUTXO u)) eqn:Hok; [|eauto].
    specialize (IH (calls ++ [avm_tx.FundUTXO u])).
    destruct (avm_tx.fund_all ok utxos _) as [[e|] calls']; [done|].
    destruct IH as (-> & Hall). rewrite <- app_assoc. by simpl.
Qed.

(** What [Accept] has done when it returns after the status check: the
    inputs are spent and the new UTXOs funded, then come the calls of
    [steps] up to the first that fails; nil is returned when none
    fails. *)
Lemma Accept_body_spec (ok : list avm_tx.vm_call -> avm_tx.vm_call -> bool)
    (inputUTXOs : option (list avm_tx.UTXOID)) (utxos : option (list N))
    (t t' : avm_tx.TxS) (calls calls' : list avm_tx.vm_call)
    (err : option avm_tx.accept_error) :
  avm_tx.status t <> avm_tx.Accepted ->
  avm_tx.Accept_body ok inputUTXOs utxos t calls = Some (err, t', calls') ->
  let steps := [avm_tx.SetStatus avm_tx.Accepted; avm_tx.CommitBatch;
                avm_tx.ExecuteWithSideEffects] in
  (exists u, err = Some (avm_tx.ErrCall (avm_tx.SpendUTXO u)))
  \/ (exists u, err = Some (avm_tx.ErrCall (avm_tx.FundUTXO u)))
  \/ exists inputs us,
       inputUTXOs = Some inputs /\ utxos = Some us
       /\ is_Some (avm.unsignedTx (avm_tx.tx t))
       /\ let done := avm_tx.spends inputs ++ avm_tx.funds us in
          (err = None
           /\ t' = avm_tx.with_deps [] (avm_tx.with_status avm_tx.Accepted t)
           /\ calls' = calls ++ done ++ steps ++ [avm_tx.Publish "accepted"]
           /\ avm_tx.all_ok ok calls (done ++ steps) = true)
          \/ exists n c,
               err = Some (avm_tx.ErrCall c)
               /\ steps !! n = Some c
               /\ t' = avm_tx.with_status avm_tx.Accepted t
               /\ calls' = calls ++ done ++ take (S n) steps
               /\ avm_tx.all_ok ok calls (done ++ take n steps) = true
               /\ ok (calls ++ done ++ take n steps) c = false.
Proof.
  intros Hst. unfold avm_tx.Accept_body.
  destruct inputUTXOs as [inputs|]; [|done]. cbn [mbind option_bind].
  pose proof (spend_all_spec ok inputs calls) as Hsp.
  destruct (avm_tx.spend_all ok inputs calls) as [[e|] calls1].
  { intros [= <- _ _]. destruct Hsp as (u & ->). left. eauto. }
  destruct Hsp as (-> & Hok1).
  destruct utxos as [us|]; [|done]. cbn [mbind option_bind].
  pose proof (fund_all_spec ok us (calls ++ avm_tx.spends inputs)) as Hfu.
  destruct (avm_tx.fund_all ok us _) as [[e|] calls2].
  { intros [= <- _ _]. destruct Hfu as (u & ->). right. left. eauto. }
  destruct Hfu as (-> & Hok2).
  unfold avm_tx.setStatus. rewrite bool_decide_eq_false_2 by done.
  cbn [avm_tx.tx avm_tx.with_status].
  destruct (avm.unsignedTx (avm_tx.tx t)) as [utx|] eqn:Hu; [|done].
  cbn [mbind option_bind]. unfold avm_tx.do_call. cbn [mbind option_bind].
  assert (Hdone : avm_tx.all_ok ok calls (avm_tx.spends inputs ++ avm_tx.funds us) = true).
  { by rewrite all_ok_app, Hok1, Hok2. }
  rewrite <- (app_assoc calls).
  set (done := avm_tx.spends inputs ++ avm_tx.funds us) in *.
  destruct (ok (calls ++ done) (avm_tx.SetStatus avm_tx.Accepted)) eqn:Ho1;
    cbn [negb].
  2: { intros [= <- <- <-]. right; right; exists inputs, us; do 3 (split; [by eauto|]); fold done. right.
       exists 0%nat, (avm_tx.SetStatus avm_tx.Accepted).
       simpl. rewrite !app_nil_r. by rewrite <- app_assoc. }
  cbn [avm_tx.tx avm_tx.with_status]. rewrite Hu. cbn [mbind option_bind].
  destruct (ok ((calls ++ done) ++ [avm_tx.SetStatus avm_tx.Accepted]) avm_tx.CommitBatch)
    eqn:Ho2; cbn [negb].
  2: { intros [= <- <- <-]. right; right; exists inputs, us; do 3 (split; [by eauto|]); fold done. right. exists 1%nat, avm_tx.CommitBatch.
       simpl. rewrite all_ok_app, Hdone. simpl. rewrite Ho1.
       rewrite <- !app_assoc in *. simpl in *. by rewrite Ho2. }
  destruct (ok (((calls ++ done) ++ [avm_tx.SetStatus avm_tx.Accepted])
                  ++ [avm_tx.CommitBatch]) avm_tx.ExecuteWithSideEffects)
    eqn:Ho3; cbn [negb].
  2: { intros [= <- <- <-]. right; right; exists inputs, us; do 3 (split; [by eauto|]); fold done. right.
       exists 2%nat, avm_tx.ExecuteWithSideEffects.
       simpl. rewrite all_ok_app, Hdone. simpl. rewrite Ho1, Ho2.
       rewrite <- !app_assoc in *. simpl in *. by rewrite Ho3. }
  intros [= <- <- <-]. right; right; exists inputs, us; do 3 (split; [by eauto|]); fold done. left.
  rewrite all_ok_app, Hdone. simpl. rewrite Ho1, Ho2, Ho3.
  rewrite <- !app_assoc. by simpl.
Qed.

Lemma Status_of_Processing (vm : avm_tx.VM) (t : avm_tx.TxS) :
  avm_tx.Status_of vm t = Some avm_tx.Processing ->
  avm_tx.status t <> avm_tx.Accepted.
Proof.
  unfold avm_tx.Status_of. case_bool_decide as Hs.
  - intros [= ->]. done.
  - intros _. by rewrite Hs.
Qed.

(** X29. What a successful [Accept] has done. When [Accept] returns nil,
    the transaction was processing; the calls it has made are, in this
    order: [SpendUTXO] for every input that is not symbolic, [FundUTXO]
    for every new UTXO, [SetStatus], [CommitBatch],
    [ExecuteWithSideEffects], the publication of "accepted", and the
    deferred [Abort] of the database, which comes after the commit; every
    one of them that returns an error has returned nil; and the
    transaction has the status [Accepted] and no cached dependencies. *)
Theorem Accept_nil_calls (ok : list avm_tx.vm_call -> avm_tx.vm_call -> bool)
    (vm : avm_tx.VM) (inputUTXOs : option (list avm_tx.UTXOID))
    (utxos : option (list N)) (t t' : avm_tx.TxS)
    (calls calls' : list avm_tx.vm_call) :
  avm_tx.Accept ok vm inputUTXOs utxos t calls = Some (None, t', calls') ->
  exists inputs us,
    inputUTXOs = Some inputs /\ utxos = Some us
    /\ avm_tx.Status_of vm t = Some avm_tx.Processing
    /\ t' = avm_tx.with_deps [] (avm_tx.with_status avm_tx.Accepted t)
    /\ let new := avm_tx.spends inputs ++ avm_tx.funds us
                  ++ [avm_tx.SetStatus avm_tx.Accepted; avm_tx.CommitBatch;
                      avm_tx.ExecuteWithSideEffects; avm_tx.Publish "accepted";
                      avm_tx.Abort] in
       calls' = calls ++ new /\ avm_tx.all_ok ok calls new = true.
Proof.
  unfold avm_tx.Accept.
  destruct (avm_tx.Status_of vm t) as [s|] eqn:Hs; [|done].
  cbn [mbind option_bind]. case_bool_decide as Hp.
  { by destruct (avm.unsignedTx (avm_tx.tx t)). }
  subst s.
  destruct (avm_tx.Accept_body ok inputUTXOs utxos t calls)
    as [[[err t1] calls1]|] eqn:Hb; [|done].
  cbn [mbind option_bind]. intros [= -> <- <-].
  apply Accept_body_spec in Hb; [|by eapply Status_of_Processing].
  destruct Hb as [(? & [=])|[(? & [=])|(inputs & us & -> & -> & _ & Hb)]].
  destruct Hb as [(_ & -> & -> & Hall)|(? & ? & [=] & _)].
  exists inputs, us. do 4 (split; [done|]). cbv zeta. split.
  - rewrite <- !app_assoc. by simpl.
  - rewrite app_assoc, all_ok_app.
    rewrite all_ok_app in Hall. apply andb_prop in Hall as (H1 & H2).
    rewrite H1. simpl in *.
    repeat (apply andb_prop in H2 as (-> & H2)). done.
Qed.

(** X30. An [Accept] that fails late leaves the transaction accepted in
    memory. When [SetStatus], [CommitBatch] or [ExecuteWithSideEffects]
    returns an error, [Accept] returns it; nothing has been published and
    the last call is the [Abort] of the database; but the status of the
    transaction has been set to [Accepted] before, and stays: from then on
    [Verify] returns nil and publishes "verified" without looking at the
    database, and another [Accept] fails on the status without a call. *)
Theorem Accept_failure_keeps_Accepted
    (ok : list avm_tx.vm_call -> avm_tx.vm_call -> bool)
    (vm : avm_tx.VM) (inputUTXOs : option (list avm_tx.UTXOID))
    (utxos : option (list N)) (t t' : avm_tx.TxS)
    (calls calls' : list avm_tx.vm_call) (c : avm_tx.vm_call) :
  avm_tx.Accept ok vm inputUTXOs utxos t calls
    = Some (Some (avm_tx.ErrCall c), t', calls') ->
  c ∈ [avm_tx.SetStatus avm_tx.Accepted; avm_tx.CommitBatch;
       avm_tx.ExecuteWithSideEffects] ->
  avm_tx.Status_of vm t = Some avm_tx.Processing
  /\ t' = avm_tx.with_status avm_tx.Accepted t
  /\ list.last calls' = Some avm_tx.Abort
  /\ ((avm_tx.Publish "accepted") ∉ drop (length calls) calls')
  /\ (forall vm',
        avm_tx.Verify vm' t'
        = Some (None,
                avm_tx.with_tx (avm_tx.with_verifiedState true (avm_tx.tx t')) t',
                true))
  /\ (forall ok' vm' inputUTXOs' utxos' calls2,
        avm_tx.Accept ok' vm' inputUTXOs' utxos' t' calls2
        = Some (Some (avm_tx.ErrInvalidStatus avm_tx.Accepted), t', calls2)).
Proof.
  unfold avm_tx.Accept at 1.
  destruct (avm_tx.Status_of vm t) as [s|] eqn:Hs; [|done].
  cbn [mbind option_bind]. case_bool_decide as Hp.
  { by destruct (avm.unsignedTx (avm_tx.tx t)). }
  subst s.
  destruct (avm_tx.Accept_body ok inputUTXOs utxos t calls)
    as [[[err t1] calls1]|] eqn:Hb; [|done].
  cbn [mbind option_bind]. intros [= -> <- <-] Hc.
  apply Accept_body_spec in Hb; [|by eapply Status_of_Processing].
  destruct Hb as [(u & [= ->])|[(u & [= ->])|(inputs & us & -> & -> & [utx Hu] & Hb)]].
  { repeat (apply elem_of_cons in Hc as [Hc|Hc]; [discriminate|]).
    by apply elem_of_nil in Hc. }
  { repeat (apply elem_of_cons in Hc as [Hc|Hc]; [discriminate|]).
    by apply elem_of_nil in Hc. }
  destruct Hb as [([=] & _)|(n & c' & [= <-] & Hn & -> & -> & _ & _)].
  split; [done|]. split; [done|]. split; [apply last_snoc|].
  split.
  { rewrite <- !app_assoc, drop_app_length. unfold avm_tx.spends, avm_tx.funds.
    rewrite !elem_of_app. intros [Hin|[Hin|[Hin|Hin]]].
    - by apply list_elem_of_fmap in Hin as (? & [=] & _).
    - by apply list_elem_of_fmap in Hin as (? & [=] & _).
    - destruct n as [|[|[|n]]]; [| | |done]; simpl in Hin;
        repeat (apply elem_of_cons in Hin as [Hin|Hin]; [discriminate|]);
        by apply elem_of_nil in Hin.
    - apply list_elem_of_singleton in Hin. discriminate. }
  split.
  - intros vm'. unfold avm_tx.Verify, avm_tx.verifyWithoutCacheWrites,
      avm_tx.Status_of. simpl. by rewrite Hu.
  - intros ok' vm' inputUTXOs' utxos' calls2.
    unfold avm_tx.Accept, avm_tx.Status_of. simpl. by rewrite Hu.
Qed.

(** ** The transaction manager of the engine *)

Section TXMANAGER_FACTS.
Context {Tx Cache VMStore : Type}.
Context (Tx_ID : Tx -> N).
Context (cache_Get : Cache -> N -> option Tx).
Context (cache_Put : N -> Tx -> Cache -> Cache).
Context (vm_GetTx : VMStore -> N -> option Tx).
Context (vm_SaveTx : Tx -> VMStore -> VMStore * bool).

Local Abbreviation txManager := (@txmgr.txManager Tx Cache VMStore).
Local Abbreviation GetTx := (txmgr.GetTx cache_Get vm_GetTx).
Local Abbreviation SaveTx := (txmgr.SaveTx Tx_ID cache_Put vm_SaveTx).
Local Abbreviation PinTx := (txmgr.PinTx Tx_ID).

Lemma SaveTx_pinnedTxs (tx : Tx) (tm : txManager) :
  txmgr.pinnedTxs (fst (SaveTx tx tm)) = txmgr.pinnedTxs tm.
Proof. unfold txmgr.SaveTx. by destruct (vm_SaveTx tx (txmgr.vm tm)). Qed.

Lemma SaveTx_all_pinnedTxs (saved : list Tx) (tm : txManager) :
  txmgr.pinnedTxs (foldl (fun tm s => fst (SaveTx s tm)) tm saved)
  = txmgr.pinnedTxs tm.
Proof.
  revert tm. induction saved as [|s saved IH]; intros tm; [done|].
  simpl. by rewrite IH, SaveTx_pinnedTxs.
Qed.

(** X17. A pinned transaction is what [GetTx] returns under its id,
    whatever the cache and the storage hold and whatever is saved after
    the pin, a newer transaction of the same id included: [SaveTx] writes
    to the cache and the storage only, and [GetTx] asks the pins first. *)
Theorem GetTx_pinned (tx : Tx) (saved : list Tx) (tm : txManager) :
  GetTx (foldl (fun tm s => fst (SaveTx s tm)) (PinTx tx tm) saved) (Tx_ID tx)
  = Some tx.
Proof.
  unfold txmgr.GetTx. rewrite SaveTx_all_pinnedTxs. simpl.
  by rewrite lookup_insert_eq.
Qed.

Lemma PinTx_iter_frame (tx : Tx) (n : nat) (tm : txManager) :
  txmgr.txCache (Nat.iter n (PinTx tx) tm) = txmgr.txCache tm
  /\ txmgr.vm (Nat.iter n (PinTx tx) tm) = txmgr.vm tm
  /\ forall id', id' <> Tx_ID tx ->
       txmgr.pinnedTxs (Nat.iter n (PinTx tx) tm) !! id' = txmgr.pinnedTxs tm !! id'.
Proof.
  induction n as [|n (IHc & IHv & IHp)]; [done|].
  simpl. repeat split; [done..|].
  intros id' Hne. rewrite lookup_insert_ne by done. by apply IHp.
Qed.

(** X18. Pins are not counted. After one [UnpinTx] a transaction that was
    pinned any number of times is looked up in the cache and then in the
    storage again; the pins of other ids stay. *)
Theorem UnpinTx_not_counted (tx : Tx) (n : nat) (tm : txManager) :
  let id := Tx_ID tx in
  let tm' := txmgr.UnpinTx id (Nat.iter n (PinTx tx) tm) in
  GetTx tm' id =
    match cache_Get (txmgr.txCache tm) id with
    | Some t => Some t
    | None => vm_GetTx (txmgr.vm tm) id
    end
  /\ forall id', id' <> id -> GetTx tm' id' = GetTx tm id'.
Proof.
  intros id tm'. subst tm'.
  destruct (PinTx_iter_frame tx n tm) as (Hc & Hv & Hp).
  unfold txmgr.GetTx, txmgr.UnpinTx. simpl. rewrite Hc, Hv. split.
  - by rewrite lookup_delete_eq.
  - intros id' Hne. rewrite lookup_delete_ne by done. by rewrite Hp.
Qed.

End TXMANAGER_FACTS.

(** ** The vertex job of bootstrapping *)

Section JOB_FACTS.
Context (mgr_GetVertex : N -> option avm_tx.Status).
Context (GetTx : N -> option avm_tx.Status * bool).
Context (mgr_SaveVertex_ok : bool).

Local Abbreviation MissingDependencies := (bootstrap.MissingDependencies mgr_GetVertex).
Local Abbreviation txs_accepted := (bootstrap.txs_accepted GetTx).
Local Abbreviation Execute :=
  (bootstrap.Execute mgr_GetVertex GetTx mgr_SaveVertex_ok).

Lemma missing_fold (parents : list N) (acc : gset N) (x : N) :
  x ∈ foldl (fun missing parentID =>
               match mgr_GetVertex parentID with
               | Some avm_tx.Accepted => missing
               | _ => {[parentID]} ∪ missing
               end) acc parents
  <-> x ∈ acc \/ (x ∈ parents /\ mgr_GetVertex x <> Some avm_tx.Accepted).
Proof.
  revert acc. induction parents as [|p parents IH]; intros acc; simpl.
  - split; [by left|]. intros [?|[Hx _]]; [done|]. by apply elem_of_nil in Hx.
  - rewrite IH. rewrite elem_of_cons.
    destruct (mgr_GetVertex p) as [[]|] eqn:Hp;
      try (rewrite elem_of_union, elem_of_singleton;
           split; [intros [[->|?]|[? ?]]; [right; split; [by left|congruence] | by left | right; split; [by right|done]]
                  | intros [?|[[->|?] ?]]; [left; by right | left; by left | by right]]).
    split; [intros [?|[? ?]]; [by left | right; split; [by right|done]]|].
    intros [?|[[->|?] ?]]; [by left | congruence | by right].
Qed.

(** X19. When [Parents()] returns the parents, [MissingDependencies]
    returns no error and exactly those parents that the manager does not
    find or whose status is not [Accepted]. *)
Theorem MissingDependencies_exact (vtx : bootstrap.Vertex) (parents : list N) :
  bootstrap.vtx_Parents vtx = Some parents ->
  snd (MissingDependencies vtx) = None
  /\ forall x, x ∈ fst (MissingDependencies vtx)
       <-> x ∈ parents /\ mgr_GetVertex x <> Some avm_tx.Accepted.
Proof.
  intros Hp. unfold bootstrap.MissingDependencies. rewrite Hp. simpl.
  split; [done|]. intros x. rewrite missing_fold.
  split; [intros [Hx|?]; [by apply elem_of_empty in Hx | done] | by right].
Qed.

Lemma MissingDependencies_none (vtx : bootstrap.Vertex) (deps : gset N) :
  MissingDependencies vtx = (deps, None) ->
  size deps = 0%nat <->
  exists parents, bootstrap.vtx_Parents vtx = Some parents
    /\ Forall (fun p => mgr_GetVertex p = Some avm_tx.Accepted) parents.
Proof.
  intros Hm. destruct (bootstrap.vtx_Parents vtx) as [parents|] eqn:Hp.
  2: { unfold bootstrap.MissingDependencies in Hm. by rewrite Hp in Hm. }
  destruct (MissingDependencies_exact vtx parents Hp) as (_ & Hin).
  rewrite Hm in Hin. simpl in Hin.
  rewrite size_empty_iff. split.
  - intros He. exists parents. split; [done|]. apply list.Forall_forall. intros p Hpin.
    destruct (decide (mgr_GetVertex p = Some avm_tx.Accepted)) as [|Hn]; [done|].
    exfalso. assert (Hd : p ∈ deps) by (by apply Hin). rewrite He in Hd. by apply elem_of_empty in Hd.
  - intros (parents' & [= <-] & Hall). apply elem_of_equiv_empty. intros x Hx.
    apply Hin in Hx as (Hx & Hn). rewrite list.Forall_forall in Hall. by apply Hn, Hall, Hx.
Qed.

Lemma txs_accepted_true (txs : list N) :
  txs_accepted txs = Some true
  <-> Forall (fun t => fst (GetTx t) = Some avm_tx.Accepted) txs.
Proof.
  induction txs as [|t txs IH]; simpl; [by split|].
  rewrite list.Forall_cons. destruct (GetTx t) as [[s|] e]; simpl.
  - case_bool_decide as Hs.
    + split; [done|]. intros [[= ->] _]. done.
    + subst s. rewrite IH. by split; [|intros [_ ?]].
  - split; [done | by intros [? _]].
Qed.

(** X20. When [Execute] returns, it has called [Accept] on the vertex
    exactly when every parent is found with status [Accepted], [Txs()]
    returns the transactions, the latest version of each has status
    [Accepted], and the vertex is [Processing]; [numAccepted] is counted up
    by one exactly in that case; and [SaveVertex] is called only after an
    [Accept] that returned no error. *)
Theorem Execute_accepts_iff (vtx : bootstrap.Vertex) (c : bootstrap.counters)
    (r : bootstrap.executed) :
  Execute vtx c = Some r ->
  (bootstrap.ex_Accept_called r = true <->
     exists parents txs,
       bootstrap.vtx_Parents vtx = Some parents
       /\ Forall (fun p => mgr_GetVertex p = Some avm_tx.Accepted) parents
       /\ bootstrap.vtx_Txs vtx = Some txs
       /\ Forall (fun t => fst (GetTx t) = Some avm_tx.Accepted) txs
       /\ bootstrap.vtx_Status vtx = avm_tx.Processing)
  /\ bootstrap.numAccepted (bootstrap.ex_counters r) =
       (if bootstrap.ex_Accept_called r then S (bootstrap.numAccepted c)
        else bootstrap.numAccepted c)
  /\ (bootstrap.ex_SaveVertex_called r = true ->
        bootstrap.ex_Accept_called r = true /\ bootstrap.vtx_Accept_ok vtx = true).
Proof.
  unfold bootstrap.Execute.
  destruct (MissingDependencies vtx) as [deps [err|]] eqn:Hm.
  { intros [= <-]. simpl. split; [|done]. split; [done|].
    intros (parents & txs & Hp & _). unfold bootstrap.MissingDependencies in Hm.
    by rewrite Hp in Hm. }
  pose proof (MissingDependencies_none vtx deps Hm) as Hnone.
  destruct (Nat.eqb_spec (size deps) 0) as [Hz|Hnz]; cbn [negb].
  2: { intros [= <-]. simpl. split; [|done]. split; [done|].
       intros (parents & txs & Hp & Hall & _). exfalso. apply Hnz, Hnone. eauto. }
  apply Hnone in Hz as (parents & Hp & Hall).
  destruct (bootstrap.vtx_Txs vtx) as [txs|] eqn:Htxs.
  2: { intros [= <-]. simpl. split; [|done]. split; [done|].
       by intros (? & ? & _ & _ & ? & _). }
  pose proof (txs_accepted_true txs) as Hacc.
  destruct (txs_accepted txs) as [[]|] eqn:Ht; [| |done].
  2: { intros [= <-]. simpl. split; [|done]. split; [done|].
       intros (? & txs' & _ & _ & [= <-] & Hf & _). by apply Hacc in Hf. }
  assert (Hf : Forall (fun t => fst (GetTx t) = Some avm_tx.Accepted) txs)
    by by apply Hacc.
  destruct (bootstrap.vtx_Status vtx) eqn:Hs.
  1,3,4: intros [= <-]; simpl; (split; [|done]); (split; [done|]);
         by intros (? & ? & _ & _ & _ & _ & ?).
  destruct (bootstrap.vtx_Accept_ok vtx) eqn:Ha; cbn [negb].
  2: { intros [= <-]. simpl. split; [|done]. split; [|done]. intros _. eauto 10. }
  destruct mgr_SaveVertex_ok; cbn [negb]; intros [= <-]; simpl;
    (split; [|done]); (split; [|done]); intros _; eauto 10.
Qed.

(** X21. A vertex whose parents are all accepted, with a transaction whose
    latest version is found but is not [Accepted]: [Execute] returns nil,
    as it does after executing the vertex, having called neither [Accept]
    nor [SaveVertex]; the vertex is counted as dropped. *)
Theorem Execute_unaccepted_tx_returns_nil (vtx : bootstrap.Vertex)
    (c : bootstrap.counters) (parents txs : list N) (t : N) :
  bootstrap.vtx_Parents vtx = Some parents ->
  Forall (fun p => mgr_GetVertex p = Some avm_tx.Accepted) parents ->
  bootstrap.vtx_Txs vtx = Some txs ->
  Forall (fun t => fst (GetTx t) <> None) txs ->
  t ∈ txs ->
  fst (GetTx t) <> Some avm_tx.Accepted ->
  Execute vtx c =
    Some {| bootstrap.ex_err := None;
            bootstrap.ex_counters := bootstrap.bump_dropped c;
            bootstrap.ex_Accept_called := false;
            bootstrap.ex_SaveVertex_called := false |}.
Proof.
  intros Hp Hall Htxs Hfound Hin Hna. unfold bootstrap.Execute.
  destruct (MissingDependencies vtx) as [deps oerr] eqn:Hm.
  destruct (MissingDependencies_exact vtx parents Hp) as (He & _).
  rewrite Hm in He. simpl in He. subst oerr.
  assert (Hz : size deps = 0%nat).
  { apply (MissingDependencies_none vtx deps Hm). eauto. }
  rewrite Hz. cbn [Nat.eqb negb]. rewrite Htxs.
  assert (Hf : txs_accepted txs = Some false); [|by rewrite Hf].
  clear Htxs. induction txs as [|t' txs IH]; [by apply elem_of_nil in Hin|].
  apply list.Forall_cons in Hfound as (Hf' & Hfound). simpl.
  destruct (GetTx t') as [[s|] e] eqn:Hg; [|done]. simpl in *.
  case_bool_decide as Hs; [done|]. subst s.
  apply elem_of_cons in Hin as [->|Hin]; [by rewrite Hg in Hna|].
  by apply IH.
Qed.

(** X22. A vertex whose parents are all accepted, with a transaction for
    which [GetTx] returns no transaction, all transactions before it being
    accepted: [Execute] does not return; it calls a method of the nil
    transaction, in the log statement about the failed lookup or in the
    status check after it. *)
Theorem Execute_missing_tx_panics (vtx : bootstrap.Vertex)
    (c : bootstrap.counters) (parents pre post : list N) (t : N) :
  bootstrap.vtx_Parents vtx = Some parents ->
  Forall (fun p => mgr_GetVertex p = Some avm_tx.Accepted) parents ->
  bootstrap.vtx_Txs vtx = Some (pre ++ t :: post) ->
  Forall (fun t => fst (GetTx t) = Some avm_tx.Accepted) pre ->
  fst (GetTx t) = None ->
  Execute vtx c = None.
Proof.
  intros Hp Hall Htxs Hpre Hnil. unfold bootstrap.Execute.
  destruct (MissingDependencies vtx) as [deps oerr] eqn:Hm.
  destruct (MissingDependencies_exact vtx parents Hp) as (He & _).
  rewrite Hm in He. simpl in He. subst oerr.
  assert (Hz : size deps = 0%nat).
  { apply (MissingDependencies_none vtx deps Hm). eauto. }
  rewrite Hz. cbn [Nat.eqb negb]. rewrite Htxs.
  assert (Hf : txs_accepted (pre ++ t :: post) = None); [|by rewrite Hf].
  clear Htxs. induction pre as [|t' pre IH]; simpl.
  - destruct (GetTx t) as [[s|] e]; [done|done].
  - apply list.Forall_cons in Hpre as (Hf' & Hpre).
    destruct (GetTx t') as [[s|] e]; [|done]. simpl in Hf'. injection Hf' as ->.
    rewrite bool_decide_eq_false_2 by (by intros ?). by apply IH.
Qed.

End JOB_FACTS.

(** ** The dispatcher and the handshake *)

Section DISPATCH_FACTS.
Context `{External} `{Dispatch}.

Lemma tryMarkConnected_idle (h : loc) (w : World) :
  gotVersion (w_heap w h) = false \/ gotPeerList (w_heap w h) = false
    \/ connected (w_heap w h) = true ->
  tryMarkConnected h w = w.
Proof.
  unfold tryMarkConnected. intros [-> | [-> | ->]]; [|by rewrite andb_false_r|done].
  by rewrite andb_false_r.
Qed.

(** The first connection under an id: no peer is registered under it. *)
Lemma tryMarkConnected_first (h : loc) (w : World) :
  connected (w_heap w h) = false -> gotVersion (w_heap w h) = true ->
  gotPeerList (w_heap w h) = true -> closed (w_heap w h) = false ->
  net_peers (w_net w) !! id (w_heap w h) = None ->
  handshake_done (incomingSessionID (w_heap w h)) h w (tryMarkConnected h w).
Proof.
  intros Hconn Hgv Hgp Hcl Hnone. rewrite tryMarkConnected_eq by done.
  assert (Hco : close_old h w = w) by (unfold close_old; by rewrite Hnone).
  rewrite Hco. unfold handshake_done, net_connected, set_net, set_peer, next_session.
  cbn [w_net w_heap net_peers net_nextSessionID net_hooks
       with_net_peers with_net_nextSessionID with_net_hooks].
  rewrite fn_lookup_insert. unfold map_get0 at 1. rewrite !lookup_insert_eq.
  done.
Qed.

(** X23. The handshake of the reader completes at the second of the two
    messages, in either order. A peer is new (no version, no peer list,
    not connected, not closed) and no peer is registered under its id; a
    [Version] whose network id, node id, clock and version are in order
    and a [PeerList] arrive. After the first of them, whichever it is, the
    peer is not connected; after the second it is connected and registered
    under its id, the Network has been told once, and the next session id
    is one more than the larger of the recorded one and the one of the
    message (in uint32). *)
Theorem handshake_either_order (msg pl : Msg) (ips : list IPDesc)
    (h : loc) (w : World)
    (networkID nodeID peerTime s : Z) (verStr : string) (peerVersion : Ver) :
  gotVersion (w_heap w h) = false ->
  gotPeerList (w_heap w h) = false ->
  connected (w_heap w h) = false ->
  closed (w_heap w h) = false ->
  net_peers (w_net w) !! id (w_heap w h) = None ->
  as_uint32 (Get msg Field.NetworkID) = Some networkID ->
  as_uint32 (Get msg Field.NodeID) = Some nodeID ->
  as_uint64 (Get msg Field.MyTime) = Some peerTime ->
  as_string (Get msg Field.VersionStr) = Some verStr ->
  as_uint32 (Get msg Field.SessionID) = Some s ->
  is_Some (as_IPDesc (Get msg Field.IP)) ->
  networkID = net_networkID (w_net w) ->
  nodeID <> net_nodeID (w_net w) ->
  clock_out_of_sync peerTime (net_clock (w_net w))
    (net_maxClockDifference (w_net w)) = false ->
  parser_Parse verStr = Some peerVersion ->
  version_Compatible (net_version (w_net w)) peerVersion = true
    \/ id (w_heap w h) ∈ net_beacons (w_net w) ->
  as_IPs (Get pl Field.Peers) = Some ips ->
  (exists w1 w2 tr,
     version msg h w = Some w1
     /\ connected (w_heap w1 h) = false
     /\ peerList pl h w1 = Some (w2, tr)
     /\ handshake_done s h w w2)
  /\ (exists w1 w2 tr,
        peerList pl h w = Some (w1, tr)
        /\ connected (w_heap w1 h) = false
        /\ version msg h w1 = Some w2
        /\ handshake_done s h w w2).
Proof.
  intros Hgv Hgp Hconn Hcl Hnone Hnet Hnode Htime Hstr Hses HIP En Ed Hclk
    Hparse Hcompat Hpl.
  split.
  - rewrite (version_arbitrates msg h w networkID nodeID peerTime s verStr peerVersion)
      by done.
    rewrite Hnone. rewrite bool_decide_eq_false_2 by (by intros [? [=]]).
    cbn [andb].
    destruct (version_accept_some msg peerVersion s h w HIP)
      as (w1 & -> & (Hp1 & Hn1 & Hh1) & Hg1 & Hs1 & _ & Hid1 & Hgp1 & Hc1 & Hcl1 & _).
    rewrite (tryMarkConnected_idle h w1) by (right; left; congruence).
    set (w1' := set_peer h (with_gotPeerList true) w1).
    exists w1, (tryMarkConnected h w1'), (List.filter (trackable (tryMarkConnected h w1')) ips).
    split; [done|]. split; [congruence|].
    split; [unfold peerList; by rewrite Hpl|].
    assert (Hp' : w_heap w1' h = with_gotPeerList true (w_heap w1 h)).
    { subst w1'. unfold set_peer. simpl. by rewrite fn_lookup_insert. }
    pose proof (tryMarkConnected_first h w1') as Hdone.
    rewrite Hp' in Hdone. simpl in Hdone.
    rewrite Hp1, Hid1, Hs1 in Hdone.
    specialize (Hdone ltac:(congruence) Hg1 eq_refl ltac:(congruence) Hnone).
    unfold handshake_done in *. rewrite Hp' in Hdone. simpl in Hdone.
    rewrite Hid1, Hn1, Hh1 in Hdone. done.
  - set (w1 := set_peer h (with_gotPeerList true) w).
    assert (Hp1 : w_heap w1 h = with_gotPeerList true (w_heap w h)).
    { subst w1. unfold set_peer. simpl. by rewrite fn_lookup_insert. }
    assert (Hidle : tryMarkConnected h w1 = w1).
    { apply tryMarkConnected_idle. left. by rewrite Hp1. }
    assert (Hv : exists w2, version msg h w1 = Some w2 /\ handshake_done s h w w2).
    { rewrite (version_arbitrates msg h w1 networkID nodeID peerTime s verStr peerVersion);
        [|by rewrite Hp1|done..|by rewrite Hp1].
      rewrite Hp1. cbn [id with_gotPeerList w_net w1 set_peer].
      rewrite Hnone. rewrite bool_decide_eq_false_2 by (by intros [? [=]]).
      cbn [andb].
      destruct (version_accept_some msg peerVersion s h w1 HIP)
        as (w2 & -> & (Hp2 & Hn2 & Hh2) & Hg2 & Hs2 & _ & Hid2 & Hgp2 & Hc2 & Hcl2 & _).
      rewrite Hp1 in Hid2, Hgp2, Hc2, Hcl2. simpl in Hid2, Hgp2, Hc2, Hcl2.
      eexists. split; [reflexivity|].
      pose proof (tryMarkConnected_first h w2) as Hdone.
      rewrite Hid2, Hs2, Hp2 in Hdone.
      specialize (Hdone ltac:(congruence) Hg2 Hgp2 ltac:(congruence) Hnone).
      unfold handshake_done in *. rewrite Hid2, Hn2, Hh2 in Hdone. done. }
    destruct Hv as (w2 & Hv & Hdone).
    exists w1, w2, (List.filter (trackable w1) ips).
    split; [unfold peerList; rewrite Hpl; simpl; fold w1; by rewrite Hidle|].
    split; [by rewrite Hp1|]. done.
Qed.

Lemma set_lastReceived_frame (v : Z) (h : loc) (w : World) :
  let w' := set_peer h (with_lastReceived v) w in
  same_registry w w'
  /\ same_handshake (w_heap w h) (w_heap w' h)
  /\ versionStruct (w_heap w' h) = versionStruct (w_heap w h)
  /\ forall h', h' <> h -> w_heap w' h' = w_heap w h'.
Proof.
  unfold set_peer, same_registry, same_handshake. simpl.
  rewrite fn_lookup_insert. repeat split; try done.
  intros h' Hne. by rewrite fn_lookup_insert_ne.
Qed.

(** X24. No consensus message is passed on before the handshake is
    complete. Whenever [handle] calls the handler of a consensus op, the
    peer was connected and had the version structure of its peer when the
    message came, the read deadline could be set, the Network knows the
    op, the message passed on is the one received, and nothing but the
    time of the last message has changed. *)
Theorem handle_consensus_only_connected (deadline_ok apricotPhase0_passed : bool)
    (msg m : Msg) (op : Op.t) (h : loc) (w w' : World) (effs : list effect) :
  handle deadline_ok apricotPhase0_passed msg h w = Some (w', effs) ->
  Consensus op m ∈ effs ->
  connected (w_heap w h) = true
  /\ is_Some (versionStruct (w_heap w h))
  /\ deadline_ok = true
  /\ net_message_known (msg_Op msg) = true
  /\ is_consensus (msg_Op msg) = true
  /\ op = msg_Op msg /\ m = msg
  /\ effs = [Consensus op m]
  /\ w' = set_peer h (with_lastReceived (net_clock (w_net w))) w.
Proof.
  unfold handle. cbv zeta.
  destruct (set_lastReceived_frame (net_clock (w_net w)) h w)
    as (_ & (_ & _ & _ & Hc & _) & Hvs & _). cbv zeta in Hc, Hvs.
  set (w0 := set_peer h (with_lastReceived (net_clock (w_net w))) w) in *.
  assert (Hnil : forall x : World, Some (x, no_effects) = Some (w', effs) ->
            Consensus op m ∈ effs -> False).
  { intros x [= _ <-] Hin. by apply elem_of_nil in Hin. }
  destruct deadline_ok; cbn [negb]; [|by intros ? ?; exfalso; eapply Hnil].
  destruct (net_message_known (msg_Op msg)) eqn:Hk; cbn [negb];
    [|by intros ? ?; exfalso; eapply Hnil].
  assert (Hrest :
    (if negb (connected (w_heap w0 h))
     then w1 ← (if negb (gotVersion (w_heap w0 h)) then GetVersion h w0 else Some w0);
          w2 ← (if negb (gotPeerList (w_heap w1 h)) then GetPeerList h w1 else Some w1);
          Some (w2, no_effects)
     else peerVersion ← versionStruct (w_heap w0 h);
          if Ver_Before peerVersion minimumUnmaskedVersion && apricotPhase0_passed
          then Some (w0, no_effects)
          else if is_consensus (msg_Op msg)
               then Some (w0, [Consensus (msg_Op msg) msg])
               else Some (w0, no_effects)) = Some (w', effs) ->
    Consensus op m ∈ effs ->
    connected (w_heap w h) = true /\ is_Some (versionStruct (w_heap w h))
    /\ true = true /\ true = true /\ is_consensus (msg_Op msg) = true
    /\ op = msg_Op msg /\ m = msg /\ effs = [Consensus op m] /\ w' = w0).
  { rewrite Hc, Hvs. destruct (connected (w_heap w h)); cbn [negb].
    2: { intros Hm Hin. exfalso.
         destruct (if negb (gotVersion (w_heap w0 h)) then _ else _) as [w1|];
           [|done]. cbn [mbind option_bind] in Hm.
         destruct (if negb (gotPeerList (w_heap w1 h)) then _ else _) as [w2|];
           [|done]. by eapply Hnil. }
    destruct (versionStruct (w_heap w h)) as [peerVersion|]; [|done].
    cbn [mbind option_bind].
    destruct (Ver_Before peerVersion minimumUnmaskedVersion && apricotPhase0_passed);
      [by intros ? ?; exfalso; eapply Hnil|].
    destruct (is_consensus (msg_Op msg)); [|by intros ? ?; exfalso; eapply Hnil].
    intros [= <- <-] Hin. apply list_elem_of_singleton in Hin as [= -> ->].
    by repeat split. }
  destruct (msg_Op msg) eqn:Hop; try exact Hrest; clear Hrest; intros Hm Hin; exfalso.
  - by eapply Hnil.
  - destruct (version msg h w0); [by eapply Hnil | done].
  - by eapply Hnil.
  - destruct (peerList msg h w0) as [[w1 tr]|]; [|done].
    injection Hm as <- <-. apply list_elem_of_fmap in Hin as (? & [=] & _).
  - destruct (ping msg h w0); [by eapply Hnil | done].
  - by eapply Hnil.
Qed.

Lemma handle_connected_without_version (apricotPhase0_passed : bool)
    (msg : Msg) (h : loc) (w : World) :
  connected (w_heap w h) = true ->
  versionStruct (w_heap w h) = None ->
  net_message_known (msg_Op msg) = true ->
  is_consensus (msg_Op msg) = true ->
  handle true apricotPhase0_passed msg h w = None.
Proof.
  intros Hconn Hnone Hk Hcons. unfold handle. cbv zeta.
  destruct (set_lastReceived_frame (net_clock (w_net w)) h w)
    as (_ & (_ & _ & _ & Hc & _) & Hvs & _). cbv zeta in Hc, Hvs.
  rewrite Hk. cbn [negb].
  destruct (msg_Op msg); try discriminate Hcons;
    by rewrite Hc, Hconn, Hvs, Hnone.
Qed.

(** What [processVersionNak] returns: an error, with the world as it was
    and no task, or nil, with the peer marked connected. *)
Lemma processVersionNak_cases (nack : Z -> list IPDesc -> exchange)
    (h : loc) (w : World) (r : started) :
  processVersionNak nack h w = Some r ->
  (st_err r <> None /\ st_world r = w /\ st_tasks r = []
   /\ (id (w_heap w h) = net_id (w_net w) -> st_err r = Some errPeerIsMyself))
  \/ (st_err r = None
      /\ id (w_heap w h) <> net_id (w_net w)
      /\ net_isPeered (w_net w) (id (w_heap w h)) = false
      /\ st_world r =
           net_connected h
             (set_peer h (with_connected true)
                (set_peer h (with_gotPeerList true)
                   (set_peer h (with_gotVersion true) w)))
      /\ exists peers,
           st_tasks r = [GoReadMessages; GoWriteMessages; GoSendPings; GoTrack peers]).
Proof.
  unfold processVersionNak. cbv zeta. case_bool_decide as Hself.
  { destruct (b_VersionNak SelfPeered []); [|done]. intros [= <-]. left. by simpl. }
  destruct (net_isPeered (w_net w) (id (w_heap w h))) eqn:Hpeered.
  { destruct (b_VersionNak AlreadyPeered []); [|done]. intros [= <-]. left. by simpl. }
  destruct (b_VersionNak Success (validatorIPsNoLock (w_net w))); [|done].
  cbn [mbind option_bind].
  destruct (nack Success (validatorIPsNoLock (w_net w))) as [msg| |];
    [|by intros [= <-]; left; simpl..].
  destruct (as_uint32 (Get msg Field.ErrorNo)) as [errorNo|]; [|done].
  cbn [mbind option_bind].
  destruct (errorNo =? AlreadyPeered); [by intros [= <-]; left; simpl|].
  destruct (errorNo =? SelfPeered); [by intros [= <-]; left; simpl|].
  destruct (errorNo =? Success); [|by intros [= <-]; left; simpl].
  destruct (as_IPs (Get msg Field.Peers)) as [peers|]; [|done].
  cbn [mbind option_bind]. intros [= <-]. right. simpl. eauto 10.
Qed.

Lemma mark_connected_effect (h : loc) (w : World) :
  let w' := net_connected h
              (set_peer h (with_connected true)
                 (set_peer h (with_gotPeerList true)
                    (set_peer h (with_gotVersion true) w))) in
  gotVersion (w_heap w' h) = true
  /\ gotPeerList (w_heap w' h) = true
  /\ connected (w_heap w' h) = true
  /\ versionStruct (w_heap w' h) = versionStruct (w_heap w h)
  /\ net_hooks (w_net w') = HookConnected h :: net_hooks (w_net w).
Proof.
  unfold net_connected, set_net, set_peer. simpl.
  rewrite !fn_lookup_insert. by simpl.
Qed.

Lemma set_ip_versionStr_frame (v : IPDesc) (s : option string) (h : loc) (w : World) :
  let w' := set_peer h (with_versionStr s) (set_peer h (with_ip v) w) in
  same_registry w w'
  /\ same_handshake (w_heap w h) (w_heap w' h)
  /\ versionStruct (w_heap w' h) = versionStruct (w_heap w h)
  /\ w_net w' = w_net w.
Proof.
  unfold set_peer, same_registry, same_handshake. simpl.
  rewrite !fn_lookup_insert. by repeat split.
Qed.

(** X25. A connection to oneself is refused. When the id of the peer is
    the id of the node, [Start] never returns nil: it launches no task and
    leaves the registry and the handshake state of the peer alone. When
    the read deadline could be set and [verionAck] got an answer, the
    error is [errPeerIsMyself], whatever the answer was, unless the answer
    is a [Version] whose version string does not parse. *)
Theorem Start_refuses_self (deadline_ok : bool) (ack : exchange)
    (nack : Z -> list IPDesc -> exchange) (h : loc) (w : World) (r : started) :
  id (w_heap w h) = net_id (w_net w) ->
  Start deadline_ok ack nack h w = Some r ->
  st_err r <> None
  /\ st_tasks r = []
  /\ same_registry w (st_world r)
  /\ same_handshake (w_heap w h) (w_heap (st_world r) h)
  /\ (deadline_ok = true -> forall msg, ack = Reply msg ->
      st_err r = Some errPeerIsMyself
      \/ (msg_Op msg = Op.Version /\ st_err r = Some ErrParse)).
Proof.
  intros Hself. unfold Start. cbv zeta.
  rewrite (bool_decide_eq_true_2 _ Hself).
  assert (Hfail : forall e, Some (start_failed e w) = Some r ->
            st_err r <> None /\ st_tasks r = [] /\ same_registry w (st_world r)
            /\ same_handshake (w_heap w h) (w_heap (st_world r) h)
            /\ st_err r = Some e).
  { intros e [= <-]. simpl. repeat split; done. }
  destruct deadline_ok; cbn [negb].
  2: { intros Hr. destruct (Hfail _ Hr) as (? & ? & ? & ? & ?).
       do 4 (split; [done|]). intros [=]. }
  destruct ack as [msg| |].
  2: { destruct (net_isPeered (w_net w) (id (w_heap w h))); intros Hr;
         destruct (Hfail _ Hr) as (? & ? & ? & ? & ?);
         do 4 (split; [done|]); intros _ ? [=]. }
  2: { intros Hr. destruct (Hfail _ Hr) as (? & ? & ? & ? & ?).
       do 4 (split; [done|]). intros _ ? [=]. }
  assert (Hmy : Some (start_failed errPeerIsMyself w) = Some r ->
            st_err r <> None /\ st_tasks r = [] /\ same_registry w (st_world r)
            /\ same_handshake (w_heap w h) (w_heap (st_world r) h)
            /\ (true = true -> forall msg0, Reply msg = Reply msg0 ->
                st_err r = Some errPeerIsMyself
                \/ (msg_Op msg0 = Op.Version /\ st_err r = Some ErrParse))).
  { intros Hr. destruct (Hfail _ Hr) as (? & ? & ? & ? & ?).
    do 4 (split; [done|]). intros _ ? _. by left. }
  destruct (msg_Op msg) eqn:Hop; try exact Hmy.
  destruct (as_string (Get msg Field.VersionStr)) as [peerVersionStr|]; [|done].
  cbn [mbind option_bind].
  destruct (parser_Parse peerVersionStr) as [peerVersion|].
  2: { intros Hr. destruct (Hfail _ Hr) as (? & ? & ? & ? & ?).
       do 4 (split; [done|]). intros _ ? [= <-]. by right. }
  destruct (Ver_Before peerVersion VersionPeerNak); [exact Hmy|].
  destruct (as_IPDesc (Get msg Field.IP)) as [peerIP|]; [|done].
  cbn [mbind option_bind]. intros Hr.
  destruct (set_ip_versionStr_frame peerIP (Some (version_String peerVersion)) h w)
    as (Hreg & Hhs & _ & Hnet). cbv zeta in Hreg, Hhs, Hnet.
  apply processVersionNak_cases in Hr as [(Herr & Hw & Ht & Hme)|(_ & Hne & _)].
  - rewrite Hw. do 4 (split; [done|]).
    intros _ ? _. left. apply Hme. rewrite Hnet.
    destruct Hhs as (-> & _). done.
  - exfalso. apply Hne. rewrite Hnet. destruct Hhs as (-> & _). done.
Qed.

(** X26. When [Start] returns nil, the reader, the writer and the ping
    ticker have been launched, and the peer is not the node itself. Either
    the handshake is left to the reader (the answer was a [PeerList], or a
    [Version] of a peer before [VersionPeerNak]): the answer is handed to
    [handle], the handshake ticker is launched and [Start] itself has
    changed nothing. Or the handshake is complete: the peer was not peered
    before, it is marked connected with version and peer list received,
    and the Network has been told. *)
Theorem Start_nil_launches_tasks (deadline_ok : bool) (ack : exchange)
    (nack : Z -> list IPDesc -> exchange) (h : loc) (w : World) (r : started) :
  Start deadline_ok ack nack h w = Some r ->
  st_err r = None ->
  id (w_heap w h) <> net_id (w_net w)
  /\ GoReadMessages ∈ st_tasks r
  /\ GoWriteMessages ∈ st_tasks r
  /\ GoSendPings ∈ st_tasks r
  /\ ((exists msg, ack = Reply msg /\ GoHandle msg ∈ st_tasks r
         /\ GoRequestFinishHandshake ∈ st_tasks r /\ st_world r = w)
      \/ (net_isPeered (w_net w) (id (w_heap w h)) = false
          /\ gotVersion (w_heap (st_world r) h) = true
          /\ gotPeerList (w_heap (st_world r) h) = true
          /\ connected (w_heap (st_world r) h) = true
          /\ net_hooks (w_net (st_world r)) = HookConnected h :: net_hooks (w_net w))).
Proof.
  unfold Start. cbv zeta.
  assert (Hfail : forall e, Some (start_failed e w) = Some r -> st_err r = None -> False).
  { by intros e [= <-]. }
  destruct deadline_ok; cbn [negb]; [|by intros ? ?; exfalso; eapply Hfail].
  destruct ack as [msg| |].
  2: { destruct (net_isPeered (w_net w) (id (w_heap w h)));
         by intros ? ?; exfalso; eapply Hfail. }
  2: by intros ? ?; exfalso; eapply Hfail.
  assert (Hself : (if bool_decide (id (w_heap w h) = net_id (w_net w))
                   then Some (start_failed errPeerIsMyself w)
                   else Some (start_failed errVersionExpected w)) = Some r ->
                  st_err r = None -> False).
  { case_bool_decide; by intros ? ?; eapply Hfail. }
  destruct (msg_Op msg) eqn:Hop;
    try (by intros Hr He; exfalso; eapply Hself).
  - (* Version *)
    destruct (as_string (Get msg Field.VersionStr)) as [peerVersionStr|]; [|done].
    cbn [mbind option_bind].
    destruct (parser_Parse peerVersionStr) as [peerVersion|];
      [|by intros ? ?; exfalso; eapply Hfail].
    destruct (Ver_Before peerVersion VersionPeerNak).
    + case_bool_decide as Hme; [by intros ? ?; exfalso; eapply Hfail|].
      intros [= <-] _. simpl. split; [done|].
      split; [set_solver|]. split; [set_solver|]. split; [set_solver|].
      left. exists msg. split; [done|]. split; [set_solver|]. split; [set_solver|done].
    + destruct (as_IPDesc (Get msg Field.IP)) as [peerIP|]; [|done].
      cbn [mbind option_bind]. intros Hr He.
      destruct (set_ip_versionStr_frame peerIP (Some (version_String peerVersion)) h w)
        as ((_ & _ & Hhooks) & (Hid & _) & _ & Hnet). cbv zeta in Hhooks, Hid, Hnet.
      apply processVersionNak_cases in Hr
        as [(Herr & _)|(_ & Hne & Hnp & Hw & peers & Ht)]; [done|].
      rewrite Hnet, Hid in Hne, Hnp. split; [done|]. rewrite Ht.
      split; [set_solver|]. split; [set_solver|]. split; [set_solver|].
      right. split; [done|]. rewrite Hw.
      destruct (mark_connected_effect h
                  (set_peer h (with_versionStr (Some (version_String peerVersion)))
                     (set_peer h (with_ip peerIP) w)))
        as (Hg & Hp & Hc & _ & Hh). cbv zeta in Hg, Hp, Hc, Hh.
      by rewrite Hg, Hp, Hc, Hh, Hhooks.
  - (* PeerList *)
    case_bool_decide as Hme; [by intros ? ?; exfalso; eapply Hfail|].
    intros [= <-] _. simpl. split; [done|].
    split; [set_solver|]. split; [set_solver|]. split; [set_solver|].
    left. exists msg. split; [done|]. split; [set_solver|]. split; [set_solver|done].
Qed.

(** X27. The handshake of [Start] leaves the peer connected without the
    version structure that [handle] reads. A peer has no version structure
    and is not connected when [Start] is called, and is connected when
    [Start] returns. Then [Start] has returned nil, the peer still has no
    version structure, and [handle] panics on every consensus message the
    Network knows: the type assertion on [p.versionStruct.GetValue()]
    fails. *)
Theorem Start_connected_handle_panics (deadline_ok apricotPhase0_passed : bool)
    (ack : exchange) (nack : Z -> list IPDesc -> exchange)
    (h : loc) (w : World) (r : started) (msg : Msg) :
  versionStruct (w_heap w h) = None ->
  connected (w_heap w h) = false ->
  Start deadline_ok ack nack h w = Some r ->
  connected (w_heap (st_world r) h) = true ->
  net_message_known (msg_Op msg) = true ->
  is_consensus (msg_Op msg) = true ->
  st_err r = None
  /\ versionStruct (w_heap (st_world r) h) = None
  /\ handle true apricotPhase0_passed msg h (st_world r) = None.
Proof.
  intros Hvs Hconn Hstart Hc Hk Hcons.
  assert (Hgoal : st_err r = None /\ versionStruct (w_heap (st_world r) h) = None).
  { revert Hstart. unfold Start. cbv zeta.
    assert (Hfail : forall e, Some (start_failed e w) = Some r ->
              st_err r = None /\ versionStruct (w_heap (st_world r) h) = None).
    { intros e [= <-]. simpl in Hc. congruence. }
    assert (Hsame : forall t, Some {| st_err := None; st_world := w; st_tasks := t |}
                              = Some r ->
              st_err r = None /\ versionStruct (w_heap (st_world r) h) = None).
    { intros t [= <-]. simpl in Hc. congruence. }
    destruct deadline_ok; cbn [negb]; [|apply Hfail].
    destruct ack as [m| |];
      [|destruct (net_isPeered (w_net w) (id (w_heap w h))); apply Hfail|apply Hfail].
    destruct (msg_Op m);
      try (case_bool_decide; apply Hfail).
    - destruct (as_string (Get m Field.VersionStr)) as [peerVersionStr|]; [|done].
      cbn [mbind option_bind].
      destruct (parser_Parse peerVersionStr) as [peerVersion|]; [|apply Hfail].
      destruct (Ver_Before peerVersion VersionPeerNak).
      { case_bool_decide; [apply Hfail | apply Hsame]. }
      destruct (as_IPDesc (Get m Field.IP)) as [peerIP|]; [|done].
      cbn [mbind option_bind]. intros Hr.
      destruct (set_ip_versionStr_frame peerIP (Some (version_String peerVersion)) h w)
        as (_ & (_ & _ & _ & Hc' & _) & Hvs' & _). cbv zeta in Hc', Hvs'.
      apply processVersionNak_cases in Hr
        as [(_ & Hw & _)|(He & _ & _ & Hw & _)].
      + rewrite Hw in Hc. congruence.
      + split; [done|]. rewrite Hw.
        destruct (mark_connected_effect h
                    (set_peer h (with_versionStr (Some (version_String peerVersion)))
                       (set_peer h (with_ip peerIP) w)))
          as (_ & _ & _ & Hv & _). cbv zeta in Hv.
        congruence.
    - case_bool_decide; [apply Hfail | apply Hsame]. }
  destruct Hgoal as (He & Hvs'). split; [done|]. split; [done|].
  by apply handle_connected_without_version.
Qed.

Lemma handshake_kept_refl (h : loc) (w : World) : handshake_kept h w w.
Proof.
  by split; [apply same_registry_refl | split; [apply same_handshake_refl|]].
Qed.

Lemma handshake_kept_trans (h : loc) (w1 w2 w3 : World) :
  handshake_kept h w1 w2 -> handshake_kept h w2 w3 -> handshake_kept h w1 w3.
Proof.
  unfold handshake_kept, same_registry, same_handshake.
  intros ((? & ? & ?) & (? & ? & ? & ? & ? & ? & ?) & Ho1)
         ((? & ? & ?) & (? & ? & ? & ? & ? & ? & ?) & Ho2).
  repeat split; try congruence.
  intros h' Hne. by rewrite Ho2, Ho1.
Qed.

Lemma Send_kept (msg : Msg) (h : loc) (w : World) :
  handshake_kept h w (snd (Send msg h w)).
Proof.
  pose proof (Send_frame msg h w) as Hf. cbv zeta in Hf.
  destruct Hf as (? & ? & _ & ?). by split; [|split].
Qed.

Lemma SendPeerList_kept (h : loc) (w : World) :
  handshake_kept h w (SendPeerList h w).
Proof.
  pose proof (SendPeerList_frame h w) as Hf. cbv zeta in Hf.
  destruct Hf as (? & ? & _ & ?). by split; [|split].
Qed.

Lemma built_Send_kept (m : option Msg) (h : loc) (w w' : World) :
  (msg ← m; Some (snd (Send msg h w))) = Some w' -> handshake_kept h w w'.
Proof. destruct m as [msg|]; [|done]. intros [= <-]. apply Send_kept. Qed.

(** X28. Only [Version] and [PeerList] move the handshake. When the read
    deadline can be set, [handle] on a message of any other op leaves the
    registry, the session ids, the record of hook calls, the handshake
    state of the peer and every other peer as they were, whatever it
    sends, and tracks no address. *)
Theorem handle_keeps_handshake (apricotPhase0_passed : bool) (msg : Msg)
    (h : loc) (w w' : World) (effs : list effect) :
  handle true apricotPhase0_passed msg h w = Some (w', effs) ->
  msg_Op msg <> Op.Version ->
  msg_Op msg <> Op.PeerList ->
  handshake_kept h w w' /\ forall ip, Track ip ∉ effs.
Proof.
  unfold handle. cbv zeta. cbn [negb].
  assert (Hk0 : handshake_kept h w
                 (set_peer h (with_lastReceived (net_clock (w_net w))) w)).
  { pose proof (set_lastReceived_frame (net_clock (w_net w)) h w) as Hf.
    cbv zeta in Hf. destruct Hf as (? & ? & _ & ?). by split; [|split]. }
  set (w0 := set_peer h (with_lastReceived (net_clock (w_net w))) w) in *.
  assert (Hno : forall x, handshake_kept h w0 x ->
            Some (x, no_effects) = Some (w', effs) ->
            handshake_kept h w w' /\ forall ip, Track ip ∉ effs).
  { intros x Hx [= <- <-]. split; [by eapply handshake_kept_trans|].
    intros ip Hin. by apply elem_of_nil in Hin. }
  destruct (net_message_known (msg_Op msg)); cbn [negb];
    [|intros Hm _ _; by apply (Hno w0); [apply handshake_kept_refl|]].
  assert (Hrest :
    (if negb (connected (w_heap w0 h))
     then w1 ← (if negb (gotVersion (w_heap w0 h)) then GetVersion h w0 else Some w0);
          w2 ← (if negb (gotPeerList (w_heap w1 h)) then GetPeerList h w1 else Some w1);
          Some (w2, no_effects)
     else peerVersion ← versionStruct (w_heap w0 h);
          if Ver_Before peerVersion minimumUnmaskedVersion && apricotPhase0_passed
          then Some (w0, no_effects)
          else if is_consensus (msg_Op msg)
               then Some (w0, [Consensus (msg_Op msg) msg])
               else Some (w0, no_effects)) = Some (w', effs) ->
    handshake_kept h w w' /\ forall ip, Track ip ∉ effs).
  { destruct (connected (w_heap w0 h)); cbn [negb].
    - destruct (versionStruct (w_heap w0 h)) as [peerVersion|]; [|done].
      cbn [mbind option_bind].
      destruct (Ver_Before peerVersion minimumUnmaskedVersion && apricotPhase0_passed);
        [by apply Hno, handshake_kept_refl|].
      destruct (is_consensus (msg_Op msg)); [|by apply Hno, handshake_kept_refl].
      intros [= <- <-]. split; [done|].
      intros ip Hin. by apply list_elem_of_singleton in Hin.
    - assert (H1 : forall w1,
                (if negb (gotVersion (w_heap w0 h)) then GetVersion h w0 else Some w0)
                = Some w1 -> handshake_kept h w0 w1).
      { intros w1. destruct (gotVersion (w_heap w0 h)); cbn [negb].
        - intros [= <-]. apply handshake_kept_refl.
        - apply built_Send_kept. }
      destruct (if negb (gotVersion (w_heap w0 h)) then _ else _) as [w1|]; [|done].
      cbn [mbind option_bind]. specialize (H1 w1 eq_refl).
      assert (H2 : forall w2,
                (if negb (gotPeerList (w_heap w1 h)) then GetPeerList h w1 else Some w1)
                = Some w2 -> handshake_kept h w1 w2).
      { intros w2. destruct (gotPeerList (w_heap w1 h)); cbn [negb].
        - intros [= <-]. apply handshake_kept_refl.
        - apply built_Send_kept. }
      destruct (if negb (gotPeerList (w_heap w1 h)) then _ else _) as [w2|]; [|done].
      cbn [mbind option_bind]. apply Hno.
      eapply handshake_kept_trans; [exact H1 | by apply H2]. }
  destruct (msg_Op msg) eqn:Hop; try (intros Hm _ _; exact (Hrest Hm)); clear Hrest.
  - intros Hm _ _. revert Hm. apply Hno. unfold getVersion, Version. apply Send_kept.
  - by intros _ Hv _.
  - intros Hm _ _. revert Hm. apply Hno. unfold getPeerList.
    destruct (gotVersion (w_heap w0 h));
      [apply SendPeerList_kept | apply handshake_kept_refl].
  - by intros _ _ Hp.
  - intros Hm _ _. revert Hm. unfold ping.
    pose proof (built_Send_kept b_Pong h w0) as Hp. unfold Pong.
    destruct (msg ← b_Pong; Some (snd (Send msg h w0))) as [w1|]; [|done].
    cbn [mbind option_bind]. by apply Hno, Hp.
  - intros Hm _ _. revert Hm. by apply Hno, handshake_kept_refl.
Qed.

(** *** The invariant of the registry, through the dispatcher and [Start]

    The registry is empty at first and [tryMarkConnected] is the one place
    that writes to it, for a peer that has its version: whatever message
    [handle] is given, and whatever [Start] is answered, a registry that
    holds only peers with their version still does afterwards. *)

Lemma built_Send_registered (m : option Msg) (h : loc) (w w' : World) :
  registered_have_version w ->
  (msg ← m; Some (snd (Send msg h w))) = Some w' -> registered_have_version w'.
Proof.
  intros Hinv. destruct m as [msg|]; [|done]. intros [= <-].
  by apply Send_registered.
Qed.

Lemma peerList_registered (msg : Msg) (h : loc) (w w' : World)
    (ips : list IPDesc) :
  registered_have_version w -> peerList msg h w = Some (w', ips) ->
  registered_have_version w'.
Proof.
  intros Hinv. unfold peerList.
  destruct (as_IPs (Get msg Field.Peers)); [|done]. cbn [mbind option_bind].
  intros [= <- _]. apply tryMarkConnected_registered.
  by apply set_peer_registered.
Qed.

Lemma handle_registered (deadline_ok apricotPhase0_passed : bool) (msg : Msg)
    (h : loc) (w w' : World) (effs : list effect) :
  registered_have_version w ->
  handle deadline_ok apricotPhase0_passed msg h w = Some (w', effs) ->
  registered_have_version w'.
Proof.
  intros Hinv. unfold handle. cbv zeta.
  assert (Hinv0 : registered_have_version
                    (set_peer h (with_lastReceived (net_clock (w_net w))) w))
    by by apply set_peer_registered.
  set (w0 := set_peer h (with_lastReceived (net_clock (w_net w))) w) in *.
  destruct deadline_ok; cbn [negb];
    [|intros [= <- _]; by apply Close_registered].
  destruct (net_message_known (msg_Op msg)); cbn [negb]; [|by intros [= <- _]].
  assert (Hrest :
    (if negb (connected (w_heap w0 h))
     then w1 ← (if negb (gotVersion (w_heap w0 h)) then GetVersion h w0 else Some w0);
          w2 ← (if negb (gotPeerList (w_heap w1 h)) then GetPeerList h w1 else Some w1);
          Some (w2, no_effects)
     else peerVersion ← versionStruct (w_heap w0 h);
          if Ver_Before peerVersion minimumUnmaskedVersion && apricotPhase0_passed
          then Some (w0, no_effects)
          else if is_consensus (msg_Op msg)
               then Some (w0, [Consensus (msg_Op msg) msg])
               else Some (w0, no_effects)) = Some (w', effs) ->
    registered_have_version w').
  { destruct (connected (w_heap w0 h)); cbn [negb].
    - destruct (versionStruct (w_heap w0 h)) as [peerVersion|]; [|done].
      cbn [mbind option_bind].
      destruct (Ver_Before peerVersion minimumUnmaskedVersion && apricotPhase0_passed);
        [by intros [= <- _]|].
      destruct (is_consensus (msg_Op msg)); by intros [= <- _].
    - assert (H1 : forall w1,
                (if negb (gotVersion (w_heap w0 h)) then GetVersion h w0 else Some w0)
                = Some w1 -> registered_have_version w1).
      { intros w1. destruct (gotVersion (w_heap w0 h)); cbn [negb].
        - by intros [= <-].
        - by apply built_Send_registered. }
      destruct (if negb (gotVersion (w_heap w0 h)) then _ else _) as [w1|]; [|done].
      cbn [mbind option_bind]. specialize (H1 w1 eq_refl).
      assert (H2 : forall w2,
                (if negb (gotPeerList (w_heap w1 h)) then GetPeerList h w1 else Some w1)
                = Some w2 -> registered_have_version w2).
      { intros w2. destruct (gotPeerList (w_heap w1 h)); cbn [negb].
        - by intros [= <-].
        - by apply built_Send_registered. }
      destruct (if negb (gotPeerList (w_heap w1 h)) then _ else _) as [w2|]; [|done].
      cbn [mbind option_bind]. intros [= <- _]. by apply H2. }
  destruct (msg_Op msg) eqn:Hop; try exact Hrest; clear Hrest.
  - intros [= <- _]. unfold getVersion, Version. by apply Send_registered.
  - destruct (version msg h w0) as [w1|] eqn:Hv; [|done].
    cbn [mbind option_bind]. intros [= <- _]. by eapply version_registered.
  - intros [= <- _]. unfold getPeerList.
    destruct (gotVersion (w_heap w0 h)); [by apply SendPeerList_registered|done].
  - destruct (peerList msg h w0) as [[w1 ips]|] eqn:Hp; [|done].
    cbn [mbind option_bind]. intros [= <- _]. by eapply peerList_registered.
  - unfold ping, Pong.
    pose proof (built_Send_registered b_Pong h w0) as Hp.
    destruct (msg ← b_Pong; Some (snd (Send msg h w0))) as [w1|]; [|done].
    cbn [mbind option_bind]. intros [= <- _]. by apply Hp.
  - by intros [= <- _].
Qed.

Lemma Start_registered (deadline_ok : bool) (ack : exchange)
    (nack : Z -> list IPDesc -> exchange) (h : loc) (w : World) (r : started) :
  registered_have_version w ->
  Start deadline_ok ack nack h w = Some r ->
  registered_have_version (st_world r).
Proof.
  intros Hinv. unfold Start. cbv zeta.
  destruct deadline_ok; cbn [negb]; [|by intros [= <-]].
  destruct ack as [msg| |]; [| |by intros [= <-]].
  2: { destruct (net_isPeered _ _); by intros [= <-]. }
  assert (Hself : forall e,
            (if bool_decide (id (w_heap w h) = net_id (w_net w))
             then Some (start_failed errPeerIsMyself w)
             else Some (start_failed e w)) = Some r ->
            registered_have_version (st_world r)).
  { intros e. destruct (bool_decide _); by intros [= <-]. }
  destruct (msg_Op msg); try exact (Hself errVersionExpected).
  - destruct (as_string (Get msg Field.VersionStr)) as [verStr|]; [|done].
    cbn [mbind option_bind].
    destruct (parser_Parse verStr) as [peerVersion|]; [|by intros [= <-]].
    destruct (Ver_Before peerVersion VersionPeerNak).
    { destruct (bool_decide _); by intros [= <-]. }
    destruct (as_IPDesc (Get msg Field.IP)) as [peerIP|]; [|done].
    cbn [mbind option_bind].
    set (w1 := set_peer h (with_versionStr _) _).
    assert (Hinv1 : registered_have_version w1)
      by (subst w1; by do 2 (apply set_peer_registered; [done|])).
    clearbody w1. clear Hself. unfold processVersionNak.
    destruct (bool_decide (id (w_heap w1 h) = net_id (w_net w1))).
    { destruct (b_VersionNak SelfPeered []); [|done]. by intros [= <-]. }
    destruct (net_isPeered _ _).
    { destruct (b_VersionNak AlreadyPeered []); [|done]. by intros [= <-]. }
    destruct (b_VersionNak Success _); [|done]. cbn [mbind option_bind].
    destruct (nack Success _) as [reply| |]; [|by intros [= <-]..].
    destruct (as_uint32 (Get reply Field.ErrorNo)) as [errorNo|]; [|done].
    cbn [mbind option_bind].
    destruct (errorNo =? AlreadyPeered); [by intros [= <-]|].
    destruct (errorNo =? SelfPeered); [by intros [= <-]|].
    destruct (errorNo =? Success); [|by intros [= <-]].
    destruct (as_IPs (Get reply Field.Peers)); [|done]. cbn [mbind option_bind].
    intros [= <-]. cbn [st_world]. unfold net_connected.
    apply set_net_registered; [done|].
    by do 3 (apply set_peer_registered; [done|]).
  - destruct (bool_decide _); by intros [= <-].
Qed.

End DISPATCH_FACTS.

(** * More runs on concrete inputs *)

Lemma readMsg_PackBytes_witness :
  exists conn',
    concat conn' = [x09]
    /\ @readMsg ex_External [PackBytes [x01; x02] ++ [x09]]
       = Some (ex_msg [x01; x02], conn').
Proof.
  apply (@readMsg_PackBytes ex_External [x01; x02] [x09]
           [PackBytes [x01; x02] ++ [x09]]); by vm_compute.
Defined.

Lemma ReadMessages_one_frame_witness :
  @ReadMessages_loop ex_External 16 [[x00; x00]; [x00; x02; x01]; [x02]] []
  = ([([x01; x02], ex_msg [x01; x02])], ReadError).
Proof.
  apply (@ReadMessages_one_frame ex_External 16 [x01; x02] (ex_msg [x01; x02])
           [[x00; x00]; [x00; x02; x01]; [x02]]); by vm_compute.
Defined.

Lemma ReadMessages_one_frame_per_read_witness :
  @ReadMessages_loop ex_External 16 [PackBytes [x01; x02] ++ PackBytes [x03]] []
  = ([([x01; x02], ex_msg [x01; x02])], ReadError).
Proof.
  apply (@ReadMessages_one_frame_per_read ex_External 16 [x01; x02]
           (PackBytes [x03]) (ex_msg [x01; x02])); by vm_compute.
Defined.

Lemma pendingBytes_counts_queue_witness :
  let w' := run 0%nat
              [ASend (ex_msg [x01]); ASend (ex_msg [x02; x03]); AWrite false]
              ex_world in
  pendingBytes (w_heap w' 0%nat) = wrap64 (queue_bytes (sender (w_heap w' 0%nat))).
Proof.
  apply (pendingBytes_counts_queue 0%nat
           [ASend (ex_msg [x01]); ASend (ex_msg [x02; x03]); AWrite false]
           ex_world).
  by vm_compute.
Defined.

Lemma net_pendingBytes_follows_peer_witness :
  let w' := run 0%nat
              [ASend (ex_msg [x01]); ASend (ex_msg [x02; x03]); AWrite false]
              ex_world in
  wrap64 (net_pendingBytes (w_net w') - pendingBytes (w_heap w' 0%nat))
  = wrap64 (net_pendingBytes (w_net ex_world) - pendingBytes (w_heap ex_world 0%nat)).
Proof.
  apply (net_pendingBytes_follows_peer 0%nat
           [ASend (ex_msg [x01]); ASend (ex_msg [x02; x03]); AWrite false]
           ex_world); by vm_compute.
Defined.

Lemma Send_after_Close_witness :
  Send (ex_msg [x01]) 0%nat (Close 0%nat ex_world)
  = (false, Close 0%nat ex_world).
Proof.
  apply (Send_after_Close (ex_msg [x01]) 0%nat ex_world).
  by vm_compute.
Defined.

Lemma SyntacticVerify_nil_iff_witness :
  fst (avm.SyntacticVerify (Some (avm_tx.tx (ex_TxS None)))) = None <->
  avm.utx_SyntacticVerify (ex_utx None) = None
  /\ Forall (fun c => avm.Verify c = None) (avm.Creds (avm_tx.tx (ex_TxS None)))
  /\ avm.NumCredentials (ex_utx None)
     = Z.of_nat (length (avm.Creds (avm_tx.tx (ex_TxS None)))).
Proof.
  apply (SyntacticVerify_nil_iff (avm_tx.tx (ex_TxS None)) (ex_utx None));
    reflexivity.
Defined.

Lemma SyntacticVerify_idempotent_witness :
  avm.SyntacticVerify
    (snd (avm.SyntacticVerify (Some (avm_tx.tx (ex_TxS None)))))
  = avm.SyntacticVerify (Some (avm_tx.tx (ex_TxS None))).
Proof.
  apply (SyntacticVerify_idempotent (Some (avm_tx.tx (ex_TxS None)))).
  intros tx [= <-] _. reflexivity.
Defined.

Lemma Verify_syntactic_failure_final_witness :
  exists t',
    avm_tx.Verify (ex_VM None) (ex_TxS_db (Some avm.errNilTx))
      = Some (Some avm.errInitialStatesNotSortedUnique, t', false)
    /\ avm.verifiedState (avm_tx.tx t') = false
    /\ avm_tx.Verify (ex_VM (Some avm.errNilTx)) t'
       = Some (Some avm.errInitialStatesNotSortedUnique, t', false).
Proof.
  destruct (Verify_syntactic_failure_final (ex_VM None)
              (ex_TxS_db (Some avm.errNilTx)) (ex_utx (Some avm.errNilTx))
              avm.errNilTx)
    as (t' & Hv & Hvs & Hst & Hlater); [reflexivity..|].
  exists t'. split; [exact Hv|]. split; [exact Hvs|].
  apply Hlater. unfold avm_tx.Status_of. rewrite Hst.
  injection Hv as <-. reflexivity.
Defined.

Lemma Verify_success_cached_witness :
  let t' := avm_tx.with_tx
              (avm_tx.with_verifiedState true
                 (avm.with_verifiedTx true (avm_tx.tx (ex_TxS_db None))))
              (ex_TxS_db None) in
  avm_tx.Verify (ex_VM (Some avm.errNilTx)) t' = Some (None, t', true).
Proof.
  intros t'.
  apply (Verify_success_cached (ex_VM None) (ex_VM (Some avm.errNilTx))
           (ex_TxS_db None) t'); [reflexivity | reflexivity | left; reflexivity].
Defined.

Lemma Dependencies_exact_witness :
  let inputs := [ {| avm_tx.Symbolic := false; avm_tx.InputSource := 3%N; avm_tx.InputID := 30%N |};
                  {| avm_tx.Symbolic := true; avm_tx.InputSource := 4%N; avm_tx.InputID := 40%N |};
                  {| avm_tx.Symbolic := false; avm_tx.InputSource := 3%N; avm_tx.InputID := 30%N |} ] in
  let r := fst (avm_tx.Dependencies inputs {[7%N]} [7%N; 8%N; 3%N] (ex_TxS None)) in
  NoDup r
  /\ forall x, x ∈ r <->
       (exists i, i ∈ inputs /\ avm_tx.Symbolic i = false
                  /\ avm_tx.InputSource i = x)
       \/ (x ∈ [7%N; 8%N; 3%N] /\ x ∉ ({[7%N]} : gset N)).
Proof.
  intros inputs.
  apply (Dependencies_exact inputs {[7%N]} [7%N; 8%N; 3%N] (ex_TxS None)).
  reflexivity.
Defined.

Lemma MissingDependencies_exact_witness :
  snd (bootstrap.MissingDependencies (ex_GetVertex true) ex_vertex) = None
  /\ forall x, x ∈ fst (bootstrap.MissingDependencies (ex_GetVertex true) ex_vertex)
       <-> x ∈ [1%N; 2%N] /\ ex_GetVertex true x <> Some avm_tx.Accepted.
Proof.
  apply (MissingDependencies_exact (ex_GetVertex true) ex_vertex [1%N; 2%N]).
  reflexivity.
Defined.

Lemma Execute_accepts_iff_witness :
  let r := {| bootstrap.ex_err := None;
              bootstrap.ex_counters :=
                {| bootstrap.numAccepted := 0; bootstrap.numDropped := 1 |};
              bootstrap.ex_Accept_called := false;
              bootstrap.ex_SaveVertex_called := false |} in
  (bootstrap.ex_Accept_called r = true <->
     exists parents txs,
       bootstrap.vtx_Parents ex_vertex = Some parents
       /\ Forall (fun p => ex_GetVertex false p = Some avm_tx.Accepted) parents
       /\ bootstrap.vtx_Txs ex_vertex = Some txs
       /\ Forall (fun t => fst (ex_GetTx true t) = Some avm_tx.Accepted) txs
       /\ bootstrap.vtx_Status ex_vertex = avm_tx.Processing)
  /\ bootstrap.numAccepted (bootstrap.ex_counters r) =
       (if bootstrap.ex_Accept_called r then 1%nat else 0%nat)
  /\ (bootstrap.ex_SaveVertex_called r = true ->
        bootstrap.ex_Accept_called r = true
        /\ bootstrap.vtx_Accept_ok ex_vertex = true).
Proof.
  intros r.
  apply (Execute_accepts_iff (ex_GetVertex false) (ex_GetTx true) true ex_vertex
           {| bootstrap.numAccepted := 0; bootstrap.numDropped := 0 |} r).
  by vm_compute.
Defined.

Lemma Execute_unaccepted_tx_returns_nil_witness :
  bootstrap.Execute (ex_GetVertex false) (ex_GetTx true) true ex_vertex
    {| bootstrap.numAccepted := 0; bootstrap.numDropped := 0 |}
  = Some {| bootstrap.ex_err := None;
            bootstrap.ex_counters :=
              bootstrap.bump_dropped
                {| bootstrap.numAccepted := 0; bootstrap.numDropped := 0 |};
            bootstrap.ex_Accept_called := false;
            bootstrap.ex_SaveVertex_called := false |}.
Proof.
  apply (Execute_unaccepted_tx_returns_nil (ex_GetVertex false) (ex_GetTx true)
           true ex_vertex {| bootstrap.numAccepted := 0; bootstrap.numDropped := 0 |}
           [1%N; 2%N] [10%N; 11%N] 11%N);
    try reflexivity.
  - by repeat constructor.
  - by repeat constructor.
  - set_solver.
  - by vm_compute.
Defined.

Lemma Execute_missing_tx_panics_witness :
  bootstrap.Execute (ex_GetVertex false) (ex_GetTx false) true ex_vertex
    {| bootstrap.numAccepted := 0; bootstrap.numDropped := 0 |}
  = None.
Proof.
  apply (Execute_missing_tx_panics (ex_GetVertex false) (ex_GetTx false)
           true ex_vertex {| bootstrap.numAccepted := 0; bootstrap.numDropped := 0 |}
           [1%N; 2%N] [10%N] [] 11%N);
    try reflexivity.
  - by repeat constructor.
  - by repeat constructor.
Defined.

Lemma readFull_exact_witness :
  exists conn',
    readFull 2 [[x01]; [x02; x03]] = Some (take 2 (concat [[x01]; [x02; x03]]), conn')
    /\ concat conn' = drop 2 (concat [[x01]; [x02; x03]]).
Proof.
  apply (proj1 (readFull_exact 2 [[x01]; [x02; x03]])). simpl. lia.
Defined.

Lemma sendRaw_writes_frame_witness :
  fst (sendRaw [(3%nat, true); (9%nat, true)] [x01; x02]) = PackBytes [x01; x02].
Proof.
  apply (proj2 (sendRaw_writes_frame [(3%nat, true); (9%nat, true)] [x01; x02])).
  reflexivity.
Defined.

Lemma Close_idempotent_witness :
  net_hooks (w_net (Close 0%nat (Close 0%nat ex_world)))
  = HookDisconnected 0%nat :: net_hooks (w_net ex_world).
Proof.
  apply (proj2 (Close_idempotent 0%nat ex_world)). reflexivity.
Defined.

Lemma UnpinTx_not_counted_witness :
  let cache_Get := fun (c : gmap N N) (i : N) => c !! i in
  let tm := {| txmgr.pinnedTxs := {[9%N := 9%N]}; txmgr.txCache := (∅ : gmap N N);
               txmgr.vm := (∅ : gmap N N) |} in
  txmgr.GetTx cache_Get cache_Get
    (txmgr.UnpinTx 7%N (Nat.iter 2 (txmgr.PinTx (fun t : N => t) 7%N) tm)) 9%N
  = txmgr.GetTx cache_Get cache_Get tm 9%N.
Proof.
  intros cache_Get tm.
  apply (proj2 (UnpinTx_not_counted (fun t : N => t) cache_Get cache_Get 7%N 2 tm)).
  discriminate.
Defined.

Lemma handshake_either_order_witness :
  (exists w1 w2 tr,
     @version ex_External (ex_Version 1 9 3 1600000000) 0%nat ex_world = Some w1
     /\ connected (w_heap w1 0%nat) = false
     /\ @peerList ex_External ex_Dispatch ex_PeerList 0%nat w1 = Some (w2, tr)
     /\ handshake_done 3 0%nat ex_world w2)
  /\ (exists w1 w2 tr,
        @peerList ex_External ex_Dispatch ex_PeerList 0%nat ex_world = Some (w1, tr)
        /\ connected (w_heap w1 0%nat) = false
        /\ @version ex_External (ex_Version 1 9 3 1600000000) 0%nat w1 = Some w2
        /\ handshake_done 3 0%nat ex_world w2).
Proof.
  apply (@handshake_either_order ex_External ex_Dispatch
           (ex_Version 1 9 3 1600000000) ex_PeerList
           [{| IP := [x0a; x00; x00; x03]; Port := 9651 |}] 0%nat ex_world
           1 9 1600000000 3 "avalanche/1.0.4"
           {| App := "avalanche/1.0.4"; Major := 1; Minor := 0; Patch := 4 |});
    try reflexivity.
  - eexists; reflexivity.
  - discriminate.
  - left; reflexivity.
Defined.

Lemma handle_consensus_only_connected_witness :
  connected (w_heap ex_world_connected 0%nat) = true
  /\ is_Some (versionStruct (w_heap ex_world_connected 0%nat)).
Proof.
  destruct (@handle_consensus_only_connected ex_External ex_Dispatch true false
              ex_Chits ex_Chits Op.Chits 0%nat ex_world_connected
              (set_peer 0%nat (with_lastReceived 1600000000) ex_world_connected)
              [Consensus Op.Chits ex_Chits])
    as (Hc & Hv & _).
  - reflexivity.
  - apply list_elem_of_singleton. reflexivity.
  - split; [exact Hc | exact Hv].
Defined.

Lemma Start_refuses_self_witness :
  match @Start ex_External ex_Dispatch true
          (Reply (ex_Version 1 9 3 1600000000)) ex_nack 0%nat ex_world_self with
  | Some r => st_err r = Some errPeerIsMyself /\ st_tasks r = []
  | None => False
  end.
Proof.
  destruct (@Start ex_External ex_Dispatch true
              (Reply (ex_Version 1 9 3 1600000000)) ex_nack 0%nat ex_world_self)
    as [r|] eqn:Hr; [|by vm_compute in Hr].
  destruct (@Start_refuses_self ex_External ex_Dispatch true
              (Reply (ex_Version 1 9 3 1600000000)) ex_nack 0%nat ex_world_self r)
    as (_ & Ht & _ & _ & He); [reflexivity | exact Hr |].
  split; [|exact Ht].
  destruct (He eq_refl _ eq_refl) as [Hme|(_ & Hp)]; [exact Hme|].
  vm_compute in Hr. injection Hr as <-. discriminate Hp.
Defined.

Lemma Start_nil_launches_tasks_witness :
  match @Start ex_External ex_Dispatch true
          (Reply (ex_Version 1 9 3 1600000000)) ex_nack 0%nat ex_world with
  | Some r => GoReadMessages ∈ st_tasks r /\ GoWriteMessages ∈ st_tasks r
              /\ GoSendPings ∈ st_tasks r
  | None => False
  end.
Proof.
  destruct (@Start ex_External ex_Dispatch true
              (Reply (ex_Version 1 9 3 1600000000)) ex_nack 0%nat ex_world)
    as [r|] eqn:Hr; [|by vm_compute in Hr].
  destruct (@Start_nil_launches_tasks ex_External ex_Dispatch true
              (Reply (ex_Version 1 9 3 1600000000)) ex_nack 0%nat ex_world r)
    as (_ & H1 & H2 & H3 & _); [exact Hr | |by repeat split].
  vm_compute in Hr. by injection Hr as <-.
Defined.

Lemma Start_connected_handle_panics_witness :
  match @Start ex_External ex_Dispatch true
          (Reply (ex_Version 1 9 3 1600000000)) ex_nack 0%nat ex_world with
  | Some r => st_err r = None
              /\ @handle ex_External ex_Dispatch true false ex_Chits 0%nat (st_world r)
                 = None
  | None => False
  end.
Proof.
  destruct (@Start ex_External ex_Dispatch true
              (Reply (ex_Version 1 9 3 1600000000)) ex_nack 0%nat ex_world)
    as [r|] eqn:Hr; [|by vm_compute in Hr].
  destruct (@Start_connected_handle_panics ex_External ex_Dispatch true false
              (Reply (ex_Version 1 9 3 1600000000)) ex_nack 0%nat ex_world r ex_Chits)
    as (He & _ & Hp); [reflexivity | reflexivity | exact Hr | | reflexivity
                      | reflexivity | by split].
  vm_compute in Hr. by injection Hr as <-.
Defined.

(** A [Ping] at a new peer: the [Pong] is queued and the handshake is where
    it was. *)
Lemma handle_keeps_handshake_witness :
  match @handle ex_External ex_Dispatch true false (ex_msg [x05]) 0%nat ex_world with
  | Some (w', effs) =>
      handshake_kept 0%nat ex_world w' /\ length (sender (w_heap w' 0%nat)) = 1%nat
  | None => False
  end.
Proof.
  destruct (@handle ex_External ex_Dispatch true false (ex_msg [x05]) 0%nat ex_world)
    as [[w' effs]|] eqn:Hh; [|by vm_compute in Hh].
  split.
  - apply (@handle_keeps_handshake ex_External ex_Dispatch false (ex_msg [x05])
             0%nat ex_world w' effs); [exact Hh | discriminate | discriminate].
  - vm_compute in Hh. by injection Hh as <- _.
Defined.

Lemma Accept_nil_calls_witness :
  exists inputs us,
    Some ex_inputs = Some inputs /\ Some [50%N] = Some us
    /\ avm_tx.Status_of (ex_VM None) (ex_TxS None) = Some avm_tx.Processing
    /\ avm_tx.with_deps [] (avm_tx.with_status avm_tx.Accepted (ex_TxS None))
       = avm_tx.with_deps [] (avm_tx.with_status avm_tx.Accepted (ex_TxS None))
    /\ let new := avm_tx.spends inputs ++ avm_tx.funds us
                  ++ [avm_tx.SetStatus avm_tx.Accepted; avm_tx.CommitBatch;
                      avm_tx.ExecuteWithSideEffects; avm_tx.Publish "accepted";
                      avm_tx.Abort] in
       [avm_tx.SpendUTXO 30%N; avm_tx.FundUTXO 50%N;
        avm_tx.SetStatus avm_tx.Accepted; avm_tx.CommitBatch;
        avm_tx.ExecuteWithSideEffects; avm_tx.Publish "accepted"; avm_tx.Abort]
       = [] ++ new
       /\ avm_tx.all_ok (ex_ok true) [] new = true.
Proof.
  apply (Accept_nil_calls (ex_ok true) (ex_VM None) (Some ex_inputs) (Some [50%N])
           (ex_TxS None)
           (avm_tx.with_deps [] (avm_tx.with_status avm_tx.Accepted (ex_TxS None)))
           []
           [avm_tx.SpendUTXO 30%N; avm_tx.FundUTXO 50%N;
            avm_tx.SetStatus avm_tx.Accepted; avm_tx.CommitBatch;
            avm_tx.ExecuteWithSideEffects; avm_tx.Publish "accepted"; avm_tx.Abort]).
  reflexivity.
Defined.

Lemma Accept_failure_keeps_Accepted_witness :
  let t' := avm_tx.with_status avm_tx.Accepted (ex_TxS None) in
  avm_tx.Verify (ex_VM (Some avm.errNilTx)) t'
  = Some (None, avm_tx.with_tx (avm_tx.with_verifiedState true (avm_tx.tx t')) t',
          true).
Proof.
  intros t'.
  destruct (Accept_failure_keeps_Accepted (ex_ok false) (ex_VM None)
              (Some ex_inputs) (Some [50%N]) (ex_TxS None) t' []
              [avm_tx.SpendUTXO 30%N; avm_tx.FundUTXO 50%N;
               avm_tx.SetStatus avm_tx.Accepted; avm_tx.CommitBatch; avm_tx.Abort]
              avm_tx.CommitBatch)
    as (_ & _ & _ & _ & Hv & _).
  - reflexivity.
  - apply elem_of_cons. right. apply elem_of_cons. left. reflexivity.
  - apply Hv.
Defined.
